(** * Dynamic-RAG-Platform: the adaptive retrieval pipeline

    A shallow embedding of
      - [utils/retriever_agent.py]  (strategy router, relevance grader),
      - [utils/database.py]         (interaction store),
      - [views/chat_page.py]        (the per-turn orchestration in [render_page]),
    followed by the properties stated for them. *)

From Stdlib Require Import List ZArith NArith String Ascii Bool Arith Lia DecimalString.
From Stdlib Require Import Permutation Sorted.
Import ListNotations.

Set Implicit Arguments.
Set Warnings "-register-all,-notation-for-abbreviation".

(** ** Python strings

    A Python [str] is a sequence of Unicode code points; literals of the
    source are written as Rocq strings and read through [lit]. *)

Definition char := N.
Definition pystr := list char.

Definition lit (x : string) : pystr := map N_of_ascii (list_ascii_of_string x).

Fixpoint pystr_eqb (a b : pystr) : bool :=
  match a, b with
  | [], [] => true
  | x :: a', y :: b' => N.eqb x y && pystr_eqb a' b'
  | _, _ => false
  end.

(** [str.join]. *)
Fixpoint join (sep : pystr) (l : list pystr) : pystr :=
  match l with
  | [] => []
  | [x] => x
  | x :: l' => x ++ sep ++ join sep l'
  end.

(** [a.startswith(p)] and [p in a]. *)
Fixpoint startswith (p a : pystr) : bool :=
  match p, a with
  | [], _ => true
  | x :: p', y :: a' => N.eqb x y && startswith p' a'
  | _ :: _, [] => false
  end.

Fixpoint contains (p a : pystr) : bool :=
  startswith p a ||
  match a with
  | [] => false
  | _ :: a' => contains p a'
  end.

(** ** Character classes of [re] on [str] patterns

    For a [str] pattern, [\w] is [Py_UNICODE_ISALNUM(ch) || ch == '_'] and
    [\d] is [Py_UNICODE_ISDECIMAL(ch)].  On ASCII both are fixed; above
    ASCII they are read from the Unicode database, which the development
    takes as given. *)

Section UnicodeDatabase.

Variable unicode_isalnum : char -> bool.
Variable unicode_isdecimal : char -> bool.

Definition in_range (lo hi c : char) : bool := N.leb lo c && N.leb c hi.
Arguments in_range (lo hi c)%_N.

Definition ascii_digit (c : char) : bool := in_range 48 57 c.
Definition ascii_alpha (c : char) : bool := in_range 65 90 c || in_range 97 122 c.

Definition is_decimal (c : char) : bool :=
  if (c <? 128)%N then ascii_digit c else unicode_isdecimal c.

Definition is_alnum (c : char) : bool :=
  if (c <? 128)%N then ascii_digit c || ascii_alpha c else unicode_isalnum c.

(** [\w] *)
Definition is_word (c : char) : bool := is_alnum c || (c =? 95)%N.

(** [[-\w.]] *)
Definition host_char (c : char) : bool :=
  (c =? 45)%N || is_word c || (c =? 46)%N.

(** [[\da-fA-F]] *)
Definition hex_char (c : char) : bool :=
  is_decimal c || in_range 97 102 c || in_range 65 70 c.

(** ** The URL pattern, as a regular expression *)

Inductive regex : Type :=
| RChar (c : char)
| RClass (p : char -> bool)
| RSeq (r1 r2 : regex)
| RAlt (r1 r2 : regex)
| ROpt (r : regex)
| RPlus (r : regex).

Fixpoint RLit (s : pystr) (k : regex) : regex :=
  match s with
  | [] => k
  | c :: s' => RSeq (RChar c) (RLit s' k)
  end.

Inductive Matches : regex -> pystr -> Prop :=
| MChar c : Matches (RChar c) [c]
| MClass (p : char -> bool) c : p c = true -> Matches (RClass p) [c]
| MSeq r1 r2 s1 s2 :
    Matches r1 s1 -> Matches r2 s2 -> Matches (RSeq r1 r2) (s1 ++ s2)
| MAltL r1 r2 s : Matches r1 s -> Matches (RAlt r1 r2) s
| MAltR r1 r2 s : Matches r2 s -> Matches (RAlt r1 r2) s
| MOptNone r : Matches (ROpt r) []
| MOptSome r s : Matches r s -> Matches (ROpt r) s
| MPlusOne r s : Matches r s -> Matches (RPlus r) s
| MPlusMore r s1 s2 :
    Matches r s1 -> Matches (RPlus r) s2 -> Matches (RPlus r) (s1 ++ s2).

(** [(?:[-\w.]|(?:%[\da-fA-F]{2}))] *)
Definition host_item : regex :=
  RAlt (RClass host_char)
       (RSeq (RChar 37%N) (RSeq (RClass hex_char) (RClass hex_char))).

(** [url_pattern = r'https?://(?:[-\w.]|(?:%[\da-fA-F]{2}))+'] *)
Definition url_pattern : regex :=
  RLit (lit "http") (RSeq (ROpt (RChar 115%N)) (RLit (lit "://") (RPlus host_item))).

(** ** Matching as the [re] engine does it

    The engine tries the alternatives of a choice in order and repeats
    greedily.  Nothing follows the repetition, so the first successful
    path is: take an item whenever one is there, stop otherwise. *)

(** Consume the literal [p] at the head of [a]. *)
Fixpoint strip_prefix (p a : pystr) : option pystr :=
  match p, a with
  | [], _ => Some a
  | x :: p', y :: a' => if N.eqb x y then strip_prefix p' a' else None
  | _ :: _, [] => None
  end.

(** Number of code points taken by the greedy repetition of [host_item]. *)
Fixpoint host_run (a : pystr) : nat :=
  match a with
  | [] => 0
  | c :: a' =>
      if host_char c then S (host_run a')
      else if (c =? 37)%N then
        match a' with
        | h1 :: h2 :: a'' =>
            if hex_char h1 && hex_char h2 then 3 + host_run a'' else 0
        | _ => 0
        end
      else 0
  end.

(** [://] followed by one item or more; the length matched. *)
Definition match_authority (a : pystr) : option nat :=
  match strip_prefix (lit "://") a with
  | Some r =>
      match host_run r with
      | 0 => None
      | S n => Some (3 + S n)
      end
  | None => None
  end.

(** [url_pattern.match] at the head of [a]: the length of the match. *)
Definition url_match_len (a : pystr) : option nat :=
  match strip_prefix (lit "http") a with
  | Some r =>
      let with_s :=
        match r with
        | c :: r' =>
            if (c =? 115)%N then option_map (fun n => 5 + n) (match_authority r')
            else None
        | [] => None
        end in
      match with_s with
      | Some n => Some n
      | None => option_map (fun n => 4 + n) (match_authority r)
      end
  | None => None
  end.

(** [re.findall(url_pattern, a)]: scan from the left; a match is
    recorded whole (the pattern has no capturing group) and the scan
    resumes at its end.  [skip] counts the code points of the current
    match still to be passed over. *)
Fixpoint findall_from (skip : nat) (a : pystr) : list pystr :=
  match a with
  | [] => []
  | _ :: a' =>
      match skip with
      | S k => findall_from k a'
      | 0 =>
          match url_match_len a with
          | Some n => firstn n a :: findall_from (n - 1) a'
          | None => findall_from 0 a'
          end
      end
  end.

Definition re_findall (a : pystr) : list pystr := findall_from 0 a.

(** ** The URLs present in a text, said without the engine

    [urls_present a us]: reading [a] from the left, [us] are the
    occurrences of the pattern, none overlapping the one before.  Where
    no match of the pattern starts, one code point is passed over; where
    one starts, the longest is taken and reading resumes after it. *)
Inductive urls_present : pystr -> list pystr -> Prop :=
| present_end : urls_present [] []
| present_pass c a us :
    (forall u post, Matches url_pattern u -> c :: a <> u ++ post) ->
    urls_present a us ->
    urls_present (c :: a) us
| present_take u rest us :
    Matches url_pattern u ->
    (forall u' post', Matches url_pattern u' -> u ++ rest = u' ++ post' ->
                      List.length u' <= List.length u) ->
    urls_present rest us ->
    urls_present (u ++ rest) (u :: us).

End UnicodeDatabase.


(** ** Python values

    The objects the pipeline handles: JSON data as [json.loads] and
    [JsonOutputParser] build it, and LangChain [Document]s.  A [dict] keeps
    its keys in insertion order. *)

Inductive pyval : Type :=
| PNone
| PBool (b : bool)
| PInt (z : Z)
| PFloat (repr : pystr)
| PStr (s : pystr)
| PList (l : list pyval)
| PDict (d : list (pystr * pyval))
| PDocument (page_content : pystr) (metadata : list (pystr * pyval)).

Definition pydict := list (pystr * pyval).

(** [d.get(k)] *)
Fixpoint dict_get (d : pydict) (k : pystr) : option pyval :=
  match d with
  | [] => None
  | (k', v) :: d' => if pystr_eqb k' k then Some v else dict_get d' k
  end.

(** [d.get(k, default)] *)
Definition dict_get_default (d : pydict) (k : pystr) (default : pyval) : pyval :=
  match dict_get d k with
  | Some v => v
  | None => default
  end.

(** [d[k] = v]: an existing key keeps its place, a new one goes last. *)
Fixpoint dict_set (d : pydict) (k : pystr) (v : pyval) : pydict :=
  match d with
  | [] => [(k, v)]
  | (k', v') :: d' =>
      if pystr_eqb k' k then (k', v) :: d' else (k', v') :: dict_set d' k v
  end.

(** [bool(v)] *)
Definition truthy (v : pyval) : bool :=
  match v with
  | PNone => false
  | PBool b => b
  | PInt z => negb (Z.eqb z 0)
  | PFloat r => negb (pystr_eqb r (lit "0.0") || pystr_eqb r (lit "-0.0"))
  | PStr s => match s with [] => false | _ => true end
  | PList l => match l with [] => false | _ => true end
  | PDict d => match d with [] => false | _ => true end
  | PDocument _ _ => true
  end.

(** [v == s] for a [str] [s]: only an equal [str] compares equal. *)
Definition eq_str (v : pyval) (s : pystr) : bool :=
  match v with
  | PStr s' => pystr_eqb s' s
  | _ => false
  end.

(** [type(v).__name__] *)
Definition type_name (v : pyval) : pystr :=
  match v with
  | PNone => lit "NoneType"
  | PBool _ => lit "bool"
  | PInt _ => lit "int"
  | PFloat _ => lit "float"
  | PStr _ => lit "str"
  | PList _ => lit "list"
  | PDict _ => lit "dict"
  | PDocument _ _ => lit "Document"
  end.

(** [str(n)] for a natural number. *)
Definition str_of_nat (n : nat) : pystr :=
  lit (DecimalString.NilEmpty.string_of_uint (Nat.to_uint n)).

(** [repr] of a list of URLs, as the f-string of the router prints it.
    A matched URL holds no quote, no backslash and no unprintable code
    point, so each element is printed between single quotes as it is. *)
Definition repr_url_list (urls : list pystr) : pystr :=
  lit "[" ++ join (lit ", ") (map (fun u => lit "'" ++ u ++ lit "'") urls) ++ lit "]".

(** ** Exceptions and outcomes

    [Raise] carries an instance of [Exception]; [Stop] is Streamlit's
    script-control exception ([st.rerun()]), which derives from
    [BaseException] and is not caught by [except Exception]. *)

Record exn : Type := mkExn { exn_class : pystr; exn_str : pystr }.

Inductive outcome (A : Type) : Type :=
| Return (a : A)
| Raise (e : exn)
| Stop.

Arguments Return {A} a.
Arguments Raise {A} e.
Arguments Stop {A}.

(** What a service gives back: an answer, or an [Exception]. *)
Inductive reply (A : Type) : Type :=
| Answer (a : A)
| Failure (e : exn).

Arguments Answer {A} a.
Arguments Failure {A} e.

Definition outcome_of_reply {A} (r : reply A) : outcome A :=
  match r with
  | Answer a => Return a
  | Failure e => Raise e
  end.

(** [str(last_error)], where [last_error] starts as [None]. *)
Definition str_of_error (e : option exn) : pystr :=
  match e with
  | Some e => exn_str e
  | None => lit "None"
  end.

(** Modelled from the spec: [utils/constants.py] is not among the sources.
    [RetrievalStrategy] is the closed enumeration of section 3, with the
    member names the code uses; the values are those the docstring of
    [get_retriever_decision] lists, and the matching one for web search. *)
Inductive RetrievalStrategy : Type := DIRECT_LLM | VECTOR_BASED | WEB_SEARCH | HYBRID.

Definition value (s : RetrievalStrategy) : pystr :=
  match s with
  | DIRECT_LLM => lit "Direct LLM"
  | VECTOR_BASED => lit "Vector-Based"
  | WEB_SEARCH => lit "Web Search"
  | HYBRID => lit "Hybrid"
  end.

(** [[s.value for s in RetrievalStrategy]] *)
Definition strategy_values : list pystr :=
  map value [DIRECT_LLM; VECTOR_BASED; WEB_SEARCH; HYBRID].

(** [v in l] for a list of [str]. *)
Definition in_str_list (v : pyval) (l : list pystr) : bool :=
  existsb (eq_str v) l.

(** A LangChain [Document], and the Python object it is. *)
Record Document : Type := mkDocument {
  page_content : pystr;
  metadata : pydict
}.

Definition doc_value (d : Document) : pyval :=
  PDocument (page_content d) (metadata d).

(** Modelled from the spec: [utils/api_clients.py] is not among the sources.
    A [WebResult] is the triple of section 3; as a Python object it is the
    [dict] with these three keys. *)
Record WebResult : Type := mkWebResult {
  title : pystr;
  url : pystr;
  content : pystr
}.

Definition web_result_dict (r : WebResult) : pyval :=
  PDict [(lit "title", PStr (title r)); (lit "url", PStr (url r));
         (lit "content", PStr (content r))].

(** ** The interaction table ([utils/database.py])

    One record per row of [interactions]; a nullable [TEXT] column is an
    [option].  [timestamp] is the [CURRENT_TIMESTAMP] of the insertion, in
    seconds. *)

Record row : Type := mkRow {
  id : Z;
  session_id : option pystr;
  timestamp : Z;
  user_prompt : pystr;
  web_context : option pystr;
  llm_response : option pystr;
  rating : Z;
  source : option pystr;
  sources : option pystr
}.

(** The external calls a turn makes, in the order they are made. *)
Inductive call : Type :=
| CallRouterSetup                       (* retriever_agent.py, lines 55-76 *)
| CallRouterInvoke (query : pystr)      (* chain.invoke, line 84 *)
| CallGraderSetup                       (* lines 122-126 *)
| CallGraderInvoke (document question : pystr)   (* line 132 *)
| CallCheckMemory (query : pystr)
| CallSimilaritySearch (query : pystr) (k : nat)
| CallTavily (query depth : pystr) (count : pyval)
| CallAskGroq (messages : list pydict) (model temperature : pyval)
| CallLogLLM (provider : pystr) (model : pyval).

(** What is put on the screen, and on the console by [print]. *)
Inductive ui_event : Type :=
| UiMarkdown (text : pystr)
| UiSuccess (text : pystr)
| UiError (text : pystr)
| UiToast (text : pystr)
| UiPrint (text : pystr).

(** Everything a turn reads and writes: the session state of Streamlit
    ([chat_messages], the API key, the settings, the session id), the
    Document Store and the memory of the vector-store manager, the
    interaction table with the last row id it gave out, the screen, and
    the log of external calls. *)
Record world : Type := mkWorld {
  calls : list call;
  chat_messages : list pydict;
  groq_api_key : pyval;
  settings : pydict;
  current_session_id : option pystr;
  vector_store : option (list Document);
  memory : list (pystr * pystr);
  interactions : list row;
  last_rowid : Z;
  screen : list ui_event
}.

Definition with_calls (w : world) (c : list call) : world :=
  mkWorld c (chat_messages w) (groq_api_key w) (settings w)
          (current_session_id w) (vector_store w) (memory w)
          (interactions w) (last_rowid w) (screen w).

Definition with_chat_messages (w : world) (m : list pydict) : world :=
  mkWorld (calls w) m (groq_api_key w) (settings w)
          (current_session_id w) (vector_store w) (memory w)
          (interactions w) (last_rowid w) (screen w).

Definition with_vector_store (w : world) (v : option (list Document)) : world :=
  mkWorld (calls w) (chat_messages w) (groq_api_key w) (settings w)
          (current_session_id w) v (memory w)
          (interactions w) (last_rowid w) (screen w).

Definition with_memory (w : world) (m : list (pystr * pystr)) : world :=
  mkWorld (calls w) (chat_messages w) (groq_api_key w) (settings w)
          (current_session_id w) (vector_store w) m
          (interactions w) (last_rowid w) (screen w).

Definition with_interactions (w : world) (t : list row) (last : Z) : world :=
  mkWorld (calls w) (chat_messages w) (groq_api_key w) (settings w)
          (current_session_id w) (vector_store w) (memory w)
          t last (screen w).

Definition with_screen (w : world) (u : list ui_event) : world :=
  mkWorld (calls w) (chat_messages w) (groq_api_key w) (settings w)
          (current_session_id w) (vector_store w) (memory w)
          (interactions w) (last_rowid w) u.

(** ** The monad of the pipeline: state, exceptions, script control *)

Definition M (A : Type) : Type := world -> outcome A * world.

Definition ret {A} (a : A) : M A := fun w => (Return a, w).

Definition bind {A B} (m : M A) (k : A -> M B) : M B :=
  fun w =>
    match m w with
    | (Return a, w') => k a w'
    | (Raise e, w') => (Raise e, w')
    | (Stop, w') => (Stop, w')
    end.

Definition raise {A} (e : exn) : M A := fun w => (Raise e, w).

(** [try: m  except Exception as e: handler e] *)
Definition try_except {A} (m : M A) (handler : exn -> M A) : M A :=
  fun w =>
    match m w with
    | (Raise e, w') => handler e w'
    | r => r
    end.

(** [st.rerun()] *)
Definition st_rerun {A} : M A := fun w => (Stop, w).

Declare Scope pipeline_scope.
Delimit Scope pipeline_scope with pipeline.
Notation "x <- m ;; k" := (bind m (fun x => k))
  (at level 61, m at next level, right associativity) : pipeline_scope.
Notation "m ;; k" := (bind m (fun _ => k))
  (at level 61, right associativity) : pipeline_scope.
Open Scope pipeline_scope.

Definition get_world : M world := fun w => (Return w, w).
Definition modify (f : world -> world) : M unit := fun w => (Return tt, f w).

(** The world after some more external calls. *)
Definition after_calls (w : world) (c : list call) : world :=
  with_calls w (calls w ++ c).

(** Record an external call, then take its answer from the service. *)
Definition external {A} (c : call) (answer : world -> reply A) : M A :=
  fun w => (outcome_of_reply (answer w), after_calls w [c]).

(** A call that is not put on record: it returns or raises, and the world
    is as it was. *)
Definition unrecorded {A} (answer : world -> reply A) : M A :=
  fun w => (outcome_of_reply (answer w), w).

Definition show (e : ui_event) : M unit :=
  modify (fun w => with_screen w (screen w ++ [e])).

(** The [AttributeError] of [v.name] on an object without that attribute. *)
Definition attribute_error (v : pyval) (name : pystr) : exn :=
  mkExn (lit "AttributeError")
        (lit "'" ++ type_name v ++ lit "' object has no attribute '" ++ name ++ lit "'").

(** [v.get(k, default)]: a method of [dict] only. *)
Definition method_get (v : pyval) (k : pystr) (default : pyval) : M pyval :=
  match v with
  | PDict d => ret (dict_get_default d k default)
  | _ => raise (attribute_error v (lit "get"))
  end.

(** [d[k]] *)
Definition dict_item (d : pydict) (k : pystr) : M pyval :=
  match dict_get d k with
  | Some v => ret v
  | None => raise (mkExn (lit "KeyError") (lit "'" ++ k ++ lit "'"))
  end.

Fixpoint mapM {A B} (f : A -> M B) (l : list A) : M (list B) :=
  match l with
  | [] => ret []
  | x :: l' => y <- f x ;; ys <- mapM f l' ;; ret (y :: ys)
  end.

(** The services outside the sources.  Each answer may depend on the
    whole world at the time of the call, hence on every earlier call.
    A service that is called outside any [try], or inside one, and can
    raise there, gives a [reply]. *)
Record services : Type := mkServices {
  (* ChatGroq(...), load_prompt(...), the prompt and the chain *)
  router_setup : world -> pyval -> pyval -> reply unit;
  (* chain.invoke(...) with the JSON parser at its end *)
  router_invoke : world -> pystr -> reply pyval;
  grader_setup : world -> pyval -> pyval -> reply unit;
  grader_invoke : world -> pystr -> pystr -> reply pyval;
  (* VectorStoreManager.check_memory and .similarity_search *)
  check_memory : world -> pystr -> pyval;
  similarity_search : world -> pystr -> nat -> reply (list Document);
  (* run_tavily_search: the context text and the results *)
  run_tavily_search : world -> pystr -> pystr -> pyval -> reply (pystr * list WebResult);
  ask_groq : world -> list pydict -> pyval -> pyval -> reply pystr;
  (* load_prompt(name), as the orchestrator calls it *)
  load_prompt : world -> pystr -> reply pystr;
  (* rag_template.format(context_text=...) *)
  format_context : pystr -> pystr -> reply pystr;
  (* str(v) for a value that is not a str *)
  str_of_value : pyval -> pystr;
  (* json.dumps, and json.loads on the texts it wrote *)
  json_dumps : pyval -> pystr;
  json_loads : pystr -> pyval;
  (* CURRENT_TIMESTAMP *)
  current_timestamp : world -> Z
}.

Section Pipeline.

Variable unicode_isalnum : char -> bool.
Variable unicode_isdecimal : char -> bool.
Variable svc : services.

(** [f"{v}"] *)
Definition py_str (v : pyval) : pystr :=
  match v with
  | PStr s => s
  | _ => str_of_value svc v
  end.

(** ** The strategy router ([utils/retriever_agent.py]) *)

Definition max_retries : nat := 3.

(** Lines 93-95: a strategy that is not a member's value is replaced. *)
Definition validate_strategy (decision : pydict) : pydict :=
  if negb (in_str_list (dict_get_default decision (lit "strategy") PNone)
                       strategy_values)
  then dict_set decision (lit "strategy") (PStr (value VECTOR_BASED))
  else decision.

(** Lines 82-99: one pass per element of [range(max_retries)].  A pass
    that gets to [return decision] ends the function ([inl]); a pass
    that raises keeps the error and goes on to the next.  [inr] is the
    loop running out. *)
Fixpoint retry_loop (user_query : pystr) (attempts : list nat)
         (last_error : option exn) : M (pydict + option exn) :=
  match attempts with
  | [] => ret (inr last_error)
  | _ :: rest =>
      try_except
        (decision <- external (CallRouterInvoke user_query)
                              (fun w => router_invoke svc w user_query) ;;
         match decision with
         | PDict d => ret (inl (validate_strategy d))
         | _ => raise (attribute_error decision (lit "get"))
         end)
        (fun e => retry_loop user_query rest (Some e))
  end.

Definition get_retriever_decision (user_query : pystr) (api_key model_name : pyval)
  : M pydict :=
  let fallback_decision : pydict :=
    [(lit "strategy", PStr (value VECTOR_BASED));
     (lit "reasoning", PStr (lit "Default fallback."));
     (lit "refined_query", PStr user_query)] in
  let urls := re_findall unicode_isalnum unicode_isdecimal user_query in
  if truthy (PList (map PStr urls)) then
    ret [(lit "strategy", PStr (value WEB_SEARCH));
         (lit "reasoning",
          PStr (lit "User query contains specific URLs: " ++ repr_url_list urls
                ++ lit ". Switching to Web Search."));
         (lit "refined_query", PStr user_query);
         (lit "urls", PList (map PStr urls))]
  else if negb (truthy api_key) then
    ret (dict_set fallback_decision (lit "reasoning")
                  (PStr (lit "No API key provided.")))
  else
    try_except
      (external CallRouterSetup (fun w => router_setup svc w api_key model_name) ;;
       r <- retry_loop user_query (seq 0 max_retries) None ;;
       match r with
       | inl decision => ret decision
       | inr last_error =>
           let fallback_decision :=
             dict_set fallback_decision (lit "strategy") (PStr (value DIRECT_LLM)) in
           ret (dict_set fallback_decision (lit "reasoning")
                  (PStr (lit "Agent decision failed after " ++ str_of_nat max_retries
                         ++ lit " attempts: " ++ str_of_error last_error)))
       end)
      (fun e =>
         let fallback_decision :=
           dict_set fallback_decision (lit "strategy") (PStr (value DIRECT_LLM)) in
         ret (dict_set fallback_decision (lit "reasoning")
                (PStr (lit "Agent initialization failed: " ++ exn_str e)))).

(** ** The relevance grader *)

Definition grade_documents (user_query : pystr) (documents : list Document)
           (api_key model_name : pyval) : M pyval :=
  match documents with
  | [] => ret (PStr (lit "no"))
  | top :: _ =>
      try_except
        (external CallGraderSetup (fun w => grader_setup svc w api_key model_name) ;;
         let doc_txt := page_content top in
         result <- external (CallGraderInvoke doc_txt user_query)
                            (fun w => grader_invoke svc w doc_txt user_query) ;;
         method_get result (lit "score") (PStr (lit "no")))
        (fun e =>
           show (UiPrint (lit "Grading failed: " ++ exn_str e)) ;;
           ret (PStr (lit "yes")))
  end.

(** ** The interaction store ([utils/database.py])

    The database file exists and [setup_database] has created the
    table.  [AUTOINCREMENT] gives out the row id after the last one. *)

Definition log_interaction (user_prompt web_context llm_response source : pystr)
           (sources : pyval) (session_id : pystr) : M Z :=
  fun w =>
    let sources_json := json_dumps svc sources in
    let interaction_id := (last_rowid w + 1)%Z in
    let r := mkRow interaction_id (Some session_id) (current_timestamp svc w)
                   user_prompt (Some web_context) (Some llm_response) 0
                   (Some source) (Some sources_json) in
    (Return interaction_id,
     with_interactions w (interactions w ++ [r]) interaction_id).

(** [SET rating = ?] on one row. *)
Definition set_rating (new_rating : Z) (r : row) : row :=
  mkRow (id r) (session_id r) (timestamp r) (user_prompt r) (web_context r)
        (llm_response r) new_rating (source r) (sources r).

(** [UPDATE interactions SET rating = ? WHERE id = ?] *)
Definition update_rows (interaction_id new_rating : Z) (t : list row) : list row :=
  map (fun r => if Z.eqb (id r) interaction_id then set_rating new_rating r else r) t.

(** The integers SQLite takes: 64 bits, signed. *)
Definition sqlite_integer (n : Z) : bool :=
  (Z.leb (- 2 ^ 63) n && Z.leb n (2 ^ 63 - 1))%Z.

(** What the binding of a Python [int] outside them raises. *)
Definition overflow_error : exn :=
  mkExn (lit "OverflowError") (lit "Python int too large to convert to SQLite INTEGER").

(** Lines 53-59.  The two parameters are bound before the statement is
    run: when one of them is no SQLite integer the binding raises and the
    table is as it was. *)
Definition update_interaction_rating (interaction_id new_rating : Z) : M unit :=
  if sqlite_integer new_rating && sqlite_integer interaction_id then
    modify (fun w =>
      with_interactions w (update_rows interaction_id new_rating (interactions w))
                        (last_rowid w))
  else raise overflow_error.

(** What SQL leaves to the engine.  [ORDER BY] fixes the order of the rows
    as far as its keys differ; which of two rows of equal keys comes first
    is the choice of the engine, which SQLite makes by the place of the
    rows in the table and not by what they hold.  [ties a b]: the row of
    id [a] comes before the row of id [b] when the keys do not tell.  Each
    query below takes the choice made for it. *)
Variable ties : Z -> Z -> bool.

(** [ORDER BY timestamp DESC]: [a] goes before [b]. *)
Definition newer_first (a b : row) : bool :=
  Z.ltb (timestamp b) (timestamp a)
  || (Z.eqb (timestamp a) (timestamp b) && ties (id a) (id b)).

Fixpoint insert_desc (r : row) (l : list row) : list row :=
  match l with
  | [] => [r]
  | x :: l' => if newer_first r x then r :: l else x :: insert_desc r l'
  end.

Definition order_by_timestamp_desc (t : list row) : list row :=
  fold_right insert_desc [] t.

(** [LIMIT ?]: a negative limit is no limit. *)
Definition sql_limit (limit : Z) (l : list row) : list row :=
  if Z.ltb limit 0 then l else firstn (Z.to_nat limit) l.

(** [SELECT * FROM interactions WHERE session_id = ?
     ORDER BY timestamp DESC LIMIT ?] *)
Definition select_session (session : pystr) (limit : Z) (t : list row) : list row :=
  sql_limit limit
    (order_by_timestamp_desc
       (filter (fun r => match session_id r with
                         | Some s => pystr_eqb s session
                         | None => false
                         end) t)).

(** A nullable [TEXT] value as [sqlite3.Row] hands it over. *)
Definition sql_text (v : option pystr) : pyval :=
  match v with
  | Some s => PStr s
  | None => PNone
  end.

(** Lines 93-100: the two messages built from one row. *)
Definition row_messages (r : row) : list pydict :=
  [ [(lit "role", PStr (lit "user")); (lit "content", PStr (user_prompt r))];
    [(lit "role", PStr (lit "assistant"));
     (lit "content", sql_text (llm_response r));
     (lit "source", sql_text (source r));
     (lit "sources",
      match sources r with
      | Some (c :: s) => json_loads svc (c :: s)
      | _ => PList []
      end);
     (lit "interaction_id", PInt (id r))] ].

Definition load_chat_history_from_db (session : pystr) (limit : Z) : M (list pydict) :=
  w <- get_world ;;
  let rows := select_session session limit (interactions w) in
  ret (flat_map row_messages (rev rows)).

(** ** The orchestrator (the turn of [render_page], [views/chat_page.py]) *)

Definition nl : pystr := [10%N].

Definition append_message (m : pydict) : M unit :=
  modify (fun w => with_chat_messages w (chat_messages w ++ [m])).

(** The chunks of the Document Store; none before it is initialised. *)
Definition stored (w : world) : list Document :=
  match vector_store w with
  | Some l => l
  | None => []
  end.

(** Modelled from the spec: [utils/vector_store_manager.py] is not among
    the sources.  [add(chunks)] of section 6: the Document Store takes
    every chunk it is given, in order and without deduplication
    (section 8); a store not yet initialised is created. *)
Definition add_documents (docs : list Document) : M unit :=
  modify (fun w => with_vector_store w (Some (stored w ++ docs))).

(** Modelled from the spec: [record(query, answer)] of section 4.4
    inserts one [MemoryEntry]; [utils/vector_store_manager.py] is not
    among the sources. *)
Definition add_to_memory (query answer : pystr) : M unit :=
  modify (fun w => with_memory w (memory w ++ [(query, answer)])).

(** Lines 253-258: the context and the citations of the vector path. *)
Definition document_context (doc : Document) : pystr :=
  let src_name := dict_get_default (metadata doc) (lit "source") (PStr (lit "Unknown Doc")) in
  let page_num := dict_get_default (metadata doc) (lit "page") (PStr (lit "Unknown")) in
  lit "--Source: " ++ py_str src_name ++ lit " (Page " ++ py_str page_num ++ lit ")--"
      ++ nl ++ page_content doc ++ nl.

(** Lines 283-287: the [Document] made of one web result. *)
Definition web_document (r : WebResult) : Document :=
  mkDocument
    (lit "Title: " ++ title r ++ nl ++ lit "URL: " ++ url r ++ nl
         ++ lit "Content: " ++ content r)
    [(lit "source", PStr (title r)); (lit "url", PStr (url r));
     (lit "page", PStr (lit "Web"))].

(** Lines 263-271: the call of the web search. *)
Definition search_web (user_prompt : pystr) : M (pystr * list WebResult) :=
  w <- get_world ;;
  let depth := dict_get_default (settings w) (lit "tavily_depth") (PStr (lit "advanced")) in
  let count := dict_get_default (settings w) (lit "search_count") (PInt 5) in
  let search_depth :=
    if negb (eq_str depth (lit "basic")) then lit "advanced" else lit "basic" in
  external (CallTavily user_prompt search_depth count)
           (fun w => run_tavily_search svc w user_prompt search_depth count).

(** Lines 273-292: what is made of the answer of the web search.  It
    returns the context text and the citation list as it leaves them. *)
Definition use_web_results (web_context : pystr) (web_results : list WebResult)
           (context_text : pystr) (sources : list pyval) : M (pystr * list pyval) :=
  if contains (lit "Error") web_context then
    show (UiError web_context) ;;
    ret (context_text, sources)
  else
    let context_text :=
      context_text ++ nl ++ nl ++ lit "**Web Search Results:**" ++ nl
                   ++ web_context ++ nl in
    let sources := sources ++ map web_result_dict web_results in
    let new_docs := map web_document web_results in
    match new_docs with
    | _ :: _ =>
        add_documents new_docs ;;
        show (UiToast (lit "Indexed " ++ str_of_nat (List.length new_docs)
                       ++ lit " web results for future use."))
    | [] => ret tt
    end ;;
    ret (context_text, sources).

(** Lines 260-292: the web fallback. *)
Definition web_fallback (user_prompt context_text : pystr) (sources : list pyval)
  : M (pystr * list pyval) :=
  show (UiToast (lit "Relevance Grade: " ++ [10060%N]
                 ++ lit " Not Relevant. Switching to Web Search.")) ;;
  found <- search_web user_prompt ;;
  use_web_results (fst found) (snd found) context_text sources.

(** Lines 230-247 (steps A and B): the documents found and their grade. *)
Definition retrieve_and_grade (user_prompt : pystr) : M (list Document * pyval) :=
  w <- get_world ;;
  docs <- match vector_store w with
          | Some _ =>
              external (CallSimilaritySearch user_prompt 4)
                       (fun w => similarity_search svc w user_prompt 4)
          | None => ret []
          end ;;
  grade <- match docs with
           | _ :: _ =>
               w <- get_world ;;
               grade_documents user_prompt docs (groq_api_key w)
                 (dict_get_default (settings w) (lit "groq_model")
                                   (PStr (lit "llama3-8b-8192")))
           | [] => ret (PStr (lit "no"))
           end ;;
  ret (docs, grade).

(** Lines 249-292 (step C): the documents, or the web.  It returns the
    strategy taken, the context text and the citation list. *)
Definition vector_or_web (user_prompt : pystr) (docs : list Document) (grade : pyval)
  : M (pystr * (pystr * list pyval)) :=
  if eq_str grade (lit "yes") then
    show (UiToast (lit "Relevance Grade: " ++ [9989%N] ++ lit " Relevant")) ;;
    ret (value VECTOR_BASED,
         (nl ++ nl ++ lit "**Retrieved Documents:**" ++ nl
             ++ List.concat (map document_context docs),
          map doc_value docs))
  else
    r <- web_fallback user_prompt [] [] ;;
    ret (value WEB_SEARCH, r).

(** Lines 295-296 (step D): the system prompt made of the context. *)
Definition rag_system_prompt (context_text : pystr) : M pystr :=
  rag_template <- unrecorded (fun w => load_prompt svc w (lit "rag_response_system.txt")) ;;
  unrecorded (fun _ => format_context svc rag_template context_text).

(** Lines 228-296: steps A to D.  It returns the strategy taken, the
    system prompt, the context text and the citation list. *)
Definition dynamic_rag (user_prompt : pystr)
  : M (pystr * pystr * pystr * list pyval) :=
  graded <- retrieve_and_grade user_prompt ;;
  found <- vector_or_web user_prompt (fst graded) (snd graded) ;;
  let final_strategy := fst found in
  let context_text := fst (snd found) in
  let sources := snd (snd found) in
  system_prompt <- rag_system_prompt context_text ;;
  ret (final_strategy, system_prompt, context_text, sources).

(** Lines 298-300: the history sent to the model, system messages left
    out. *)
Fixpoint history_messages (l : list pydict) : M (list pydict) :=
  match l with
  | [] => ret []
  | m :: l' =>
      role <- dict_item m (lit "role") ;;
      if negb (eq_str role (lit "system")) then
        role <- dict_item m (lit "role") ;;
        content <- dict_item m (lit "content") ;;
        rest <- history_messages l' ;;
        ret ([(lit "role", role); (lit "content", content)] :: rest)
      else history_messages l'
  end.

(** [s.metadata if hasattr(s, 'metadata') else s] *)
Definition source_for_log (s : pyval) : pyval :=
  match s with
  | PDocument _ m => PDict m
  | _ => s
  end.

(** Lines 192-194: the prompt joins the conversation and is shown. *)
Definition show_prompt (user_prompt : pystr) : M unit :=
  append_message [(lit "role", PStr (lit "user")); (lit "content", PStr user_prompt)] ;;
  show (UiMarkdown user_prompt).

(** Lines 198-208: the semantic memory is asked first; an answer found
    there is shown and the script is rerun. *)
Definition memory_shortcut (user_prompt : pystr) : M unit :=
  cached_response <- external (CallCheckMemory user_prompt)
                       (fun w => Answer (check_memory svc w user_prompt)) ;;
  if truthy cached_response then
    show (UiSuccess ([9889%N] ++ lit " Accessed from Memory")) ;;
    show (UiMarkdown (py_str cached_response)) ;;
    append_message [(lit "role", PStr (lit "assistant"));
                    (lit "content", cached_response);
                    (lit "source", PStr (lit "Memory Cache"))] ;;
    st_rerun
  else ret tt.

(** Lines 210-296: the router, then the direct answer or dynamic RAG.  It
    returns the strategy taken, the system prompt, the context text and
    the citation list. *)
Definition plan_answer (user_prompt : pystr) : M (pystr * pystr * pystr * list pyval) :=
  w <- get_world ;;
  agent_decision <- get_retriever_decision user_prompt (groq_api_key w)
                      (dict_get_default (settings w) (lit "groq_model")
                                        (PStr (lit "llama3-8b-8192"))) ;;
  strategy <- dict_item agent_decision (lit "strategy") ;;
  if eq_str strategy (value DIRECT_LLM) then
    rag_template <- unrecorded (fun w => load_prompt svc w (lit "direct_llm_system.txt")) ;;
    ret (value DIRECT_LLM, rag_template, [], [])
  else dynamic_rag user_prompt.

(** [settings.get("groq_model", "llama-3.3-70b-versatile")], line 303. *)
Definition generation_model (w : world) : pyval :=
  dict_get_default (settings w) (lit "groq_model") (PStr (lit "llama-3.3-70b-versatile")).

(** Lines 298-307: the messages, the call of the model, the answer shown. *)
Definition generate (system_prompt : pystr) : M pystr :=
  w <- get_world ;;
  history <- history_messages (chat_messages w) ;;
  let messages :=
    [(lit "role", PStr (lit "system")); (lit "content", PStr system_prompt)]
      :: history in
  let model := generation_model w in
  let temperature := dict_get_default (settings w) (lit "temperature")
                                      (PFloat (lit "0.5")) in
  response_text <- external (CallAskGroq messages model temperature)
                     (fun w => ask_groq svc w messages model temperature) ;;
  show (UiMarkdown response_text) ;;
  ret response_text.

(** Lines 319-343: the interaction is logged, the memory fed, the answer
    joins the conversation, and the script is rerun. *)
Definition record_turn (user_prompt final_strategy context_text : pystr)
           (sources : list pyval) (response_text : pystr) : M unit :=
  w <- get_world ;;
  let provider := lit "Groq (Web-based)" in
  let model := generation_model w in
  interaction_id <-
    log_interaction user_prompt context_text response_text
      (lit "Groq (" ++ py_str model ++ lit ") - " ++ final_strategy)
      (PList (map source_for_log sources))
      (match current_session_id w with
       | Some s => s
       | None => lit "default"
       end) ;;
  add_to_memory user_prompt response_text ;;
  append_message [(lit "role", PStr (lit "assistant"));
                  (lit "content", PStr response_text);
                  (lit "source", PStr (lit "Groq (" ++ py_str model ++ lit ")"));
                  (lit "sources", PList sources);
                  (lit "retrieval_strategy", PStr final_strategy);
                  (lit "interaction_id", PInt interaction_id)] ;;
  external (CallLogLLM provider model) (fun _ => Answer tt) ;;
  st_rerun.

(** Lines 191-343: what [render_page] does with the prompt of the turn. *)
Definition handle_prompt (user_prompt : pystr) : M unit :=
  if truthy (PStr user_prompt) then
    show_prompt user_prompt ;;
    memory_shortcut user_prompt ;;
    plan <- plan_answer user_prompt ;;
    let final_strategy := fst (fst (fst plan)) in
    let system_prompt := snd (fst (fst plan)) in
    let context_text := snd (fst plan) in
    let sources := snd plan in
    response_text <- generate system_prompt ;;
    record_turn user_prompt final_strategy context_text sources response_text
  else ret tt.

End Pipeline.

(** The ASCII-only Unicode database, to run the definitions. *)
Definition no_unicode : char -> bool := fun _ => false.

(** The error one pass of the retry loop ends with, given the reply of the
    classification service: its failure, or the [AttributeError] of
    [decision.get] on a reply that is not a [dict]. *)
Definition attempt_error (r : reply pyval) : option exn :=
  match r with
  | Failure e => Some e
  | Answer (PDict _) => None
  | Answer v => Some (attribute_error v (lit "get"))
  end.

(** How many of the calls are calls of the classification chain. *)
Fixpoint router_invokes (l : list call) : nat :=
  match l with
  | [] => 0
  | CallRouterInvoke _ :: l' => S (router_invokes l')
  | _ :: l' => router_invokes l'
  end.

(** ** The rest of [utils/database.py] *)

(** [session_id = ?]: a row without session id is in no session. *)
Definition in_session (session : pystr) (r : row) : bool :=
  match session_id r with
  | Some s => pystr_eqb s session
  | None => false
  end.

(** The choice of the engine that puts rows of equal keys in the order of
    the table, and the one that puts them in the opposite order. *)
Definition table_order : Z -> Z -> bool := Z.ltb.

Definition reverse_table_order : Z -> Z -> bool := fun a b => Z.ltb b a.

(** [DELETE FROM interactions WHERE session_id = ?].  The table is
    [AUTOINCREMENT]: the last row id given out is kept. *)
Definition delete_session (session : pystr) : M unit :=
  modify (fun w =>
    with_interactions w
      (filter (fun r => negb (in_session session r)) (interactions w))
      (last_rowid w)).

(** [SELECT user_prompt FROM interactions ORDER BY timestamp DESC LIMIT ?],
    then one entry of the dashboard per row. *)
Definition load_query_history_from_db (ties : Z -> Z -> bool) (limit : Z)
  : M (list pydict) :=
  w <- get_world ;;
  let rows := sql_limit limit (order_by_timestamp_desc ties (interactions w)) in
  ret (map (fun r => [(lit "Query", PStr (user_prompt r));
                      (lit "Type", PStr (lit "RAG Agent"))]) rows).

(** [GROUP BY session_id]: two rows are of one group when their session
    ids are equal, or both missing. *)
Definition same_session_id (a b : option pystr) : bool :=
  match a, b with
  | Some x, Some y => pystr_eqb x y
  | None, None => true
  | _, _ => false
  end.

(** The groups so far, each held by a row of greatest timestamp (the
    row from which SQLite takes the bare column [user_prompt] beside
    [MAX(timestamp)]; when several rows of the group have that timestamp,
    which one is the choice of the engine); [r] joins its group, or opens
    one. *)
Fixpoint put_in_group (ties : Z -> Z -> bool) (r : row) (groups : list row)
  : list row :=
  match groups with
  | [] => [r]
  | g :: gs =>
      if same_session_id (session_id g) (session_id r)
      then (if newer_first ties r g then r else g) :: gs
      else g :: put_in_group ties r gs
  end.

Definition group_by_session (ties : Z -> Z -> bool) (t : list row) : list row :=
  fold_left (fun groups r => put_in_group ties r groups) t [].

(** A row of the answer of [get_all_sessions]. *)
Record session_row : Type := mkSessionRow {
  sr_session_id : option pystr;
  sr_last_active : Z;
  sr_user_prompt : pystr
}.

(** [SELECT session_id, MAX(timestamp) as last_active, user_prompt
     FROM interactions GROUP BY session_id ORDER BY last_active DESC] *)
Definition get_all_sessions (ties : Z -> Z -> bool) : M (list session_row) :=
  w <- get_world ;;
  ret (map (fun g => mkSessionRow (session_id g) (timestamp g) (user_prompt g))
           (order_by_timestamp_desc ties (group_by_session ties (interactions w)))).

(** [str.isspace] of one code point: the ASCII white space and the
    Unicode one. *)
Definition is_space (c : char) : bool :=
  ((9 <=? c) && (c <=? 13) || (28 <=? c) && (c <=? 32) || (c =? 133) || (c =? 160)
   || (c =? 5760) || (8192 <=? c) && (c <=? 8202) || (c =? 8232) || (c =? 8233)
   || (c =? 8239) || (c =? 8287) || (c =? 12288))%N.

Fixpoint lstrip (a : pystr) : pystr :=
  match a with
  | [] => []
  | c :: a' => if is_space c then lstrip a' else a
  end.

(** [a.strip()] *)
Definition strip (a : pystr) : pystr := rev (lstrip (rev (lstrip a))).

(** The case folding of SQLite's [LIKE]: ASCII letters only. *)
Definition sql_lower (c : char) : char :=
  if ((65 <=? c) && (c <=? 90))%N then (c + 32)%N else c.

(** The matching of [LIKE], without [ESCAPE]: [%] stands for any run of
    code points, [_] for any one, and anything else for itself, whatever
    its ASCII case. *)
Fixpoint like_match (p s : pystr) : bool :=
  match p with
  | [] => match s with [] => true | _ :: _ => false end
  | c :: p' =>
      if (c =? 37)%N then
        (fix any (s : pystr) : bool :=
           like_match p' s || match s with
                              | [] => false
                              | _ :: s' => any s'
                              end) s
      else
        match s with
        | [] => false
        | d :: s' =>
            ((c =? 95)%N || (sql_lower c =? sql_lower d)%N) && like_match p' s'
        end
  end.

(** What SQLite's [LIKE] reads of a text: it stops at the first NUL. *)
Fixpoint until_nul (s : pystr) : pystr :=
  match s with
  | [] => []
  | c :: s' => if (c =? 0)%N then [] else c :: until_nul s'
  end.

(** [s LIKE p]: the pattern and the text are both read up to their first
    NUL. *)
Definition sql_like (p s : pystr) : bool := like_match (until_nul p) (until_nul s).

(** The length of a text in bytes, as SQLite holds it (UTF-8). *)
Definition utf8_length (s : pystr) : N :=
  fold_right (fun c n =>
                ((if c <? 128 then 1 else if c <? 2048 then 2
                  else if c <? 65536 then 3 else 4) + n)%N) 0%N s.

(** SQLite's limit on the length of a pattern of [LIKE], in bytes; a
    longer pattern is an error of the statement as soon as [LIKE] is
    evaluated, that is, on the first row of a table that has one. *)
Definition like_pattern_limit : N := 50000.

Definition pattern_too_complex : exn :=
  mkExn (lit "OperationalError") (lit "LIKE or GLOB pattern too complex").

Definition check_like_pattern (pattern : pystr) : M unit :=
  w <- get_world ;;
  match interactions w with
  | _ :: _ =>
      if (like_pattern_limit <? utf8_length pattern)%N then raise pattern_too_complex
      else ret tt
  | [] => ret tt
  end.

(** [WHERE user_prompt LIKE ? AND rating >= 1] *)
Definition rated_match (pattern : pystr) (r : row) : bool :=
  sql_like pattern (user_prompt r) && Z.leb 1 (rating r).

(** [ORDER BY rating DESC, timestamp DESC]: [a] goes before [b]; rows of
    equal rating and timestamp are left to the engine. *)
Definition goes_before (ties : Z -> Z -> bool) (a b : row) : bool :=
  Z.ltb (rating b) (rating a)
  || (Z.eqb (rating a) (rating b) && newer_first ties a b).

Fixpoint insert_rated (ties : Z -> Z -> bool) (r : row) (l : list row) : list row :=
  match l with
  | [] => [r]
  | x :: l' => if goes_before ties r x then r :: l else x :: insert_rated ties r l'
  end.

Definition order_by_rating_timestamp_desc (ties : Z -> Z -> bool) (t : list row)
  : list row :=
  fold_right (insert_rated ties) [] t.

(** [find_similar_interaction]: the first row of the query ([LIMIT 1],
    [fetchone]) as a [dict], or [None]. *)
Definition find_similar_interaction (ties : Z -> Z -> bool) (query : pystr) : M pyval :=
  w <- get_world ;;
  let pattern := lit "%" ++ strip query ++ lit "%" in
  check_like_pattern pattern ;;
  let result :=
    hd_error (order_by_rating_timestamp_desc ties
                (filter (rated_match pattern) (interactions w))) in
  match result with
  | Some r =>
      ret (PDict [(lit "past_question", PStr (user_prompt r));
                  (lit "past_answer", sql_text (llm_response r))])
  | None => ret PNone
  end.

(** ** The rest of [views/chat_page.py] *)

(** Lines 22-27, [check_pending_query]: the value of [pending_query] in
    the session state ([None] here when the key is not there); it returns
    what is pending and the value left behind. *)
Definition check_pending_query (pending_query : option pyval) : pyval * option pyval :=
  match pending_query with
  | Some q => if truthy q then (q, Some PNone) else (PNone, pending_query)
  | None => (PNone, None)
  end.

(** Lines 44-48: the loop from the last message down to the first. *)
Fixpoint scan_for_user (reversed : list pydict) (i : Z) : M Z :=
  match reversed with
  | [] => ret (-1)%Z
  | m :: rest =>
      role <- dict_item m (lit "role") ;;
      if eq_str role (lit "user") then ret i else scan_for_user rest (i - 1)%Z
  end.

Definition last_user_msg_index (messages : list pydict) : M Z :=
  scan_for_user (rev messages) (Z.of_nat (List.length messages) - 1)%Z.

(** Lines 103-112: the message whose buttons are shown rates its
    interaction; a message that is not of the assistant, or carries no
    [interaction_id], shows none. *)
Definition feedback_target (msg : pydict) : M (option pyval) :=
  role <- dict_item msg (lit "role") ;;
  if eq_str role (lit "assistant") then ret (dict_get msg (lit "interaction_id"))
  else ret None.

(** A press on a button of the message: thumbs up is [1], down is [-1].
    An id that is no integer is the id of no row. *)
Definition press_feedback (msg : pydict) (new_rating : Z) : M unit :=
  target <- feedback_target msg ;;
  match target with
  | Some (PInt i) => update_interaction_rating i new_rating
  | _ => ret tt
  end.

(** Modelled from the spec: [utils/document_processor.py] is not among the
    sources.  An uploaded file is taken with what [process_uploaded_file]
    makes of it: chunks of text with metadata (section 1), or an error. *)
Record UploadedFile : Type := mkUploadedFile {
  file_name : pystr;
  processed_as : reply (list Document)
}.

(** What the attachment popover says in the end. *)
Inductive upload_report : Type :=
| UploadNothing
| UploadIndexed (chunks : nat)
| UploadNoText
| UploadError (e : exn).

(** [name in processed_files] and [processed_files.add(name)] *)
Definition name_in (name : pystr) (processed_files : list pystr) : bool :=
  existsb (pystr_eqb name) processed_files.

Definition set_add (name : pystr) (processed_files : list pystr) : list pystr :=
  if name_in name processed_files then processed_files else processed_files ++ [name].

(** Lines 137-142: the loop over the new files.  The set is changed in
    place, so what was added to it before an exception stays. *)
Fixpoint process_files (new_files : list UploadedFile) (processed_files : list pystr)
         (all_docs : list Document) : list pystr * reply (list Document) :=
  match new_files with
  | [] => (processed_files, Answer all_docs)
  | uploaded_file :: rest =>
      match processed_as uploaded_file with
      | Answer docs =>
          process_files rest (set_add (file_name uploaded_file) processed_files)
                        (all_docs ++ docs)
      | Failure e => (processed_files, Failure e)
      end
  end.

(** Lines 128-151: the files not yet processed are processed and their
    chunks indexed.  It returns the set of processed names and what is
    said. *)
Definition handle_uploads (uploaded_files : list UploadedFile)
           (processed_files : list pystr) : M (list pystr * upload_report) :=
  let new_files :=
    filter (fun f => negb (name_in (file_name f) processed_files)) uploaded_files in
  match new_files with
  | [] => ret (processed_files, UploadNothing)
  | _ :: _ =>
      let done := process_files new_files processed_files [] in
      match snd done with
      | Answer [] => ret (fst done, UploadNoText)
      | Answer all_docs =>
          add_documents all_docs ;;
          ret (fst done, UploadIndexed (List.length all_docs))
      | Failure e => ret (fst done, UploadError e)
      end
  end.

(** ** Settings to run the pipeline in

    Three sets of services: one where everything answers (the classifier
    with a strategy that is no member's value, the grader without a
    score), one where the classifier, the grader and the web search fail,
    and one whose memory knows an answer. *)

Definition demo_services : services :=
  {| router_setup := fun _ _ _ => Answer tt;
     router_invoke := fun _ _ =>
       Answer (PDict [(lit "strategy", PStr (lit "Graph Search"));
                      (lit "reasoning", PStr (lit "Relations are asked for."));
                      (lit "refined_query", PStr (lit "capital France"))]);
     grader_setup := fun _ _ _ => Answer tt;
     grader_invoke := fun _ _ _ => Answer (PDict [(lit "verdict", PStr (lit "yes"))]);
     check_memory := fun _ _ => PNone;
     similarity_search := fun _ _ _ => Answer [];
     run_tavily_search := fun _ _ _ _ =>
       Answer (lit "Paris is the capital of France.",
               [mkWebResult (lit "France") (lit "https://fr.example.org") (lit "Paris.")]);
     ask_groq := fun _ _ _ _ => Answer (lit "Paris.");
     load_prompt := fun _ name => Answer name;
     format_context := fun template context_text => Answer (template ++ context_text);
     str_of_value := fun _ => lit "?";
     json_dumps := fun _ => lit "[]";
     json_loads := fun _ => PList [];
     current_timestamp := fun _ => 0%Z |}.

Definition timeout_error : exn := mkExn (lit "APITimeoutError") (lit "Request timed out.").

Definition failing_services : services :=
  {| router_setup := fun _ _ _ => Answer tt;
     router_invoke := fun _ _ => Failure timeout_error;
     grader_setup := fun _ _ _ => Answer tt;
     grader_invoke := fun _ _ _ => Failure timeout_error;
     check_memory := fun _ _ => PNone;
     similarity_search := fun _ _ _ => Answer [];
     run_tavily_search := fun _ _ _ _ =>
       Answer (lit "Error during Tavily search: unreachable", []);
     ask_groq := fun _ _ _ _ => Answer (lit "I could not look this up.");
     load_prompt := fun _ name => Answer name;
     format_context := fun template context_text => Answer (template ++ context_text);
     str_of_value := fun _ => lit "?";
     json_dumps := fun _ => lit "[]";
     json_loads := fun _ => PList [];
     current_timestamp := fun _ => 0%Z |}.

Definition remembering_services : services :=
  {| router_setup := fun _ _ _ => Answer tt;
     router_invoke := fun _ _ => Failure timeout_error;
     grader_setup := fun _ _ _ => Answer tt;
     grader_invoke := fun _ _ _ => Failure timeout_error;
     check_memory := fun _ _ => PStr (lit "Paris.");
     similarity_search := fun _ _ _ => Answer [];
     run_tavily_search := fun _ _ _ _ => Answer ([], []);
     ask_groq := fun _ _ _ _ => Answer (lit "Paris.");
     load_prompt := fun _ name => Answer name;
     format_context := fun template context_text => Answer (template ++ context_text);
     str_of_value := fun _ => lit "?";
     json_dumps := fun _ => lit "[]";
     json_loads := fun _ => PList [];
     current_timestamp := fun _ => 0%Z |}.

(** A session with a key, no document, and one interaction on record. *)
Definition demo_world : world :=
  {| calls := [];
     chat_messages := [];
     groq_api_key := PStr (lit "gsk_demo");
     settings := [];
     current_session_id := Some (lit "s1");
     vector_store := None;
     memory := [];
     interactions :=
       [mkRow 7 (Some (lit "s1")) 100 (lit "Hello?") (Some []) (Some (lit "Hello."))
              0 (Some (lit "Groq (m) - Direct LLM")) (Some (lit "[]"))];
     last_rowid := 7;
     screen := [] |}.

Definition demo_document : Document :=
  mkDocument (lit "Paris is the capital of France.")
             [(lit "source", PStr (lit "atlas.pdf")); (lit "page", PInt 3)].

(** What the claim on ratings asks of the listing of a session: a message
    of the interaction that carries the rating. *)
Definition listing_shows_rating (messages : list pydict) (interaction_id r : Z) : Prop :=
  exists m, In m messages /\
            dict_get m (lit "interaction_id") = Some (PInt interaction_id) /\
            dict_get m (lit "rating") = Some (PInt r).

(** ** What the statements are written with *)

(** Computations that come to an end.

    [returns R m]: from every world [m] returns a value, in a world
    related to the first by [R].  [settles R m]: it returns or raises, and
    does not stop the script. *)

Definition returns {A} (R : world -> world -> Prop) (m : M A) : Prop :=
  forall w, exists a w', m w = (Return a, w') /\ R w w'.

Definition settles {A} (R : world -> world -> Prop) (m : M A) : Prop :=
  forall w, exists o w', m w = (o, w') /\ o <> Stop /\ R w w'.

(** [keeps R m]: however [m] ends, by a value, an exception or the end of
    the script, it ends in a world related to the first by [R]. *)
Definition keeps {A} (R : world -> world -> Prop) (m : M A) : Prop :=
  forall w, R w (snd (m w)).

(** The session, the store, the memory and the table are as before; the
    log of calls and the screen may have grown. *)
Definition quiet (w w' : world) : Prop :=
  chat_messages w' = chat_messages w /\
  groq_api_key w' = groq_api_key w /\
  settings w' = settings w /\
  current_session_id w' = current_session_id w /\
  vector_store w' = vector_store w /\
  memory w' = memory w /\
  interactions w' = interactions w /\
  last_rowid w' = last_rowid w.

(** As [quiet], but the Document Store may have grown too. *)
Definition same_session (w w' : world) : Prop :=
  chat_messages w' = chat_messages w /\
  groq_api_key w' = groq_api_key w /\
  settings w' = settings w /\
  current_session_id w' = current_session_id w /\
  memory w' = memory w /\
  interactions w' = interactions w /\
  last_rowid w' = last_rowid w.

(** The interaction table is as before. *)
Definition same_table (w w' : world) : Prop :=
  interactions w' = interactions w /\ last_rowid w' = last_rowid w.

(** The fields of a row other than its rating. *)
Definition same_but_rating (a b : row) : Prop :=
  id b = id a /\ session_id b = session_id a /\ timestamp b = timestamp a /\
  user_prompt b = user_prompt a /\ web_context b = web_context a /\
  llm_response b = llm_response a /\ source b = source a /\ sources b = sources a.

(** A conversation whose messages all have a role and a content. *)
Definition well_formed_history (l : list pydict) : Prop :=
  Forall (fun m => dict_get m (lit "role") <> None /\
                   dict_get m (lit "content") <> None) l.

(** The message of the prompt, and what is sent of a message to the
    model: its role and its content. *)
Definition user_message (q : pystr) : pydict :=
  [(lit "role", PStr (lit "user")); (lit "content", PStr q)].

Definition role_and_content (m : pydict) : pydict :=
  [(lit "role", dict_get_default m (lit "role") PNone);
   (lit "content", dict_get_default m (lit "content") PNone)].

Definition not_system (m : pydict) : bool :=
  negb (eq_str (dict_get_default m (lit "role") PNone) (lit "system")).

(** The arguments of the one call of the model that a turn makes in the
    world [w], lines 298-306, when the messages of the conversation have
    a role and a content. *)
Definition model_messages (system_prompt : pystr) (w : world) : list pydict :=
  [(lit "role", PStr (lit "system")); (lit "content", PStr system_prompt)]
    :: map role_and_content (filter not_system (chat_messages w)).

Definition temperature_of (w : world) : pyval :=
  dict_get_default (settings w) (lit "temperature") (PFloat (lit "0.5")).

(** The world in which the plan of a turn is made: the prompt has joined
    the conversation and the memory has been asked. *)
Definition asked (q : pystr) (w : world) : world :=
  after_calls (snd (show_prompt q w)) [CallCheckMemory q].

Definition capital_query : pystr := lit "What is the capital of France?".

Definition report_query : pystr := lit "See https://example.com/report.pdf".

(** The scenario of the spec for that query (section 7): the list of
    extracted URLs that the router must return, the URL present in the
    query. *)
Definition scenario_urls : list pystr := [lit "https://example.com/report.pdf"].

Definition demo_key : pyval := PStr (lit "gsk_demo").

Definition router_model : pyval := PStr (lit "llama3-8b-8192").

Definition france_result : WebResult :=
  mkWebResult (lit "France") (lit "https://fr.example.org") (lit "Paris.").

Definition not_relevant_toast : ui_event :=
  UiToast (lit "Relevance Grade: " ++ [10060%N]
           ++ lit " Not Relevant. Switching to Web Search.").

(** * Properties *)

(** ** Strings and dictionaries *)

Lemma pystr_eqb_eq (a b : pystr) : pystr_eqb a b = true <-> a = b.
Proof.
  revert b; induction a as [|x a IH]; intros [|y b]; simpl; split;
    try congruence; try discriminate.
  - rewrite andb_true_iff, N.eqb_eq, IH. intros [-> ->]; reflexivity.
  - intros [= -> ->]. rewrite N.eqb_refl. simpl. apply IH; reflexivity.
Qed.

Lemma pystr_eqb_refl (a : pystr) : pystr_eqb a a = true.
Proof. apply pystr_eqb_eq; reflexivity. Qed.

Lemma pystr_eqb_neq (a b : pystr) : pystr_eqb a b = false <-> a <> b.
Proof.
  rewrite <- pystr_eqb_eq. destruct (pystr_eqb a b); split; congruence.
Qed.

Lemma dict_get_set_same (d : pydict) (k : pystr) (v : pyval) :
  dict_get (dict_set d k v) k = Some v.
Proof.
  induction d as [|[k' v'] d IH]; simpl.
  - now rewrite pystr_eqb_refl.
  - destruct (pystr_eqb k' k) eqn:E; simpl; rewrite E; auto.
Qed.

Lemma dict_get_set_other (d : pydict) (k k0 : pystr) (v : pyval) :
  k0 <> k -> dict_get (dict_set d k v) k0 = dict_get d k0.
Proof.
  intros Hne. induction d as [|[k' v'] d IH]; simpl.
  - destruct (pystr_eqb k k0) eqn:E; auto.
    apply pystr_eqb_eq in E. congruence.
  - destruct (pystr_eqb k' k) eqn:E; simpl.
    + apply pystr_eqb_eq in E. subst k'.
      destruct (pystr_eqb k k0) eqn:E0; auto.
      apply pystr_eqb_eq in E0. congruence.
    + destruct (pystr_eqb k' k0); auto.
Qed.

Lemma startswith_app (p a : pystr) : startswith p (p ++ a) = true.
Proof. induction p; simpl; auto. now rewrite N.eqb_refl. Qed.

Lemma startswith_contains (p a : pystr) :
  startswith p a = true -> contains p a = true.
Proof. destruct a; simpl; intros ->; reflexivity. Qed.

Lemma strip_prefix_app (p a r : pystr) :
  strip_prefix p a = Some r -> a = p ++ r.
Proof.
  revert a; induction p as [|x p IH]; intros [|y a]; simpl; try congruence.
  destruct (N.eqb_spec x y); try discriminate.
  intros H. subst y. f_equal. now apply IH.
Qed.

Lemma strip_prefix_here (p r : pystr) : strip_prefix p (p ++ r) = Some r.
Proof.
  induction p as [|x p IH]; simpl; [destruct r; reflexivity|].
  now rewrite N.eqb_refl.
Qed.

Lemma app_same_length {A} (a b x y : list A) :
  List.length a = List.length b -> a ++ x = b ++ y -> a = b /\ x = y.
Proof.
  revert b; induction a as [|h a IH]; intros [|h' b] Hl; simpl in *;
    try discriminate; auto.
  intros [= -> He]. destruct (IH b) as [-> ->]; auto.
Qed.

(** ** The URL pattern: the engine against the regular expression *)

Section UrlPattern.

Variable unicode_isalnum : char -> bool.
Variable unicode_isdecimal : char -> bool.

Local Notation host_char := (host_char unicode_isalnum).
Local Notation hex_char := (hex_char unicode_isdecimal).
Local Notation host_item := (host_item unicode_isalnum unicode_isdecimal).
Local Notation url_pattern := (url_pattern unicode_isalnum unicode_isdecimal).
Local Notation host_run := (host_run unicode_isalnum unicode_isdecimal).
Local Notation match_authority := (match_authority unicode_isalnum unicode_isdecimal).
Local Notation url_match_len := (url_match_len unicode_isalnum unicode_isdecimal).
Local Notation findall_from := (findall_from unicode_isalnum unicode_isdecimal).
Local Notation re_findall := (re_findall unicode_isalnum unicode_isdecimal).
Local Notation urls_present := (urls_present unicode_isalnum unicode_isdecimal).

Lemma percent_not_host_char : host_char 37%N = false.
Proof. reflexivity. Qed.

Lemma matches_nonempty r (s : pystr) :
  Matches r s -> forall r0, r = RPlus r0 ->
  (forall s0, Matches r0 s0 -> s0 <> []) -> s <> [].
Proof.
  induction 1; intros r0 E Hne; try discriminate; injection E as ->.
  - now apply Hne.
  - intros Happ. apply app_eq_nil in Happ. destruct Happ as [-> _].
    now apply (Hne [] H).
Qed.

Lemma host_item_inv (s : pystr) :
  Matches host_item s ->
  (exists c, s = [c] /\ host_char c = true) \/
  (exists h1 h2, s = [37%N; h1; h2] /\ hex_char h1 = true /\ hex_char h2 = true).
Proof.
  intros H. inversion H as [| | |? ? ? H1|? ? ? H1| | | |]; subst; clear H.
  - inversion H1; subst. left; eauto.
  - inversion H1 as [| |? ? ? ? Ha Hb| | | | | |]; subst; clear H1.
    inversion Ha; subst; clear Ha.
    inversion Hb as [| |? ? ? ? Hc Hd| | | | | |]; subst; clear Hb.
    inversion Hc; subst; inversion Hd; subst. right.
    do 2 eexists; repeat split; eassumption.
Qed.

Lemma host_item_intro_char c : host_char c = true -> Matches host_item [c].
Proof. intros H. apply MAltL. now constructor. Qed.

Lemma host_item_intro_escape h1 h2 :
  hex_char h1 = true -> hex_char h2 = true -> Matches host_item [37%N; h1; h2].
Proof.
  intros H1 H2. apply MAltR.
  change [37%N; h1; h2] with ([37%N] ++ [h1] ++ [h2]).
  repeat constructor; assumption.
Qed.

(** What the greedy repetition takes is in the text and matches [item+]. *)
Lemma host_run_sound (n : nat) :
  forall a, List.length a <= n ->
    host_run a <= List.length a /\
    (0 < host_run a -> Matches (RPlus host_item) (firstn (host_run a) a)).
Proof.
  induction n as [|n IH]; intros a Hlen.
  - destruct a; simpl in *; [split; lia | lia].
  - destruct a as [|c a']; [simpl; split; lia|].
    simpl in Hlen. simpl host_run.
    destruct (host_char c) eqn:Hc.
    + destruct (IH a') as [Hle Hm]; [lia|]. split; [simpl; lia|]. intros _.
      destruct (host_run a') as [|k] eqn:Hr.
      * simpl. apply MPlusOne. now apply host_item_intro_char.
      * apply (@MPlusMore host_item [c] (firstn (S k) a'));
          [now apply host_item_intro_char | apply Hm; lia].
    + destruct (c =? 37)%N eqn:Hp; [|simpl; split; lia].
      apply N.eqb_eq in Hp. subst c.
      destruct a' as [|h1 [|h2 a'']]; try (simpl; split; lia).
      destruct (hex_char h1 && hex_char h2) eqn:Hh; [|simpl; split; lia].
      apply andb_true_iff in Hh. destruct Hh as [Hh1 Hh2].
      simpl in Hlen.
      destruct (IH a'') as [Hle Hm]; [lia|]. split; [simpl; lia|]. intros _.
      destruct (host_run a'') as [|k] eqn:Hr.
      * simpl. apply MPlusOne. now apply host_item_intro_escape.
      * apply (@MPlusMore host_item [37%N; h1; h2] (firstn (S k) a''));
          [now apply host_item_intro_escape | apply Hm; lia].
Qed.

(** The greedy repetition takes at least every match of [item+] that
    starts where it starts. *)
Lemma host_run_greedy r (u : pystr) :
  Matches r u -> r = RPlus host_item ->
  forall post, 0 < List.length u /\ List.length u <= host_run (u ++ post).
Proof.
  induction 1 as [| | | | | | |r s Hs|r s1 s2 Hs1 _ _ IH2]; intros E post;
    try discriminate; injection E as ->.
  - destruct (host_item_inv Hs) as [(c & -> & Hc)|(h1 & h2 & -> & H1 & H2)]; simpl.
    + rewrite Hc. lia.
    + rewrite H1, H2. simpl. lia.
  - specialize (IH2 eq_refl post). rewrite length_app, <- app_assoc.
    destruct (host_item_inv Hs1) as [(c & -> & Hc)|(h1 & h2 & -> & H1 & H2)]; simpl.
    + rewrite Hc. lia.
    + rewrite H1, H2. simpl. lia.
Qed.

Lemma url_pattern_unfold :
  url_pattern =
  RSeq (RChar 104%N) (RSeq (RChar 116%N) (RSeq (RChar 116%N) (RSeq (RChar 112%N)
    (RSeq (ROpt (RChar 115%N))
       (RSeq (RChar 58%N) (RSeq (RChar 47%N) (RSeq (RChar 47%N)
          (RPlus host_item)))))))).
Proof. reflexivity. Qed.

Lemma lit_http : lit "http://" = [104; 116; 116; 112; 58; 47; 47]%N.
Proof. reflexivity. Qed.

Lemma lit_https : lit "https://" = [104; 116; 116; 112; 115; 58; 47; 47]%N.
Proof. reflexivity. Qed.

Ltac invert_match :=
  repeat match goal with
         | H : Matches (RSeq _ _) _ |- _ => inversion H; subst; clear H
         | H : Matches (RChar _) _ |- _ => inversion H; subst; clear H
         | H : Matches (ROpt _) _ |- _ => inversion H; subst; clear H
         end.

(** A match of the pattern is a scheme followed by a match of [item+]. *)
Lemma url_pattern_inv (u : pystr) :
  Matches url_pattern u ->
  exists h, Matches (RPlus host_item) h /\
            (u = lit "http://" ++ h \/ u = lit "https://" ++ h).
Proof.
  rewrite url_pattern_unfold, lit_http, lit_https. intros H.
  invert_match; eexists; (split; [eassumption|]); simpl; auto.
Qed.

Lemma url_pattern_http (h : pystr) :
  Matches (RPlus host_item) h -> Matches url_pattern (lit "http://" ++ h).
Proof.
  intros H. rewrite url_pattern_unfold, lit_http.
  change ([104; 116; 116; 112; 58; 47; 47]%N ++ h)
    with ([104%N] ++ [116%N] ++ [116%N] ++ [112%N] ++ [] ++ [58%N] ++ [47%N] ++ [47%N] ++ h).
  repeat (apply MSeq; [constructor|]). assumption.
Qed.

Lemma url_pattern_https (h : pystr) :
  Matches (RPlus host_item) h -> Matches url_pattern (lit "https://" ++ h).
Proof.
  intros H. rewrite url_pattern_unfold, lit_https.
  change ([104; 116; 116; 112; 115; 58; 47; 47]%N ++ h)
    with ([104%N] ++ [116%N] ++ [116%N] ++ [112%N] ++ [115%N] ++ [58%N] ++ [47%N] ++ [47%N] ++ h).
  do 4 (apply MSeq; [constructor|]).
  apply MSeq; [apply MOptSome; constructor|].
  repeat (apply MSeq; [constructor|]). assumption.
Qed.

Lemma match_authority_sound (a : pystr) (m : nat) :
  match_authority a = Some m ->
  exists r, a = lit "://" ++ r /\ m = 3 + host_run r /\ 0 < host_run r.
Proof.
  unfold match_authority. destruct (strip_prefix (lit "://") a) as [r|] eqn:E;
    [|discriminate].
  apply strip_prefix_app in E. destruct (host_run r) eqn:Hr; [discriminate|].
  intros [= <-]. exists r. rewrite Hr. repeat split; auto; lia.
Qed.

Lemma match_authority_here (r : pystr) :
  0 < host_run r -> match_authority (lit "://" ++ r) = Some (3 + host_run r).
Proof.
  intros H. unfold match_authority. rewrite strip_prefix_here.
  destruct (host_run r); [lia | reflexivity].
Qed.

(** [url_match_len] finds a match of the pattern, within the text. *)
Lemma url_match_sound (a : pystr) (n : nat) :
  url_match_len a = Some n ->
  0 < n /\ n <= List.length a /\ Matches url_pattern (firstn n a).
Proof.
  unfold url_match_len.
  destruct (strip_prefix (lit "http") a) as [r|] eqn:E; [|discriminate].
  apply strip_prefix_app in E. subst a.
  assert (Hauth : forall x m, match_authority x = Some m ->
            3 + 1 <= m /\ m <= List.length x /\
            exists h, firstn m x = lit "://" ++ h /\ Matches (RPlus host_item) h).
  { intros x m Hx. apply match_authority_sound in Hx.
    destruct Hx as (r0 & -> & -> & Hpos).
    destruct (host_run_sound (n:=List.length r0) r0 (le_n _)) as [Hle Hm].
    rewrite length_app. simpl List.length. repeat split; try lia.
    exists (firstn (host_run r0) r0). split; [reflexivity | auto]. }
  match goal with
  | |- match ?ws with Some _ => _ | None => _ end = _ -> _ => destruct ws as [k|] eqn:Hs
  end.
  - intros [= <-]. destruct r as [|c r']; [discriminate|].
    destruct (N.eqb_spec c 115); [subst c|discriminate].
    destruct (match_authority r') as [m|] eqn:Hm; [|discriminate].
    injection Hs as <-. destruct (Hauth _ _ Hm) as (H1 & H2 & h & Hf & Hh).
    simpl List.length. repeat split; try lia.
    match goal with
    | |- Matches _ ?x => change x with (lit "https" ++ firstn m r')
    end.
    rewrite Hf. now apply url_pattern_https.
  - destruct (match_authority r) as [m|] eqn:Hm; [|discriminate].
    intros [= <-]. destruct (Hauth _ _ Hm) as (H1 & H2 & h & Hf & Hh).
    rewrite length_app. simpl List.length. repeat split; try lia.
    match goal with
    | |- Matches _ ?x => change x with (lit "http" ++ firstn m r)
    end.
    rewrite Hf. now apply url_pattern_http.
Qed.

(** Where the pattern has a match, [url_match_len] finds one at least as
    long. *)
Lemma url_match_complete (u post : pystr) :
  Matches url_pattern u ->
  exists n, url_match_len (u ++ post) = Some n /\ List.length u <= n.
Proof.
  intros H. destruct (url_pattern_inv H) as (h & Hh & [-> | ->]);
    destruct (host_run_greedy Hh eq_refl post) as [Hpos Hle];
    rewrite <- app_assoc.
  - exists (4 + (3 + host_run (h ++ post))). split.
    + unfold url_match_len.
      change (lit "http://" ++ h ++ post) with (lit "http" ++ lit "://" ++ h ++ post).
      rewrite strip_prefix_here. simpl.
      change (58%N :: 47%N :: 47%N :: h ++ post) with (lit "://" ++ h ++ post).
      rewrite match_authority_here by lia. reflexivity.
    + rewrite length_app. simpl. lia.
  - exists (5 + (3 + host_run (h ++ post))). split.
    + unfold url_match_len.
      change (lit "https://" ++ h ++ post)
        with (lit "http" ++ 115%N :: lit "://" ++ h ++ post).
      rewrite strip_prefix_here. simpl.
      change (58%N :: 47%N :: 47%N :: h ++ post) with (lit "://" ++ h ++ post).
      rewrite match_authority_here by lia. reflexivity.
    + rewrite length_app. simpl. lia.
Qed.

(** ** [re.findall] against the URLs present *)

Lemma findall_from_skip (k : nat) :
  forall a, findall_from k a = findall_from 0 (skipn k a).
Proof.
  induction k as [|k IH]; intros a; [reflexivity|].
  destruct a as [|c a']; [reflexivity|]. simpl. apply IH.
Qed.

Lemma findall_step_none (c : char) (a : pystr) :
  url_match_len (c :: a) = None -> re_findall (c :: a) = re_findall a.
Proof. unfold re_findall. simpl. now intros ->. Qed.

Lemma findall_step_some (a : pystr) (n : nat) :
  url_match_len a = Some n ->
  re_findall a = firstn n a :: re_findall (skipn n a).
Proof.
  intros H. destruct (url_match_sound _ H) as (Hpos & _ & _).
  unfold re_findall. destruct a as [|c a'].
  - destruct n; [lia|]. discriminate H.
  - simpl findall_from at 1. rewrite H. f_equal.
    rewrite findall_from_skip. destruct n; [lia|].
    simpl. now rewrite Nat.sub_0_r.
Qed.

(** What [re.findall] returns is the URLs present. *)
Lemma findall_present (a : pystr) : urls_present a (re_findall a).
Proof.
  remember (List.length a) as len eqn:Hlen.
  revert a Hlen. induction len as [len IH] using lt_wf_ind. intros a Hlen.
  destruct a as [|c a'].
  - apply present_end.
  - destruct (url_match_len (c :: a')) as [n|] eqn:Hm.
    + rewrite (findall_step_some _ Hm).
      destruct (url_match_sound _ Hm) as (Hpos & Hle & Hmat).
      rewrite <- (firstn_skipn n (c :: a')) at 1.
      apply present_take; [assumption| |].
      * intros u' post' Hu' Heq. rewrite firstn_skipn in Heq.
        destruct (url_match_complete post' Hu') as (n' & Hn' & Hlen').
        rewrite <- Heq, Hm in Hn'. injection Hn' as <-.
        rewrite length_firstn. lia.
      * apply (IH (List.length (skipn n (c :: a')))); [|reflexivity].
        rewrite length_skipn. subst len. lia.
    + rewrite (findall_step_none _ _ Hm). apply present_pass.
      * intros u post Hu Heq.
        destruct (url_match_complete post Hu) as (n' & Hn' & _).
        rewrite <- Heq, Hm in Hn'. discriminate.
      * apply (IH (List.length a')); [subst len; simpl; lia | reflexivity].
Qed.

(** The URLs present are occurrences of the pattern in the text. *)
Lemma urls_present_occur (a : pystr) (us : list pystr) :
  urls_present a us ->
  Forall (fun u => Matches url_pattern u /\ exists pre post, a = pre ++ u ++ post) us.
Proof.
  induction 1 as [|c a us _ _ IH|u rest us Hu _ _ IH].
  - constructor.
  - eapply Forall_impl; [|exact IH]. intros u (Hu & pre & post & ->).
    split; [assumption|]. now exists (c :: pre), post.
  - constructor.
    + split; [assumption|]. now exists [], rest.
    + eapply Forall_impl; [|exact IH]. intros u0 (Hu0 & pre & post & ->).
      split; [assumption|]. exists (u ++ pre), post. now rewrite app_assoc.
Qed.

(** A text with an occurrence of the pattern has a URL present. *)
Lemma findall_nonempty (pre u post : pystr) :
  Matches url_pattern u -> re_findall (pre ++ u ++ post) <> [].
Proof.
  intros Hu. induction pre as [|c pre IH].
  - destruct (url_match_complete post Hu) as (n & Hn & _).
    simpl. rewrite (findall_step_some _ Hn). discriminate.
  - simpl. destruct (url_match_len (c :: pre ++ u ++ post)) as [n|] eqn:Hm.
    + rewrite (findall_step_some _ Hm). discriminate.
    + now rewrite (findall_step_none _ _ Hm).
Qed.

Lemma url_pattern_nonempty (u : pystr) : Matches url_pattern u -> u <> [].
Proof.
  intros Hu ->. destruct (url_match_complete [] Hu) as (n & Hn & _).
  discriminate Hn.
Qed.

(** The URLs present are determined by the text. *)
Lemma urls_present_unique (a : pystr) (us : list pystr) :
  urls_present a us -> forall vs, urls_present a vs -> us = vs.
Proof.
  induction 1 as [|c a us Hno _ IH|u rest us Hu Hmax _ IH]; intros vs Hvs.
  - remember [] as e eqn:He in Hvs.
    destruct Hvs as [|c2 a2 vs2 _ _|u2 rest2 vs2 Hu2 _ _];
      [reflexivity | discriminate He |].
    apply app_eq_nil in He. destruct He as [-> _].
    now destruct (url_pattern_nonempty Hu2).
  - remember (c :: a) as e eqn:He in Hvs.
    destruct Hvs as [|c2 a2 vs2 _ Hrest2|u2 rest2 vs2 Hu2 _ _];
      [discriminate He | |].
    + injection He as -> ->. now apply IH.
    + exfalso. eapply Hno; [exact Hu2 | symmetry; exact He].
  - remember (u ++ rest) as e eqn:He in Hvs.
    destruct Hvs as [|c2 a2 vs2 Hno2 _|u2 rest2 vs2 Hu2 Hmax2 Hrest2].
    + symmetry in He. apply app_eq_nil in He. destruct He as [-> _].
      now destruct (url_pattern_nonempty Hu).
    + exfalso. eapply Hno2; [exact Hu | exact He].
    + assert (Hl : List.length u2 = List.length u).
      { apply Nat.le_antisymm; [eapply Hmax | eapply Hmax2]; eauto. }
      apply app_same_length in He; [|exact Hl]. destruct He as [-> ->].
      f_equal. now apply IH.
Qed.

End UrlPattern.

(** ** Worlds *)

Lemma after_calls_nil (w : world) : after_calls w [] = w.
Proof. destruct w. unfold after_calls, with_calls. simpl. now rewrite app_nil_r. Qed.

Lemma after_calls_more (w : world) (a b : list call) :
  after_calls (after_calls w a) b = after_calls w (a ++ b).
Proof. unfold after_calls, with_calls. simpl. now rewrite app_assoc. Qed.

Lemma router_invokes_app (a b : list call) :
  router_invokes (a ++ b) = router_invokes a + router_invokes b.
Proof.
  induction a as [|c a IH]; [reflexivity|].
  destruct c; simpl; rewrite IH; reflexivity.
Qed.

(** ** Computations that come to an end *)

Section Frames.

Variable R : world -> world -> Prop.
Hypothesis R_refl : forall w, R w w.
Hypothesis R_trans : forall a b c, R a b -> R b c -> R a c.
Hypothesis R_calls : forall w c, R w (after_calls w c).
Hypothesis R_screen : forall w u, R w (with_screen w u).

Lemma returns_settles {A} (m : M A) : returns R m -> settles R m.
Proof.
  intros H w. destruct (H w) as (a & w' & E & HR).
  exists (Return a), w'. repeat split; [assumption | discriminate | assumption].
Qed.

Lemma returns_ret {A} (a : A) : returns R (ret a).
Proof. intros w. exists a, w. split; [reflexivity | apply R_refl]. Qed.

Lemma settles_raise {A} (e : exn) : settles R (@raise A e).
Proof.
  intros w. exists (Raise e), w. repeat split; [discriminate | apply R_refl].
Qed.

Lemma returns_bind {A B} (m : M A) (k : A -> M B) :
  returns R m -> (forall a, returns R (k a)) -> returns R (bind m k).
Proof.
  intros Hm Hk w. destruct (Hm w) as (a & w1 & E1 & R1).
  destruct (Hk a w1) as (b & w2 & E2 & R2).
  exists b, w2. unfold bind. rewrite E1, E2. split; [reflexivity | eauto].
Qed.

Lemma settles_bind {A B} (m : M A) (k : A -> M B) :
  settles R m -> (forall a, settles R (k a)) -> settles R (bind m k).
Proof.
  intros Hm Hk w. destruct (Hm w) as (o & w1 & E1 & N1 & R1).
  unfold bind. rewrite E1. destruct o as [a|e|]; [| |now destruct N1].
  - destruct (Hk a w1) as (o2 & w2 & E2 & N2 & R2).
    exists o2, w2. rewrite E2. eauto.
  - exists (Raise e), w1. repeat split; [discriminate | assumption].
Qed.

Lemma returns_try {A} (m : M A) (h : exn -> M A) :
  settles R m -> (forall e, returns R (h e)) -> returns R (try_except m h).
Proof.
  intros Hm Hh w. destruct (Hm w) as (o & w1 & E1 & N1 & R1).
  unfold try_except. rewrite E1. destruct o as [a|e|]; [| |now destruct N1].
  - exists a, w1. eauto.
  - destruct (Hh e w1) as (a & w2 & E2 & R2). exists a, w2. eauto.
Qed.

Lemma settles_external {A} (c : call) (f : world -> reply A) :
  settles R (external c f).
Proof.
  intros w. unfold external. do 2 eexists. split; [reflexivity|].
  split; [destruct (f w); discriminate | apply R_calls].
Qed.

Lemma returns_external {A} (c : call) (f : world -> A) :
  returns R (external c (fun w => Answer (f w))).
Proof.
  intros w. unfold external. do 2 eexists. split; [reflexivity | apply R_calls].
Qed.

Lemma returns_show (e : ui_event) : returns R (show e).
Proof.
  intros w. unfold show, modify. do 2 eexists. split; [reflexivity | apply R_screen].
Qed.

Lemma returns_get_world : returns R get_world.
Proof. intros w. exists w, w. split; [reflexivity | apply R_refl]. Qed.

Lemma returns_keeps {A} (m : M A) : returns R m -> keeps R m.
Proof. intros H w. destruct (H w) as (a & w' & E & HR). now rewrite E. Qed.

Lemma keeps_ret {A} (a : A) : keeps R (ret a).
Proof. intros w. apply R_refl. Qed.

Lemma keeps_raise {A} (e : exn) : keeps R (@raise A e).
Proof. intros w. apply R_refl. Qed.

Lemma keeps_rerun {A} : keeps R (@st_rerun A).
Proof. intros w. apply R_refl. Qed.

Lemma keeps_bind {A B} (m : M A) (k : A -> M B) :
  keeps R m -> (forall a, keeps R (k a)) -> keeps R (bind m k).
Proof.
  intros Hm Hk w. unfold bind. specialize (Hm w).
  destruct (m w) as [[a|e|] w1]; simpl in *; [|assumption|assumption].
  eapply R_trans; [exact Hm | apply Hk].
Qed.

Lemma keeps_try {A} (m : M A) (h : exn -> M A) :
  keeps R m -> (forall e, keeps R (h e)) -> keeps R (try_except m h).
Proof.
  intros Hm Hh w. unfold try_except. specialize (Hm w).
  destruct (m w) as [[a|e|] w1]; simpl in *; [assumption| |assumption].
  eapply R_trans; [exact Hm | apply Hh].
Qed.

Lemma keeps_external {A} (c : call) (f : world -> reply A) : keeps R (external c f).
Proof. intros w. apply R_calls. Qed.

Lemma keeps_unrecorded {A} (f : world -> reply A) : keeps R (unrecorded f).
Proof. intros w. apply R_refl. Qed.

Lemma keeps_show (e : ui_event) : keeps R (show e).
Proof. intros w. apply R_screen. Qed.

Lemma keeps_get_world : keeps R get_world.
Proof. intros w. apply R_refl. Qed.

Lemma keeps_dict_item (d : pydict) (k : pystr) : keeps R (dict_item d k).
Proof. intros w. unfold dict_item. destruct (dict_get d k); apply R_refl. Qed.

End Frames.

Lemma keeps_run {A} (R : world -> world -> Prop) (m : M A) (w w' : world)
      (o : outcome A) :
  keeps R m -> m w = (o, w') -> R w w'.
Proof. intros H E. specialize (H w). now rewrite E in H. Qed.

Arguments keeps_run {A} [R m w w' o] _ _.

Lemma keeps_weaken {A} (R S : world -> world -> Prop) (m : M A) :
  (forall w w', R w w' -> S w w') -> keeps R m -> keeps S m.
Proof. intros HRS Hm w. apply HRS, Hm. Qed.

Lemma quiet_refl (w : world) : quiet w w.
Proof. unfold quiet; intuition. Qed.

Lemma quiet_trans (a b c : world) : quiet a b -> quiet b c -> quiet a c.
Proof. unfold quiet; intuition congruence. Qed.

Lemma quiet_calls (w : world) (c : list call) : quiet w (after_calls w c).
Proof. unfold quiet; simpl; intuition. Qed.

Lemma quiet_screen (w : world) (u : list ui_event) : quiet w (with_screen w u).
Proof. unfold quiet; simpl; intuition. Qed.

Lemma same_session_refl (w : world) : same_session w w.
Proof. unfold same_session; intuition. Qed.

Lemma same_session_trans (a b c : world) :
  same_session a b -> same_session b c -> same_session a c.
Proof. unfold same_session; intuition congruence. Qed.

Lemma same_session_calls (w : world) (c : list call) : same_session w (after_calls w c).
Proof. unfold same_session; simpl; intuition. Qed.

Lemma same_session_screen (w : world) (u : list ui_event) :
  same_session w (with_screen w u).
Proof. unfold same_session; simpl; intuition. Qed.

Lemma quiet_same_session (w w' : world) : quiet w w' -> same_session w w'.
Proof. unfold quiet, same_session; intuition. Qed.

Lemma same_table_refl (w : world) : same_table w w.
Proof. unfold same_table; intuition. Qed.

Lemma same_table_trans (a b c : world) :
  same_table a b -> same_table b c -> same_table a c.
Proof. unfold same_table; intuition congruence. Qed.

Lemma same_table_calls (w : world) (c : list call) : same_table w (after_calls w c).
Proof. unfold same_table; simpl; intuition. Qed.

Lemma same_table_screen (w : world) (u : list ui_event) : same_table w (with_screen w u).
Proof. unfold same_table; simpl; intuition. Qed.

Lemma same_session_table (w w' : world) : same_session w w' -> same_table w w'.
Proof. unfold same_session, same_table; intuition. Qed.

Create HintDb frames.
#[export] Hint Resolve quiet_refl quiet_trans quiet_calls quiet_screen
  same_session_refl same_session_trans same_session_calls same_session_screen
  : frames.

(** ** The strategy router *)

Lemma eq_str_true (v : pyval) (s : pystr) : eq_str v s = true -> v = PStr s.
Proof.
  destruct v; simpl; try discriminate. intros H. apply pystr_eqb_eq in H. now subst.
Qed.

Lemma in_str_list_values (v : pyval) :
  in_str_list v strategy_values = true -> exists s, v = PStr (value s).
Proof.
  unfold in_str_list, strategy_values. simpl. rewrite !orb_true_iff.
  intros [H|[H|[H|[H|H]]]]; try discriminate H; apply eq_str_true in H;
    [exists DIRECT_LLM | exists VECTOR_BASED | exists WEB_SEARCH | exists HYBRID];
    exact H.
Qed.

(** A validated decision carries a member's value as its strategy. *)
Lemma validate_strategy_member (d : pydict) :
  exists s, dict_get (validate_strategy d) (lit "strategy") = Some (PStr (value s)).
Proof.
  unfold validate_strategy.
  destruct (in_str_list _ strategy_values) eqn:E; simpl.
  - apply in_str_list_values in E. destruct E as [s E]. exists s.
    unfold dict_get_default in E. destruct (dict_get d (lit "strategy")); congruence.
  - exists VECTOR_BASED. apply dict_get_set_same.
Qed.

Section RouterProperties.

Variable unicode_isalnum : char -> bool.
Variable unicode_isdecimal : char -> bool.
Variable svc : services.

Local Notation re_findall := (re_findall unicode_isalnum unicode_isdecimal).
Local Notation url_pattern := (url_pattern unicode_isalnum unicode_isdecimal).
Local Notation urls_present := (urls_present unicode_isalnum unicode_isdecimal).
Local Notation get_retriever_decision :=
  (get_retriever_decision unicode_isalnum unicode_isdecimal svc).
Local Notation retry_loop := (retry_loop svc).

(** A pass that gets a [dict] returns it, validated. *)
Lemma retry_loop_returns q x rest last w d :
  router_invoke svc w q = Answer (PDict d) ->
  retry_loop q (x :: rest) last w
  = (Return (inl (validate_strategy d)), after_calls w [CallRouterInvoke q]).
Proof.
  intros H. simpl. unfold try_except, bind, external. rewrite H. reflexivity.
Qed.

(** A pass that fails hands its error to the next one. *)
Lemma retry_loop_retries q x rest last w e :
  attempt_error (router_invoke svc w q) = Some e ->
  retry_loop q (x :: rest) last w
  = retry_loop q rest (Some e) (after_calls w [CallRouterInvoke q]).
Proof.
  intros H. simpl. unfold try_except, bind, external.
  destruct (router_invoke svc w q) as [v|e0]; simpl in *.
  - destruct v; try discriminate H; injection H as <-; reflexivity.
  - injection H as <-. reflexivity.
Qed.

Lemma attempt_error_cases (r : reply pyval) :
  (exists d, r = Answer (PDict d)) \/ (exists e, attempt_error r = Some e).
Proof.
  destruct r as [v|e]; [destruct v|]; simpl; eauto.
Qed.

(** The loop always comes to an end, after one call per pass at most;
    what it returns is validated, and it runs out with an error in hand. *)
Lemma retry_loop_total q attempts :
  forall last w,
  exists r extra,
    retry_loop q attempts last w = (Return r, after_calls w extra) /\
    router_invokes extra <= List.length attempts /\
    match r with
    | inl d => exists s, dict_get d (lit "strategy") = Some (PStr (value s))
    | inr e => attempts = [] /\ e = last \/ exists e', e = Some e'
    end.
Proof.
  induction attempts as [|x rest IH]; intros last w.
  - exists (inr last), []. rewrite after_calls_nil. simpl. auto.
  - destruct (attempt_error_cases (router_invoke svc w q)) as [[d Hd]|[e He]].
    + exists (inl (validate_strategy d)), [CallRouterInvoke q].
      rewrite (retry_loop_returns _ _ _ _ _ Hd). simpl.
      repeat split; [lia | apply validate_strategy_member].
    + rewrite (retry_loop_retries _ _ _ _ _ He).
      destruct (IH (Some e) (after_calls w [CallRouterInvoke q]))
        as (r & extra & Hr & Hn & Hshape).
      exists r, (CallRouterInvoke q :: extra).
      rewrite Hr, after_calls_more. simpl. repeat split; [lia|].
      destruct r as [d|e0]; [exact Hshape|].
      right. destruct Hshape as [[_ ->]|[e' ->]]; eauto.
Qed.

(** The router when the query holds no URL and a key is there. *)
Lemma router_classifies q api_key model_name w :
  re_findall q = [] -> truthy api_key = true ->
  get_retriever_decision q api_key model_name w =
  match router_setup svc w api_key model_name with
  | Failure e =>
      (Return [(lit "strategy", PStr (value DIRECT_LLM));
               (lit "reasoning",
                PStr (lit "Agent initialization failed: " ++ exn_str e));
               (lit "refined_query", PStr q)],
       after_calls w [CallRouterSetup])
  | Answer _ =>
      match retry_loop q (seq 0 max_retries) None (after_calls w [CallRouterSetup]) with
      | (Return (inl d), w') => (Return d, w')
      | (Return (inr last_error), w') =>
          (Return [(lit "strategy", PStr (value DIRECT_LLM));
                   (lit "reasoning",
                    PStr (lit "Agent decision failed after 3 attempts: "
                          ++ str_of_error last_error));
                   (lit "refined_query", PStr q)], w')
      | (Raise e, w') =>
          (Return [(lit "strategy", PStr (value DIRECT_LLM));
                   (lit "reasoning",
                    PStr (lit "Agent initialization failed: " ++ exn_str e));
                   (lit "refined_query", PStr q)], w')
      | (Stop, w') => (Stop, w')
      end
  end.
Proof.
  intros Hurls Hkey. unfold get_retriever_decision.
  rewrite Hurls, Hkey.
  cbv beta iota delta [truthy map negb try_except bind external].
  destruct (router_setup svc w api_key model_name) as [[]|e]; [|reflexivity].
  cbv beta iota delta [outcome_of_reply].
  destruct (retry_loop q (seq 0 max_retries) None (after_calls w [CallRouterSetup]))
    as [[[d|last]|e|] w']; reflexivity.
Qed.

(** The router always returns: a decision with a member's value as its
    strategy, after the set-up and three calls of the chain at most. *)
Lemma router_returns (q : pystr) (api_key model_name : pyval) (w : world) :
  exists d extra s,
    get_retriever_decision q api_key model_name w = (Return d, after_calls w extra) /\
    router_invokes extra <= max_retries /\
    dict_get d (lit "strategy") = Some (PStr (value s)).
Proof.
  destruct (re_findall q) as [|u us] eqn:Hurls.
  - destruct (truthy api_key) eqn:Hkey.
    + rewrite (@router_classifies q api_key model_name w Hurls Hkey).
      destruct (router_setup svc w api_key model_name) as [[]|e].
      * destruct (retry_loop_total q (seq 0 max_retries) None
                    (after_calls w [CallRouterSetup]))
          as (r & extra & -> & Hn & Hshape).
        rewrite after_calls_more, length_seq in *.
        destruct r as [d|last].
        -- destruct Hshape as [s Hs]. exists d, ([CallRouterSetup] ++ extra), s. auto.
        -- eexists. exists ([CallRouterSetup] ++ extra), DIRECT_LLM.
           split; [reflexivity|]. split; [exact Hn | reflexivity].
      * eexists. exists [CallRouterSetup], DIRECT_LLM.
        split; [reflexivity|]. split; [simpl; unfold max_retries; lia | reflexivity].
    + unfold get_retriever_decision. rewrite Hurls, Hkey.
      eexists. exists [], VECTOR_BASED. rewrite after_calls_nil.
      split; [reflexivity|]. split; [simpl; lia | reflexivity].
  - unfold get_retriever_decision. rewrite Hurls.
    eexists. exists [], WEB_SEARCH. rewrite after_calls_nil.
    split; [reflexivity|]. split; [simpl; lia | reflexivity].
Qed.

(** The override: a query in which the URL pattern occurs is sent to web
    search, whatever the key and the classification service: the decision
    has strategy [WEB_SEARCH], the refined query is the query, and [urls]
    is the list of the matches of the pattern, which is not empty; the
    world is left as it was, so no service has been called. *)
Theorem url_override (q : pystr) (api_key model_name : pyval) (w : world) :
  (exists pre u post, q = pre ++ u ++ post /\ Matches url_pattern u) ->
  exists urls,
    urls <> [] /\
    urls_present q urls /\
    get_retriever_decision q api_key model_name w =
    (Return [(lit "strategy", PStr (value WEB_SEARCH));
             (lit "reasoning",
              PStr (lit "User query contains specific URLs: " ++ repr_url_list urls
                    ++ lit ". Switching to Web Search."));
             (lit "refined_query", PStr q);
             (lit "urls", PList (map PStr urls))],
     w).
Proof.
  intros (pre & u & post & -> & Hu).
  exists (re_findall (pre ++ u ++ post)).
  pose proof (findall_nonempty pre post Hu) as Hne.
  split; [exact Hne|]. split; [apply findall_present|].
  unfold get_retriever_decision.
  destruct (re_findall (pre ++ u ++ post)) as [|u0 us]; [now destruct Hne|].
  reflexivity.
Qed.

(** C2, at the query of the scenario of the spec, whatever the key, the
    model, the services and the world: the router does return
    [WEB_SEARCH] with the query as refined query and calls no service,
    but the pattern stops at the first slash after the host: the list of
    URLs it returns, and names in the reasoning, holds
    [https://example.com] and not the URL that is in the query, the one
    the scenario requires. *)
Theorem url_override_drops_path (api_key model_name : pyval) (w : world) :
  get_retriever_decision report_query api_key model_name w =
  (Return [(lit "strategy", PStr (lit "Web Search"));
           (lit "reasoning",
            PStr (lit "User query contains specific URLs: ['https://example.com']. Switching to Web Search."));
           (lit "refined_query", PStr report_query);
           (lit "urls", PList [PStr (lit "https://example.com")])],
   w) /\
  [lit "https://example.com"] <> scenario_urls.
Proof. split; [reflexivity | discriminate]. Qed.

(** C3: whatever the query and whatever the classification service
    answers, the router returns a decision whose strategy is the value of
    one of the four members; and an answer whose strategy is not one of
    them comes back with [VECTOR_BASED] in its place. *)
Theorem router_strategy_enumerated (q : pystr) (api_key model_name : pyval) (w : world) :
  (exists d w' s,
      get_retriever_decision q api_key model_name w = (Return d, w') /\
      dict_get d (lit "strategy") = Some (PStr (value s))) /\
  (forall d0,
      re_findall q = [] -> truthy api_key = true ->
      router_setup svc w api_key model_name = Answer tt ->
      router_invoke svc (after_calls w [CallRouterSetup]) q = Answer (PDict d0) ->
      in_str_list (dict_get_default d0 (lit "strategy") PNone) strategy_values = false ->
      get_retriever_decision q api_key model_name w =
      (Return (dict_set d0 (lit "strategy") (PStr (value VECTOR_BASED))),
       after_calls w [CallRouterSetup; CallRouterInvoke q])).
Proof.
  split.
  - destruct (router_returns q api_key model_name w) as (d & extra & s & E & _ & Hs).
    eauto.
  - intros d0 Hurls Hkey Hsetup Hinvoke Hunknown.
    rewrite (@router_classifies q api_key model_name w Hurls Hkey), Hsetup.
    unfold max_retries. simpl seq.
    rewrite (retry_loop_returns _ _ _ _ _ Hinvoke), after_calls_more.
    unfold validate_strategy. rewrite Hunknown. reflexivity.
Qed.

(** C4: the router always returns, after three calls of the
    classification chain at most; when the set-up fails, and when three
    attempts in a row fail, what it returns is the fall-back decision with
    strategy [DIRECT_LLM], whose reasoning quotes the error: the one of
    the set-up, or the last of the three. *)
Theorem router_never_raises (q : pystr) (api_key model_name : pyval) (w : world) :
  (exists d extra,
      get_retriever_decision q api_key model_name w = (Return d, after_calls w extra) /\
      router_invokes extra <= max_retries) /\
  (forall e,
      re_findall q = [] -> truthy api_key = true ->
      router_setup svc w api_key model_name = Failure e ->
      get_retriever_decision q api_key model_name w =
      (Return [(lit "strategy", PStr (value DIRECT_LLM));
               (lit "reasoning",
                PStr (lit "Agent initialization failed: " ++ exn_str e));
               (lit "refined_query", PStr q)],
       after_calls w [CallRouterSetup])) /\
  (forall e1 e2 e3,
      re_findall q = [] -> truthy api_key = true ->
      router_setup svc w api_key model_name = Answer tt ->
      attempt_error (router_invoke svc (after_calls w [CallRouterSetup]) q) = Some e1 ->
      attempt_error
        (router_invoke svc (after_calls w [CallRouterSetup; CallRouterInvoke q]) q)
      = Some e2 ->
      attempt_error
        (router_invoke svc
           (after_calls w [CallRouterSetup; CallRouterInvoke q; CallRouterInvoke q]) q)
      = Some e3 ->
      get_retriever_decision q api_key model_name w =
      (Return [(lit "strategy", PStr (value DIRECT_LLM));
               (lit "reasoning",
                PStr (lit "Agent decision failed after 3 attempts: " ++ exn_str e3));
               (lit "refined_query", PStr q)],
       after_calls w [CallRouterSetup; CallRouterInvoke q; CallRouterInvoke q;
                      CallRouterInvoke q])).
Proof.
  split; [|split].
  - destruct (router_returns q api_key model_name w) as (d & extra & s & E & Hn & _).
    eauto.
  - intros e Hurls Hkey Hsetup.
    now rewrite (@router_classifies q api_key model_name w Hurls Hkey), Hsetup.
  - intros e1 e2 e3 Hurls Hkey Hsetup H1 H2 H3.
    rewrite (@router_classifies q api_key model_name w Hurls Hkey), Hsetup.
    unfold max_retries. simpl seq.
    rewrite (retry_loop_retries _ _ _ _ _ H1), after_calls_more. simpl app.
    rewrite (retry_loop_retries _ _ _ _ _ H2), after_calls_more. simpl app.
    rewrite (retry_loop_retries _ _ _ _ _ H3), after_calls_more. simpl app.
    reflexivity.
Qed.

Lemma router_quiet (q : pystr) (api_key model_name : pyval) :
  returns quiet (get_retriever_decision q api_key model_name).
Proof.
  intros w. destruct (router_returns q api_key model_name w) as (d & extra & s & E & _).
  exists d, (after_calls w extra). auto with frames.
Qed.

End RouterProperties.

(** ** The relevance grader *)

Section GraderProperties.

Variable svc : services.

Local Notation grade_documents := (grade_documents svc).

(** C6: grading no document at all gives "no", and the world is left as
    it was: no service is called, nothing is printed. *)
Theorem grade_nothing (q : pystr) (api_key model_name : pyval) (w : world) :
  grade_documents q [] api_key model_name w = (Return (PStr (lit "no")), w).
Proof. reflexivity. Qed.

(** C5: with a document to grade, a failure of the grading service, be
    it when the chain is set up or when it is invoked, makes the grader
    return "yes"; the failure is printed, not raised. *)
Theorem grade_fails_open (q : pystr) (top : Document) (rest : list Document)
        (api_key model_name : pyval) (w : world) (e : exn) :
  grader_setup svc w api_key model_name = Failure e \/
  (grader_setup svc w api_key model_name = Answer tt /\
   grader_invoke svc (after_calls w [CallGraderSetup]) (page_content top) q = Failure e) ->
  exists extra,
    grade_documents q (top :: rest) api_key model_name w =
    (Return (PStr (lit "yes")),
     with_screen (after_calls w extra)
                 (screen w ++ [UiPrint (lit "Grading failed: " ++ exn_str e)])).
Proof.
  intros [Hsetup|[Hsetup Hinvoke]];
    unfold grade_documents, try_except, bind, external; rewrite Hsetup; simpl.
  - exists [CallGraderSetup]. reflexivity.
  - rewrite Hinvoke. simpl. exists [CallGraderSetup; CallGraderInvoke (page_content top) q].
    unfold show, modify, after_calls, with_calls, with_screen. simpl.
    now rewrite <- app_assoc.
Qed.


(** An answer that is not a JSON object has no [get]: the
    [AttributeError] is caught like any failure, and the grade is "yes". *)
Lemma grade_not_an_object (q : pystr) (top : Document) (rest : list Document)
      (api_key model_name : pyval) (w : world) (v : pyval) :
  grader_setup svc w api_key model_name = Answer tt ->
  grader_invoke svc (after_calls w [CallGraderSetup]) (page_content top) q = Answer v ->
  (forall d, v <> PDict d) ->
  exists w', grade_documents q (top :: rest) api_key model_name w =
             (Return (PStr (lit "yes")), w').
Proof.
  intros Hsetup Hinvoke Hv.
  unfold grade_documents, try_except, bind, external. rewrite Hsetup. simpl.
  rewrite Hinvoke. simpl.
  destruct v; simpl; try (eexists; reflexivity). now destruct (Hv d).
Qed.

(** The grader always returns, and touches nothing but the log of calls
    and the console. *)
Lemma grade_documents_quiet (q : pystr) (docs : list Document)
      (api_key model_name : pyval) :
  returns quiet (grade_documents q docs api_key model_name).
Proof.
  destruct docs as [|top rest]; [apply returns_ret; auto with frames|].
  apply returns_try; eauto with frames.
  - apply settles_bind; eauto with frames.
    + apply settles_external; auto with frames.
    + intros _. apply settles_bind; eauto with frames.
      * apply settles_external; auto with frames.
      * intros v. destruct v; simpl;
          solve [apply settles_raise; auto with frames
                | apply returns_settles, returns_ret; auto with frames].
  - intros e. apply returns_bind; eauto with frames.
    + apply returns_show; auto with frames.
    + intros _. apply returns_ret; auto with frames.
Qed.

End GraderProperties.

(** ** The interaction store *)

Section StoreProperties.

Variable svc : services.
Variable ties : Z -> Z -> bool.

Local Notation load_chat_history_from_db := (load_chat_history_from_db svc ties).
Local Notation row_messages := (row_messages svc).
Local Notation select_session := (select_session ties).
Local Notation order_by_timestamp_desc := (order_by_timestamp_desc ties).
Local Notation insert_desc := (insert_desc ties).
Local Notation newer_first := (newer_first ties).

Lemma set_rating_same (r : Z) (x : row) : same_but_rating x (set_rating r x).
Proof. unfold same_but_rating; simpl; intuition. Qed.

Lemma same_but_rating_refl (x : row) : same_but_rating x x.
Proof. unfold same_but_rating; intuition. Qed.

Lemma same_but_rating_messages (a b : row) :
  same_but_rating a b -> row_messages b = row_messages a.
Proof.
  intros (Hid & _ & _ & Hp & _ & Hr & Hs & Hss). unfold row_messages.
  now rewrite Hid, Hp, Hr, Hs, Hss.
Qed.

Section RatingUpdate.

Variable f : row -> row.
Hypothesis f_same : forall x, same_but_rating x (f x).

Lemma newer_first_map (x y : row) : newer_first (f x) (f y) = newer_first x y.
Proof.
  unfold newer_first.
  destruct (f_same x) as (-> & _ & -> & _). destruct (f_same y) as (-> & _ & -> & _).
  reflexivity.
Qed.

Lemma insert_desc_map (x : row) (l : list row) :
  insert_desc (f x) (map f l) = map f (insert_desc x l).
Proof.
  induction l as [|y l IH]; [reflexivity|]. cbn [map insert_desc].
  rewrite newer_first_map.
  destruct (newer_first x y); cbn [map]; [reflexivity|].
  now rewrite IH.
Qed.

Lemma order_by_map (l : list row) :
  order_by_timestamp_desc (map f l) = map f (order_by_timestamp_desc l).
Proof.
  induction l as [|x l IH]; [reflexivity|].
  unfold order_by_timestamp_desc in *. simpl. now rewrite IH, insert_desc_map.
Qed.

Lemma sql_limit_map (limit : Z) (l : list row) :
  sql_limit limit (map f l) = map f (sql_limit limit l).
Proof.
  unfold sql_limit. destruct (Z.ltb limit 0); [reflexivity|]. apply firstn_map.
Qed.

Lemma filter_session_map (session : pystr) (l : list row) :
  filter (fun r => match session_id r with
                   | Some s => pystr_eqb s session
                   | None => false
                   end) (map f l)
  = map f (filter (fun r => match session_id r with
                            | Some s => pystr_eqb s session
                            | None => false
                            end) l).
Proof.
  induction l as [|x l IH]; [reflexivity|]. simpl.
  destruct (f_same x) as (_ & -> & _).
  destruct (session_id x) as [s|]; [|exact IH].
  destruct (pystr_eqb s session); simpl; now rewrite IH.
Qed.

(** The rows selected for a session follow the update. *)
Lemma select_session_map (session : pystr) (limit : Z) (t : list row) :
  select_session session limit (map f t) = map f (select_session session limit t).
Proof.
  unfold select_session.
  now rewrite filter_session_map, order_by_map, sql_limit_map.
Qed.

Lemma flat_map_messages_map (l : list row) :
  flat_map row_messages (map f l) = flat_map row_messages l.
Proof.
  induction l as [|x l IH]; [reflexivity|].
  cbn [map flat_map]. now rewrite IH, (same_but_rating_messages (f_same x)).
Qed.

End RatingUpdate.

Lemma update_rows_same (i r : Z) (x : row) :
  same_but_rating x (if Z.eqb (id x) i then set_rating r x else x).
Proof.
  destruct (Z.eqb (id x) i); [apply set_rating_same | apply same_but_rating_refl].
Qed.

(** C9, as the code has it.  For an id and a rating that are SQLite
    integers, updating a rating leaves the table with the same rows in
    the same order, each the same in every field but the rating; the
    rating is the new one in the rows of that id and the old one
    elsewhere; nothing else in the world changes.  The rows selected for
    a session, whichever way the engine orders rows of equal timestamp,
    are the rows selected before with the update made on them, and the
    messages listed for the session, which do not carry the rating, are
    the same before and after.  For an id or a rating that is no SQLite
    integer the update raises [OverflowError] and nothing changes. *)
Theorem rating_update_frame (i r : Z) (session : pystr) (limit : Z) (w : world) :
  (sqlite_integer i = true -> sqlite_integer r = true ->
   exists w',
     update_interaction_rating i r w = (Return tt, w') /\
     Forall2 (fun old new =>
                same_but_rating old new /\
                rating new = (if Z.eqb (id old) i then r else rating old))
             (interactions w) (interactions w') /\
     w' = with_interactions w (interactions w') (last_rowid w) /\
     select_session session limit (interactions w')
     = update_rows i r (select_session session limit (interactions w)) /\
     fst (load_chat_history_from_db session limit w')
     = fst (load_chat_history_from_db session limit w)) /\
  (sqlite_integer i = false \/ sqlite_integer r = false ->
   update_interaction_rating i r w = (Raise overflow_error, w)).
Proof.
  unfold update_interaction_rating. split.
  - intros -> ->. eexists. split; [reflexivity|]. simpl.
    split; [|split; [reflexivity|split]].
    + induction (interactions w) as [|x t IH]; simpl; constructor; [|exact IH].
      split; [apply update_rows_same|].
      destruct (Z.eqb (id x) i); reflexivity.
    + unfold update_rows. apply select_session_map. intros x. apply update_rows_same.
    + unfold load_chat_history_from_db, bind, get_world, ret. simpl. f_equal.
      unfold update_rows. rewrite select_session_map by (intros x; apply update_rows_same).
      rewrite <- map_rev. apply flat_map_messages_map. intros x. apply update_rows_same.
  - intros [-> | ->]; [rewrite andb_false_r | rewrite andb_false_l]; reflexivity.
Qed.

End StoreProperties.

(** C9, as it is stated, fails: after the rating of interaction 7 is set
    to 1, the listing of its session has the two messages of that
    interaction, and neither carries the rating. *)
Lemma rating_not_listed :
  exists messages,
    fst ((update_interaction_rating 7 1 ;;
          load_chat_history_from_db demo_services table_order (lit "s1") 50) demo_world)
    = Return messages /\
    List.length messages = 2 /\
    ~ listing_shows_rating messages 7 1.
Proof.
  eexists. split; [reflexivity|]. split; [reflexivity|].
  intros (m & Hin & _ & Hr). simpl in Hin.
  destruct Hin as [<-|[<-|[]]]; vm_compute in Hr; discriminate Hr.
Qed.

(** ** The orchestrator *)

Lemma bind_return {A B} (m : M A) (k : A -> M B) (w w' : world) (a : A) :
  m w = (Return a, w') -> bind m k w = k a w'.
Proof. intros H. unfold bind. now rewrite H. Qed.

Arguments bind_return {A B} [m] k [w w' a] _.

Lemma bind_stop {A B} (m : M A) (k : A -> M B) (w w' : world) :
  m w = (Stop, w') -> bind m k w = (Stop, w').
Proof. intros H. unfold bind. now rewrite H. Qed.

Arguments bind_stop {A B} [m] k [w w'] _.

Lemma returns_weaken {A} (R S : world -> world -> Prop) (m : M A) :
  (forall w w', R w w' -> S w w') -> returns R m -> returns S m.
Proof.
  intros HRS Hm w. destruct (Hm w) as (a & w' & E & HR). exists a, w'. auto.
Qed.

Lemma returns_run {A} (R : world -> world -> Prop) (m : M A) (w w' : world) (a : A) :
  returns R m -> m w = (Return a, w') -> R w w'.
Proof.
  intros Hm E. destruct (Hm w) as (a0 & w0 & E0 & HR). congruence.
Qed.

Arguments returns_run {A} [R m w w' a] _ _.

Lemma returns_quiet_same_session {A} (m : M A) :
  returns quiet m -> returns same_session m.
Proof. apply returns_weaken. exact quiet_same_session. Qed.

Lemma same_session_store (w : world) (v : option (list Document)) :
  same_session w (with_vector_store w v).
Proof. unfold same_session; simpl; intuition. Qed.

Ltac frame_side :=
  solve [ exact quiet_refl | exact quiet_trans | exact quiet_calls | exact quiet_screen
        | exact same_session_refl | exact same_session_trans
        | exact same_session_calls | exact same_session_screen
        | exact same_table_refl | exact same_table_trans
        | exact same_table_calls | exact same_table_screen ].

Ltac frames :=
  repeat first
    [ apply returns_ret; [frame_side]
    | apply returns_show; [frame_side]
    | apply returns_get_world; [frame_side]
    | apply returns_external; [frame_side]
    | apply returns_bind; [frame_side | | intros ?] ].

Ltac keeping :=
  repeat first
    [ apply keeps_ret; [frame_side]
    | apply keeps_raise; [frame_side]
    | apply keeps_rerun; [frame_side]
    | apply keeps_show; [frame_side]
    | apply keeps_get_world; [frame_side]
    | apply keeps_external; [frame_side]
    | apply keeps_unrecorded; [frame_side]
    | apply keeps_dict_item; [frame_side]
    | apply keeps_bind; [frame_side | | intros ?] ].

Section OrchestratorProperties.

Variable unicode_isalnum : char -> bool.
Variable unicode_isdecimal : char -> bool.
Variable svc : services.

Local Notation get_retriever_decision :=
  (get_retriever_decision unicode_isalnum unicode_isdecimal svc).
Local Notation plan_answer := (plan_answer unicode_isalnum unicode_isdecimal svc).
Local Notation handle_prompt := (handle_prompt unicode_isalnum unicode_isdecimal svc).

Lemma search_web_quiet (q : pystr) : keeps quiet (search_web svc q).
Proof. unfold search_web. keeping. Qed.

Lemma retrieve_and_grade_quiet (q : pystr) : keeps quiet (retrieve_and_grade svc q).
Proof.
  unfold retrieve_and_grade. keeping.
  - destruct (vector_store a); keeping.
  - destruct a0; keeping.
    apply returns_keeps, grade_documents_quiet.
Qed.

Lemma add_documents_same_session (docs : list Document) :
  returns same_session (add_documents docs).
Proof.
  intros w. unfold add_documents, modify. do 2 eexists.
  split; [reflexivity | apply same_session_store].
Qed.

Lemma use_web_results_same_session ctx results context_text sources :
  returns same_session (use_web_results ctx results context_text sources).
Proof.
  unfold use_web_results. destruct (contains (lit "Error") ctx); frames.
  destruct (map web_document results); frames.
  apply add_documents_same_session.
Qed.

Lemma vector_or_web_same_session q docs grade :
  keeps same_session (vector_or_web svc q docs grade).
Proof.
  unfold vector_or_web, web_fallback. destruct (eq_str grade (lit "yes")); keeping.
  apply returns_keeps, use_web_results_same_session.
Qed.

Lemma rag_system_prompt_same (context_text : pystr) (w : world) :
  snd (rag_system_prompt svc context_text w) = w.
Proof.
  unfold rag_system_prompt, bind, unrecorded.
  destruct (load_prompt svc w (lit "rag_response_system.txt")); reflexivity.
Qed.

Lemma dynamic_rag_same_session q : keeps same_session (dynamic_rag svc q).
Proof.
  unfold dynamic_rag.
  apply keeps_bind; [frame_side | | intros graded].
  - eapply keeps_weaken; [exact quiet_same_session | apply retrieve_and_grade_quiet].
  - apply keeps_bind; [frame_side | apply vector_or_web_same_session | intros found].
    cbv zeta. apply keeps_bind; [frame_side | | intros sp; apply keeps_ret; frame_side].
    intros w. rewrite rag_system_prompt_same. apply same_session_refl.
Qed.

(** However the plan of a turn ends, the session and the table are as
    they were. *)
Lemma plan_answer_same_session (q : pystr) : keeps same_session (plan_answer q).
Proof.
  unfold plan_answer.
  apply keeps_bind; [frame_side | apply keeps_get_world; frame_side | intros w0].
  apply keeps_bind; [frame_side | | intros decision].
  - apply returns_keeps. apply returns_quiet_same_session, router_quiet.
  - apply keeps_bind; [frame_side | apply keeps_dict_item; frame_side | intros strategy].
    destruct (eq_str strategy (value DIRECT_LLM)); [keeping | apply dynamic_rag_same_session].
Qed.

Lemma history_messages_returns (l : list pydict) :
  well_formed_history l ->
  forall w, exists h, history_messages l w = (Return h, w).
Proof.
  induction 1 as [|m l [Hr Hc] _ IH]; intros w; [now exists []|].
  simpl. unfold bind, dict_item.
  destruct (dict_get m (lit "role")) as [role|]; [|now destruct Hr].
  destruct (dict_get m (lit "content")) as [content|]; [|now destruct Hc].
  unfold ret at 1. destruct (IH w) as [h Eh].
  destruct (negb (eq_str role (lit "system"))).
  - unfold ret at 1 2. rewrite Eh. eexists. reflexivity.
  - eauto.
Qed.

Lemma history_messages_filter (l : list pydict) :
  well_formed_history l ->
  forall w, history_messages l w
            = (Return (map role_and_content (filter not_system l)), w).
Proof.
  induction 1 as [|m l [Hr Hc] _ IH]; intros w; [reflexivity|].
  destruct (dict_get m (lit "role")) as [role|] eqn:Er; [|now destruct Hr].
  destruct (dict_get m (lit "content")) as [content|] eqn:Ec; [|now destruct Hc].
  assert (Hns : not_system m = negb (eq_str role (lit "system")))
    by (unfold not_system, dict_get_default; now rewrite Er).
  assert (Hrc : role_and_content m = [(lit "role", role); (lit "content", content)])
    by (unfold role_and_content, dict_get_default; now rewrite Er, Ec).
  cbn [history_messages filter]. rewrite Hns.
  unfold bind at 1, dict_item at 1. rewrite Er. unfold ret at 1.
  destruct (negb (eq_str role (lit "system"))); [|apply IH].
  unfold bind, dict_item. rewrite Er, Ec. unfold ret at 1 2. rewrite IH.
  cbn [map]. now rewrite Hrc.
Qed.

Lemma history_messages_same (l : list pydict) :
  keeps (fun w w' => w' = w) (history_messages l).
Proof.
  assert (Htrans : forall a b c : world, b = a -> c = b -> c = a) by congruence.
  induction l as [|m l IH]; cbn [history_messages]; [now apply keeps_ret|].
  apply keeps_bind; [exact Htrans | now apply keeps_dict_item | intros role].
  destruct (negb (eq_str role (lit "system"))); [|exact IH].
  apply keeps_bind; [exact Htrans | now apply keeps_dict_item | intros role'].
  apply keeps_bind; [exact Htrans | now apply keeps_dict_item | intros content].
  apply keeps_bind; [exact Htrans | exact IH | intros rest]. now apply keeps_ret.
Qed.

(** The generation, when the one call it makes answers, and when it
    fails. *)
Lemma generate_answers (system_prompt : pystr) (w : world) (answer : pystr) :
  well_formed_history (chat_messages w) ->
  ask_groq svc w (model_messages system_prompt w) (generation_model w) (temperature_of w)
  = Answer answer ->
  exists w', generate svc system_prompt w = (Return answer, w') /\ same_session w w'.
Proof.
  intros Hwf Hask. unfold generate. erewrite bind_return; [|reflexivity].
  rewrite (bind_return _ (history_messages_filter Hwf w)).
  unfold bind, external. fold (model_messages system_prompt w). fold (temperature_of w).
  rewrite Hask. simpl. eexists. split; [reflexivity|].
  eapply same_session_trans; [apply same_session_calls | apply same_session_screen].
Qed.

Lemma generate_raises (system_prompt : pystr) (w : world) (e : exn) :
  well_formed_history (chat_messages w) ->
  ask_groq svc w (model_messages system_prompt w) (generation_model w) (temperature_of w)
  = Failure e ->
  exists w', generate svc system_prompt w = (Raise e, w') /\ same_session w w'.
Proof.
  intros Hwf Hask. unfold generate. erewrite bind_return; [|reflexivity].
  rewrite (bind_return _ (history_messages_filter Hwf w)).
  unfold bind, external. fold (model_messages system_prompt w). fold (temperature_of w).
  rewrite Hask. simpl. eexists. split; [reflexivity|].
  apply same_session_calls.
Qed.

Lemma generate_same_session (system_prompt : pystr) :
  keeps same_session (generate svc system_prompt).
Proof.
  unfold generate.
  apply keeps_bind; [frame_side | apply keeps_get_world; frame_side | intros w0].
  apply keeps_bind; [frame_side | | intros history; keeping].
  intros w. rewrite (history_messages_same (chat_messages w0) w). apply same_session_refl.
Qed.

(** The row and the message that the end of a generated turn writes. *)
Definition logged_row (w : world) (q final_strategy context_text : pystr)
           (sources : list pyval) (response_text : pystr) : row :=
  mkRow (last_rowid w + 1)
        (Some (match current_session_id w with
               | Some s => s
               | None => lit "default"
               end))
        (current_timestamp svc w) q (Some context_text) (Some response_text) 0
        (Some (lit "Groq (" ++ py_str svc (generation_model w) ++ lit ") - "
                   ++ final_strategy))
        (Some (json_dumps svc (PList (map source_for_log sources)))).

Definition answer_message (w : world) (final_strategy : pystr) (sources : list pyval)
           (response_text : pystr) : pydict :=
  [(lit "role", PStr (lit "assistant"));
   (lit "content", PStr response_text);
   (lit "source", PStr (lit "Groq (" ++ py_str svc (generation_model w) ++ lit ")"));
   (lit "sources", PList sources);
   (lit "retrieval_strategy", PStr final_strategy);
   (lit "interaction_id", PInt (last_rowid w + 1))].

(** The end of an answered turn: one row more in the table. *)
Lemma record_turn_writes (q final_strategy context_text : pystr) (sources : list pyval)
      (response_text : pystr) (w : world) :
  exists w',
    record_turn svc q final_strategy context_text sources response_text w = (Stop, w') /\
    interactions w' =
      interactions w ++ [logged_row w q final_strategy context_text sources response_text] /\
    last_rowid w' = (last_rowid w + 1)%Z /\
    memory w' = memory w ++ [(q, response_text)] /\
    chat_messages w' =
      chat_messages w ++ [answer_message w final_strategy sources response_text] /\
    vector_store w' = vector_store w.
Proof.
  unfold record_turn.
  cbv beta iota zeta delta [bind get_world log_interaction add_to_memory append_message
                            modify external st_rerun outcome_of_reply].
  eexists. split; [reflexivity|]. repeat split.
Qed.

(** C7: when the context text of the web search starts with "Error",
    what is made of the answer (lines 273-292) is this and no more: the
    text is shown as an error; the context text and the citation list
    come back as they were, and the Document Store is not touched.  So
    dynamic RAG, when it goes to the web and gets such an answer, builds
    the system prompt from an empty context, with no citation, and leaves
    the Document Store as it found it. *)
Theorem web_error_suppressed (web_context : pystr) (web_results : list WebResult) :
  startswith (lit "Error") web_context = true ->
  (forall context_text sources w,
      use_web_results web_context web_results context_text sources w =
      (Return (context_text, sources),
       with_screen w (screen w ++ [UiError web_context]))) /\
  (forall q w docs grade w1 w2,
      retrieve_and_grade svc q w = (Return (docs, grade), w1) ->
      eq_str grade (lit "yes") = false ->
      search_web svc q
        (with_screen w1
           (screen w1 ++ [UiToast (lit "Relevance Grade: " ++ [10060%N]
                                   ++ lit " Not Relevant. Switching to Web Search.")]))
      = (Return (web_context, web_results), w2) ->
      dynamic_rag svc q w =
      (system_prompt <- rag_system_prompt svc [] ;;
       ret (value WEB_SEARCH, system_prompt, [], []))
        (with_screen w2 (screen w2 ++ [UiError web_context])) /\
      vector_store w2 = vector_store w).
Proof.
  intros Hmark. apply startswith_contains in Hmark.
  assert (Huse : forall context_text sources w,
             use_web_results web_context web_results context_text sources w =
             (Return (context_text, sources),
              with_screen w (screen w ++ [UiError web_context]))).
  { intros context_text sources w. unfold use_web_results. rewrite Hmark. reflexivity. }
  split; [exact Huse|].
  intros q w docs grade w1 w2 Hgrade Hno Hsearch. split.
  - unfold dynamic_rag. rewrite (bind_return _ Hgrade).
    assert (Hweb : vector_or_web svc q docs grade w1 =
                   (Return (value WEB_SEARCH, ([], [])),
                    with_screen w2 (screen w2 ++ [UiError web_context]))).
    { unfold vector_or_web. rewrite Hno. unfold web_fallback.
      erewrite bind_return; [|erewrite bind_return; [|reflexivity]].
      - reflexivity.
      - erewrite bind_return; [|exact Hsearch]. apply Huse. }
    cbn [fst snd]. rewrite (bind_return _ Hweb). reflexivity.
  - pose proof (keeps_run (retrieve_and_grade_quiet q) Hgrade) as Q1.
    pose proof (keeps_run (search_web_quiet q) Hsearch) as Q2.
    destruct Q1 as (_ & _ & _ & _ & S1 & _). destruct Q2 as (_ & _ & _ & _ & S2 & _).
    simpl in S2. congruence.
Qed.

(** C8, as the code has it, for a context text of the web search that has
    no error marker: it does not start with "Error".  Context texts in
    which "Error" occurs further on are left out: the test of line 273
    takes them for errors too.  For the others, every web result becomes
    one [Document], whose content is the title, the URL and the snippet
    under their labels and whose metadata is the source, the URL and the
    page "Web", these three and no other; the documents are added to the
    Document Store in the order of the results, and the citation list
    receives the web results themselves, in the same order. *)
Theorem web_results_indexed (web_context : pystr) (web_results : list WebResult)
        (context_text : pystr) (sources : list pyval) (w : world) :
  startswith (lit "Error") web_context = false ->
  contains (lit "Error") (tl web_context) = false ->
  exists w',
    use_web_results web_context web_results context_text sources w =
    (Return (context_text ++ nl ++ nl ++ lit "**Web Search Results:**" ++ nl
                          ++ web_context ++ nl,
             sources ++ map web_result_dict web_results),
     w') /\
    stored w' = stored w ++ map web_document web_results /\
    List.length (map web_document web_results) = List.length web_results /\
    Forall (fun r =>
              page_content (web_document r) =
                lit "Title: " ++ title r ++ nl ++ lit "URL: " ++ url r ++ nl
                    ++ lit "Content: " ++ content r /\
              metadata (web_document r) =
                [(lit "source", PStr (title r)); (lit "url", PStr (url r));
                 (lit "page", PStr (lit "Web"))])
           web_results /\
    same_session w w'.
Proof.
  intros Hmark Hrest.
  assert (Hclean : contains (lit "Error") web_context = false).
  { destruct web_context as [|c rest]; [reflexivity|].
    cbn [tl] in Hrest. cbn [contains]. now rewrite Hmark, Hrest. }
  unfold use_web_results. rewrite Hclean.
  destruct web_results as [|r0 rs] eqn:Hres.
  - exists w. simpl. rewrite !app_nil_r. repeat split; auto with frames.
  - rewrite <- Hres. eexists. split; [rewrite Hres; reflexivity|].
    split; [rewrite Hres; reflexivity|].
    split; [apply length_map|].
    split; [apply Forall_forall; intros r _; split; reflexivity|].
    unfold same_session; simpl; intuition.
Qed.

(** An answer found in the memory ends the turn there: it is shown and
    joins the conversation, and nothing else changes. *)
Lemma memory_shortcut_hit (q : pystr) (w : world) :
  truthy (check_memory svc w q) = true ->
  exists w',
    memory_shortcut svc q w = (Stop, w') /\
    interactions w' = interactions w /\ last_rowid w' = last_rowid w /\
    vector_store w' = vector_store w /\ memory w' = memory w /\
    calls w' = calls w ++ [CallCheckMemory q] /\
    chat_messages w' =
      chat_messages w ++ [[(lit "role", PStr (lit "assistant"));
                           (lit "content", check_memory svc w q);
                           (lit "source", PStr (lit "Memory Cache"))]].
Proof.
  intros Hhit.
  cbv beta iota delta [memory_shortcut bind external outcome_of_reply].
  rewrite Hhit.
  cbv beta iota zeta delta [bind show modify append_message st_rerun].
  eexists. split; [reflexivity|]. simpl. repeat split.
Qed.

Lemma memory_shortcut_miss (q : pystr) (w : world) :
  truthy (check_memory svc w q) = false ->
  memory_shortcut svc q w = (Return tt, after_calls w [CallCheckMemory q]).
Proof.
  intros Hmiss.
  cbv beta iota delta [memory_shortcut bind external outcome_of_reply].
  now rewrite Hmiss.
Qed.

Lemma memory_shortcut_same_table (q : pystr) : keeps same_table (memory_shortcut svc q).
Proof.
  intros w. cbv beta iota delta [memory_shortcut bind external outcome_of_reply].
  destruct (truthy (check_memory svc w q)); split; reflexivity.
Qed.

(** The turn up to the generation, when the memory has no answer and the
    plan has been made. *)
Lemma turn_reaches_generation (q : pystr) (w : world)
      (plan : pystr * pystr * pystr * list pyval) (w2 : world) :
  truthy (PStr q) = true ->
  truthy (check_memory svc (snd (show_prompt q w)) q) = false ->
  well_formed_history (chat_messages w) ->
  plan_answer q (asked q w) = (Return plan, w2) ->
  handle_prompt q w =
  (response_text <- generate svc (snd (fst (fst plan))) ;;
   record_turn svc q (fst (fst (fst plan))) (snd (fst plan)) (snd plan)
               response_text) w2 /\
  same_session (with_chat_messages w (chat_messages w ++ [user_message q])) w2 /\
  well_formed_history (chat_messages w2).
Proof.
  intros Hq Hmiss Hwf Eplan. unfold handle_prompt. rewrite Hq.
  assert (Hshow : show_prompt q w = (Return tt, snd (show_prompt q w))) by reflexivity.
  assert (S0 : same_session (with_chat_messages w (chat_messages w ++ [user_message q]))
                            (snd (show_prompt q w))).
  { unfold same_session; simpl; intuition. }
  rewrite (bind_return _ Hshow). unfold asked in Eplan.
  generalize dependent (snd (show_prompt q w)). intros w0 Hmiss Eplan _ S0.
  rewrite (bind_return _ (memory_shortcut_miss q w0 Hmiss)).
  rewrite (bind_return _ Eplan). split; [reflexivity|].
  assert (R : same_session (with_chat_messages w (chat_messages w ++ [user_message q])) w2).
  { eapply same_session_trans; [exact S0|].
    eapply same_session_trans; [apply same_session_calls|].
    exact (keeps_run (plan_answer_same_session q) Eplan). }
  split; [exact R|]. destruct R as (M & _). rewrite M. simpl.
  apply Forall_app. split; [exact Hwf|]. constructor; [|constructor]. split; discriminate.
Qed.

(** A generated turn, from its first world to its last: the memory has no
    answer, the plan has been made, and the call of the model made with
    that plan has answered. *)
Lemma generated_turn_writes (q : pystr) (w : world)
      (plan : pystr * pystr * pystr * list pyval) (w2 : world) (answer : pystr) :
  truthy (PStr q) = true ->
  truthy (check_memory svc (snd (show_prompt q w)) q) = false ->
  well_formed_history (chat_messages w) ->
  plan_answer q (asked q w) = (Return plan, w2) ->
  ask_groq svc w2 (model_messages (snd (fst (fst plan))) w2) (generation_model w2)
           (temperature_of w2) = Answer answer ->
  exists w' new msg,
    handle_prompt q w = (Stop, w') /\
    interactions w' = interactions w ++ [new] /\
    id new = (last_rowid w + 1)%Z /\
    session_id new = Some (match current_session_id w with
                           | Some s => s
                           | None => lit "default"
                           end) /\
    user_prompt new = q /\
    llm_response new = Some answer /\
    rating new = 0%Z /\
    last_rowid w' = (last_rowid w + 1)%Z /\
    memory w' = memory w ++ [(q, answer)] /\
    chat_messages w' = chat_messages w ++ [user_message q; msg] /\
    dict_get msg (lit "role") = Some (PStr (lit "assistant")) /\
    dict_get msg (lit "content") = Some (PStr answer) /\
    dict_get msg (lit "interaction_id") = Some (PInt (id new)).
Proof.
  intros Hq Hmiss Hwf Eplan Hask.
  destruct (turn_reaches_generation q w Hq Hmiss Hwf Eplan) as (-> & R2 & Hwf2).
  destruct (generate_answers (snd (fst (fst plan))) w2 Hwf2 Hask) as (w3 & E3 & R3).
  rewrite (bind_return _ E3).
  destruct (record_turn_writes q (fst (fst (fst plan))) (snd (fst plan)) (snd plan)
                               answer w3) as (w4 & E4 & I4 & L4 & Me4 & M4 & _).
  destruct (same_session_trans R2 R3) as (M & _ & _ & C & Me & I & L). simpl in *.
  exists w4, (logged_row w3 q (fst (fst (fst plan))) (snd (fst plan)) (snd plan) answer),
    (answer_message w3 (fst (fst (fst plan))) (snd plan) answer).
  split; [exact E4|]. rewrite I4, L4, Me4, M4, I, L, Me, M, <- app_assoc. simpl.
  rewrite L, C. repeat split.
Qed.

(** However a turn ends, the table has the rows it had, in their order,
    and one more at most. *)
Lemma turn_appends_at_most_one (q : pystr) (w : world) :
  exists rows,
    interactions (snd (handle_prompt q w)) = interactions w ++ rows /\
    List.length rows <= 1.
Proof.
  assert (Hnone : forall w', same_table w w' ->
            exists rows, interactions w' = interactions w ++ rows /\ List.length rows <= 1).
  { intros w' [I _]. exists []. rewrite app_nil_r. split; [exact I | simpl; lia]. }
  unfold handle_prompt. destruct (truthy (PStr q)); [|apply Hnone, same_table_refl].
  assert (Hshow : show_prompt q w = (Return tt, snd (show_prompt q w))) by reflexivity.
  assert (T0 : same_table w (snd (show_prompt q w))) by (split; reflexivity).
  rewrite (bind_return _ Hshow).
  generalize dependent (snd (show_prompt q w)). intros w0 _ T0.
  unfold bind at 1. pose proof (memory_shortcut_same_table q w0) as T1.
  destruct (memory_shortcut svc q w0) as [[[]|e|] w1]; simpl in T1;
    try (apply Hnone; eapply same_table_trans; eassumption).
  unfold bind at 1.
  pose proof (same_session_table (plan_answer_same_session q w1)) as T2.
  destruct (plan_answer q w1) as [[plan|e|] w2]; simpl in T2;
    try (apply Hnone; eapply same_table_trans; [|eassumption];
         eapply same_table_trans; eassumption).
  cbv zeta. unfold bind at 1.
  pose proof (same_session_table (generate_same_session (snd (fst (fst plan))) w2)) as T3.
  assert (T03 : same_table w (snd (generate svc (snd (fst (fst plan))) w2))).
  { eapply same_table_trans; [|exact T3].
    eapply same_table_trans; [|exact T2]. eapply same_table_trans; eassumption. }
  destruct (generate svc (snd (fst (fst plan))) w2) as [[answer|e|] w3]; simpl in T03;
    try (apply Hnone; exact T03).
  destruct (record_turn_writes q (fst (fst (fst plan))) (snd (fst plan)) (snd plan)
                               answer w3) as (w4 & E4 & I4 & _).
  rewrite E4. simpl. rewrite I4. destruct T03 as [-> _].
  eexists. split; [reflexivity | simpl; lia].
Qed.

(** C1, as the code has it.  A turn answered from the memory ends with
    the table as it was.  A turn that is not, in a conversation whose
    messages all have a role and a content, once its plan has been made
    and the call of the model made with that plan has answered, ends with
    one row more, the row of this turn: the next id, the session of the
    turn, its prompt, the answer, and no rating yet.  And however a turn
    ends, it adds one row at most. *)
Theorem one_interaction_per_generated_turn (q : pystr) (w : world) :
  truthy (PStr q) = true ->
  (truthy (check_memory svc (snd (show_prompt q w)) q) = true ->
   exists w',
     handle_prompt q w = (Stop, w') /\
     interactions w' = interactions w /\ last_rowid w' = last_rowid w) /\
  (truthy (check_memory svc (snd (show_prompt q w)) q) = false ->
   well_formed_history (chat_messages w) ->
   forall plan w2 answer,
     plan_answer q (asked q w) = (Return plan, w2) ->
     ask_groq svc w2 (model_messages (snd (fst (fst plan))) w2) (generation_model w2)
              (temperature_of w2) = Answer answer ->
     exists w' r,
       handle_prompt q w = (Stop, w') /\
       interactions w' = interactions w ++ [r] /\
       id r = (last_rowid w + 1)%Z /\
       session_id r = Some (match current_session_id w with
                            | Some s => s
                            | None => lit "default"
                            end) /\
       user_prompt r = q /\
       llm_response r = Some answer /\
       rating r = 0%Z) /\
  (exists rows,
      interactions (snd (handle_prompt q w)) = interactions w ++ rows /\
      List.length rows <= 1).
Proof.
  intros Hq. split; [|split].
  - intros Hhit. unfold handle_prompt. rewrite Hq.
    assert (Hshow : show_prompt q w = (Return tt, snd (show_prompt q w))) by reflexivity.
    rewrite (bind_return _ Hshow).
    destruct (memory_shortcut_hit q (snd (show_prompt q w)) Hhit) as (w' & E & I & L & _).
    exists w'. rewrite (bind_stop _ E). repeat split; assumption.
  - intros Hmiss Hwf plan w2 answer Eplan Hask.
    destruct (generated_turn_writes q w Hq Hmiss Hwf Eplan Hask)
      as (w' & r & msg & E & I & Hid & Hs & Hp & Hr & Hz & _).
    exists w', r. repeat split; assumption.
  - apply turn_appends_at_most_one.
Qed.

End OrchestratorProperties.

(** * The pipeline run

    The theorems above at concrete inputs, and the inputs at which the
    stated claims and the code part. *)

Example findall_report :
  re_findall no_unicode no_unicode report_query = [lit "https://example.com"].
Proof. reflexivity. Qed.

Example findall_two :
  re_findall no_unicode no_unicode (lit "http://a.b%2Fc and https://x_y-z, http://")
  = [lit "http://a.b%2Fc"; lit "https://x_y-z"].
Proof. reflexivity. Qed.

Example findall_overlap :
  re_findall no_unicode no_unicode (lit "http://ahttp://b") = [lit "http://ahttp"].
Proof. reflexivity. Qed.

Example router_without_key :
  get_retriever_decision no_unicode no_unicode demo_services capital_query PNone
                         router_model demo_world
  = (Return [(lit "strategy", PStr (lit "Vector-Based"));
             (lit "reasoning", PStr (lit "No API key provided."));
             (lit "refined_query", PStr capital_query)],
     demo_world).
Proof. reflexivity. Qed.

Lemma url_override_witness :
  exists urls,
    urls <> [] /\
    urls_present no_unicode no_unicode report_query urls /\
    get_retriever_decision no_unicode no_unicode failing_services report_query PNone
                           router_model demo_world =
    (Return [(lit "strategy", PStr (value WEB_SEARCH));
             (lit "reasoning",
              PStr (lit "User query contains specific URLs: " ++ repr_url_list urls
                    ++ lit ". Switching to Web Search."));
             (lit "refined_query", PStr report_query);
             (lit "urls", PList (map PStr urls))],
     demo_world).
Proof.
  apply (@url_override no_unicode no_unicode failing_services report_query PNone
                      router_model demo_world).
  exists (lit "See "), (lit "https://example.com"), (lit "/report.pdf").
  split; [reflexivity|].
  exact (proj2 (proj2 (@url_match_sound no_unicode no_unicode
                         (lit "https://example.com") 19 eq_refl))).
Defined.

Lemma router_strategy_enumerated_witness :
  get_retriever_decision no_unicode no_unicode demo_services capital_query demo_key
                         router_model demo_world =
  (Return [(lit "strategy", PStr (lit "Vector-Based"));
           (lit "reasoning", PStr (lit "Relations are asked for."));
           (lit "refined_query", PStr (lit "capital France"))],
   after_calls demo_world [CallRouterSetup; CallRouterInvoke capital_query]).
Proof.
  exact (proj2 (@router_strategy_enumerated no_unicode no_unicode demo_services
                  capital_query demo_key router_model demo_world)
               [(lit "strategy", PStr (lit "Graph Search"));
                (lit "reasoning", PStr (lit "Relations are asked for."));
                (lit "refined_query", PStr (lit "capital France"))]
               eq_refl eq_refl eq_refl eq_refl eq_refl).
Defined.

Lemma router_never_raises_witness :
  get_retriever_decision no_unicode no_unicode failing_services capital_query demo_key
                         router_model demo_world =
  (Return [(lit "strategy", PStr (lit "Direct LLM"));
           (lit "reasoning",
            PStr (lit "Agent decision failed after 3 attempts: Request timed out."));
           (lit "refined_query", PStr capital_query)],
   after_calls demo_world
     [CallRouterSetup; CallRouterInvoke capital_query; CallRouterInvoke capital_query;
      CallRouterInvoke capital_query]).
Proof.
  exact (proj2 (proj2 (@router_never_raises no_unicode no_unicode failing_services
                         capital_query demo_key router_model demo_world))
               timeout_error timeout_error timeout_error
               eq_refl eq_refl eq_refl eq_refl eq_refl eq_refl).
Defined.

Lemma grade_fails_open_witness :
  exists extra,
    grade_documents failing_services capital_query [demo_document] demo_key router_model
                    demo_world =
    (Return (PStr (lit "yes")),
     with_screen (after_calls demo_world extra)
                 [UiPrint (lit "Grading failed: Request timed out.")]).
Proof.
  exact (@grade_fails_open failing_services capital_query demo_document [] demo_key
           router_model demo_world timeout_error (or_intror (conj eq_refl eq_refl))).
Defined.


Lemma rating_update_frame_witness :
  (exists w',
      update_interaction_rating 7 1 demo_world = (Return tt, w') /\
      map rating (interactions w') = [1%Z] /\
      select_session table_order (lit "s1") 50 (interactions w')
      = update_rows 7 1 (select_session table_order (lit "s1") 50 (interactions demo_world)) /\
      fst (load_chat_history_from_db demo_services table_order (lit "s1") 50 w')
      = fst (load_chat_history_from_db demo_services table_order (lit "s1") 50 demo_world)) /\
  update_interaction_rating 7 (2 ^ 63) demo_world = (Raise overflow_error, demo_world).
Proof.
  split.
  - destruct (proj1 (@rating_update_frame demo_services table_order 7 1 (lit "s1") 50
                       demo_world) eq_refl eq_refl) as (w' & E & _ & _ & Hsel & Hlist).
    exists w'. split; [exact E|]. split; [|split; [exact Hsel | exact Hlist]].
    injection E as <-. reflexivity.
  - exact (proj2 (@rating_update_frame demo_services table_order 7 (2 ^ 63) (lit "s1") 50
                    demo_world) (or_intror eq_refl)).
Defined.

Lemma web_error_suppressed_witness :
  use_web_results (lit "Error during Tavily search: unreachable") [france_result]
                  [] [] demo_world =
  (Return ([], []),
   with_screen demo_world [UiError (lit "Error during Tavily search: unreachable")]) /\
  exists w',
    dynamic_rag failing_services capital_query demo_world =
    (Return (lit "Web Search", lit "rag_response_system.txt", [], []), w') /\
    screen w' = [not_relevant_toast;
                 UiError (lit "Error during Tavily search: unreachable")] /\
    vector_store w' = None.
Proof.
  split.
  - exact (proj1 (@web_error_suppressed failing_services
                    (lit "Error during Tavily search: unreachable") [france_result]
                    eq_refl) [] [] demo_world).
  - eexists. split.
    + exact (proj1 (proj2 (@web_error_suppressed failing_services
                             (lit "Error during Tavily search: unreachable") []
                             eq_refl)
                          capital_query demo_world [] (PStr (lit "no")) demo_world _
                          eq_refl eq_refl eq_refl)).
    + split; reflexivity.
Defined.

Lemma web_results_indexed_witness :
  exists w',
    use_web_results (lit "Paris is the capital of France.") [france_result] [] []
                    demo_world =
    (Return (nl ++ nl ++ lit "**Web Search Results:**" ++ nl
                ++ lit "Paris is the capital of France." ++ nl,
             [web_result_dict france_result]),
     w') /\
    stored w' = [web_document france_result] /\
    same_session demo_world w'.
Proof.
  destruct (@web_results_indexed (lit "Paris is the capital of France.") [france_result]
              [] [] demo_world eq_refl eq_refl) as (w' & E & S & _ & _ & R).
  exists w'. exact (conj E (conj S R)).
Defined.

(** C8, as it is stated, fails: the document made of a web result is in
    the Document Store but not in the citation list, which holds the web
    result itself; and its metadata has no origin. *)
Lemma web_chunk_not_cited :
  exists context_text sources w',
    use_web_results (lit "Paris is the capital of France.") [france_result] [] []
                    demo_world = (Return (context_text, sources), w') /\
    stored w' = [web_document france_result] /\
    ~ In (doc_value (web_document france_result)) sources /\
    dict_get (metadata (web_document france_result)) (lit "origin") = None.
Proof.
  do 3 eexists. split; [cbv; reflexivity|]. split; [reflexivity|].
  split; [|reflexivity].
  intros [H|[]]. discriminate H.
Qed.

(** Services of which the model answers the one call of the turn and no
    other: a user message, then one more. *)
Definition answering_once_services : services :=
  {| router_setup := fun _ _ _ => Answer tt;
     router_invoke := fun _ _ => Failure timeout_error;
     grader_setup := fun _ _ _ => Answer tt;
     grader_invoke := fun _ _ _ => Failure timeout_error;
     check_memory := fun _ _ => PNone;
     similarity_search := fun _ _ _ => Failure timeout_error;
     run_tavily_search := fun _ _ _ _ => Failure timeout_error;
     ask_groq := fun w _ _ _ =>
       match chat_messages w with
       | [_] => Answer (lit "Paris.")
       | _ => Failure timeout_error
       end;
     load_prompt := fun _ name =>
       if pystr_eqb name (lit "direct_llm_system.txt") then Answer (lit "Answer briefly.")
       else Failure (mkExn (lit "FileNotFoundError") name);
     format_context := fun _ _ => Failure (mkExn (lit "KeyError") (lit "'question'"));
     str_of_value := fun _ => lit "?";
     json_dumps := fun _ => lit "[]";
     json_loads := fun _ => PList [];
     current_timestamp := fun _ => 0%Z |}.

Lemma one_interaction_per_generated_turn_witness :
  exists w' r,
    handle_prompt no_unicode no_unicode answering_once_services capital_query demo_world
    = (Stop, w') /\
    interactions w' = interactions demo_world ++ [r] /\
    id r = 8%Z /\
    session_id r = Some (lit "s1") /\
    user_prompt r = capital_query /\
    llm_response r = Some (lit "Paris.") /\
    rating r = 0%Z.
Proof.
  exact (proj1 (proj2 (@one_interaction_per_generated_turn no_unicode no_unicode
                         answering_once_services capital_query demo_world eq_refl))
               eq_refl (Forall_nil _)
               (lit "Direct LLM", lit "Answer briefly.", [], [])
               _ (lit "Paris.") eq_refl eq_refl).
Defined.

(** C1, as it is stated, fails: a turn answered from the memory ends with
    the table as it was, one row and not two. *)
Lemma memory_hit_not_logged :
  exists w',
    handle_prompt no_unicode no_unicode remembering_services capital_query demo_world
    = (Stop, w') /\
    interactions w' = interactions demo_world /\
    List.length (interactions w') <> S (List.length (interactions demo_world)).
Proof.
  eexists. split; [reflexivity|]. split; [reflexivity|]. discriminate.
Qed.

(** * Further properties of the code *)

(** ** The URL pattern and the router *)

Section MoreRouterProperties.

Variable unicode_isalnum : char -> bool.
Variable unicode_isdecimal : char -> bool.
Variable svc : services.

Local Notation host_char := (host_char unicode_isalnum).
Local Notation hex_char := (hex_char unicode_isdecimal).
Local Notation host_item := (host_item unicode_isalnum unicode_isdecimal).
Local Notation url_pattern := (url_pattern unicode_isalnum unicode_isdecimal).
Local Notation re_findall := (re_findall unicode_isalnum unicode_isdecimal).
Local Notation urls_present := (urls_present unicode_isalnum unicode_isdecimal).
Local Notation get_retriever_decision :=
  (get_retriever_decision unicode_isalnum unicode_isdecimal svc).
Local Notation retry_loop := (retry_loop svc).

(** What a match of [item+] is made of. *)
Lemma host_items_chars r (h : pystr) :
  Matches r h -> r = RPlus host_item ->
  h <> [] /\
  Forall (fun c => host_char c = true \/ c = 37%N \/ hex_char c = true) h.
Proof.
  induction 1 as [| | | | | | |r s Hs|r s1 s2 Hs1 _ _ IH2]; intros E;
    try discriminate; injection E as ->.
  - destruct (host_item_inv Hs) as [(c & -> & Hc)|(h1 & h2 & -> & H1 & H2)];
      (split; [discriminate|]); repeat (apply Forall_cons; [auto|]); apply Forall_nil.
  - destruct (IH2 eq_refl) as [_ Hall].
    destruct (host_item_inv Hs1) as [(c & -> & Hc)|(h1 & h2 & -> & H1 & H2)];
      (split; [discriminate|]); simpl; repeat (apply Forall_cons; [auto|]); exact Hall.
Qed.

(** X1: every URL the router extracts is a scheme, [http://] or
    [https://], followed by one code point or more, each a host character,
    a percent sign or a hexadecimal digit: the URL stops before the first
    slash, so a path is never part of it. *)
Theorem extracted_urls_are_hosts (q : pystr) :
  Forall (fun u =>
            exists h,
              (u = lit "http://" ++ h \/ u = lit "https://" ++ h) /\
              h <> [] /\
              Forall (fun c => host_char c = true \/ c = 37%N \/ hex_char c = true) h /\
              ~ In 47%N h)
         (re_findall q).
Proof.
  pose proof (urls_present_occur (findall_present unicode_isalnum unicode_isdecimal q))
    as Hocc.
  eapply Forall_impl; [|exact Hocc]. intros u [Hu _].
  destruct (url_pattern_inv Hu) as (h & Hh & Hscheme).
  destruct (host_items_chars Hh eq_refl) as [Hne Hall].
  exists h. repeat split; try assumption.
  intros Hin. rewrite Forall_forall in Hall.
  destruct (Hall _ Hin) as [Hc|[Hc|Hc]]; discriminate Hc.
Qed.

(** X2: the router takes the URL branch exactly when the pattern occurs
    in the query: [re.findall] finds nothing if and only if no part of the
    query matches the pattern. *)
Theorem no_url_found_iff (q : pystr) :
  re_findall q = [] <->
  ~ (exists pre u post, q = pre ++ u ++ post /\ Matches url_pattern u).
Proof.
  split.
  - intros Hnone (pre & u & post & -> & Hu).
    exact (findall_nonempty pre post Hu Hnone).
  - intros Hno. destruct (re_findall q) as [|u us] eqn:E; [reflexivity|].
    exfalso. apply Hno.
    pose proof (urls_present_occur (findall_present unicode_isalnum unicode_isdecimal q))
      as Hocc.
    rewrite E in Hocc. inversion Hocc as [|? ? [Hu (pre & post & Hq)] _]; subst.
    exists pre, u, post. auto.
Qed.

(** X3: the engine and the reading of the text agree: the list [re.findall]
    returns is the one and only list of the URLs present. *)
Theorem findall_is_urls_present (q : pystr) (us : list pystr) :
  urls_present q us <-> us = re_findall q.
Proof.
  split.
  - intros H. exact (urls_present_unique H (findall_present _ _ q)).
  - intros ->. apply findall_present.
Qed.

(** X4: with no URL in the query and no key, the router answers at once:
    [VECTOR_BASED], "No API key provided.", the query as it is, and no
    service has been called. *)
Theorem router_without_credentials (q : pystr) (api_key model_name : pyval) (w : world) :
  re_findall q = [] -> truthy api_key = false ->
  get_retriever_decision q api_key model_name w =
  (Return [(lit "strategy", PStr (value VECTOR_BASED));
           (lit "reasoning", PStr (lit "No API key provided."));
           (lit "refined_query", PStr q)],
   w).
Proof.
  intros Hurls Hkey. unfold get_retriever_decision. rewrite Hurls, Hkey. reflexivity.
Qed.

Lemma retry_loop_first_answer (q : pystr) (k : nat) :
  forall attempts last w d,
    k < List.length attempts ->
    (forall i, i < k ->
       exists e, attempt_error
                   (router_invoke svc (after_calls w (repeat (CallRouterInvoke q) i)) q)
                 = Some e) ->
    router_invoke svc (after_calls w (repeat (CallRouterInvoke q) k)) q
    = Answer (PDict d) ->
    retry_loop q attempts last w =
    (Return (inl (validate_strategy d)),
     after_calls w (repeat (CallRouterInvoke q) (S k))).
Proof.
  induction k as [|k IH]; intros attempts last w d Hk Hfail Hans;
    destruct attempts as [|x rest]; try (simpl in Hk; lia).
  - simpl repeat in *. rewrite after_calls_nil in Hans.
    exact (retry_loop_returns svc q x rest last w Hans).
  - destruct (Hfail 0) as [e He]; [lia|]. simpl repeat in He.
    rewrite after_calls_nil in He.
    rewrite (retry_loop_retries svc q x rest last w He).
    rewrite (IH rest (Some e) (after_calls w [CallRouterInvoke q]) d).
    + rewrite after_calls_more. reflexivity.
    + simpl in Hk. lia.
    + intros i Hi. rewrite after_calls_more. apply (Hfail (S i)). lia.
    + rewrite after_calls_more. exact Hans.
Qed.

(** X5: the retry loop stops at the first attempt that gets a JSON
    object: when the attempts before the [k]-th fail and the [k]-th
    answers, the router returns that answer, validated, and the chain has
    been invoked [k + 1] times and no more. *)
Theorem router_stops_at_first_answer (q : pystr) (api_key model_name : pyval)
        (w : world) (k : nat) (d : pydict) :
  re_findall q = [] -> truthy api_key = true ->
  router_setup svc w api_key model_name = Answer tt ->
  k < max_retries ->
  (forall i, i < k ->
     exists e,
       attempt_error
         (router_invoke svc
            (after_calls w (CallRouterSetup :: repeat (CallRouterInvoke q) i)) q)
       = Some e) ->
  router_invoke svc (after_calls w (CallRouterSetup :: repeat (CallRouterInvoke q) k)) q
  = Answer (PDict d) ->
  get_retriever_decision q api_key model_name w =
  (Return (validate_strategy d),
   after_calls w (CallRouterSetup :: repeat (CallRouterInvoke q) (S k))).
Proof.
  intros Hurls Hkey Hsetup Hk Hfail Hans.
  rewrite (@router_classifies unicode_isalnum unicode_isdecimal svc q api_key
             model_name w Hurls Hkey), Hsetup.
  rewrite (@retry_loop_first_answer q k (seq 0 max_retries) None
             (after_calls w [CallRouterSetup]) d).
  - rewrite after_calls_more. reflexivity.
  - now rewrite length_seq.
  - intros i Hi. rewrite after_calls_more. now apply Hfail.
  - rewrite after_calls_more. exact Hans.
Qed.

End MoreRouterProperties.

(** X6: validation keeps a decision whose strategy is a member's value as
    it is, with every key; otherwise it changes the strategy and no other
    key; and validating twice is validating once. *)
Theorem validate_strategy_only_strategy (d : pydict) :
  (in_str_list (dict_get_default d (lit "strategy") PNone) strategy_values = true ->
   validate_strategy d = d) /\
  (forall k, k <> lit "strategy" -> dict_get (validate_strategy d) k = dict_get d k) /\
  validate_strategy (validate_strategy d) = validate_strategy d.
Proof.
  split; [|split].
  - intros H. unfold validate_strategy. now rewrite H.
  - intros k Hk. unfold validate_strategy.
    destruct (in_str_list _ strategy_values); simpl; [reflexivity|].
    now apply dict_get_set_other.
  - unfold validate_strategy at 2 3.
    destruct (in_str_list (dict_get_default d (lit "strategy") PNone) strategy_values)
      eqn:E; simpl negb; cbv iota.
    + unfold validate_strategy. now rewrite E.
    + unfold validate_strategy, dict_get_default. rewrite dict_get_set_same.
      reflexivity.
Qed.

(** ** The grader *)

(** X7: whatever the documents after the first and whatever the service
    does, the grader returns a grade and raises nothing; the chain is set
    up once and invoked once at most, on the text of the first document;
    apart from the log of calls and the console, the world is as it was. *)
Theorem grader_grades_first_only (svc : services) (q : pystr) (top : Document)
        (rest : list Document) (api_key model_name : pyval) (w : world) :
  exists g extra printed,
    grade_documents svc q (top :: rest) api_key model_name w =
    (Return g, with_screen (after_calls w extra) (screen w ++ printed)) /\
    (extra = [CallGraderSetup] \/
     extra = [CallGraderSetup; CallGraderInvoke (page_content top) q]).
Proof.
  unfold grade_documents, try_except, bind, external.
  destruct (grader_setup svc w api_key model_name) as [[]|e]; simpl.
  - destruct (grader_invoke svc (after_calls w [CallGraderSetup]) (page_content top) q)
      as [v|e]; simpl.
    + destruct v; simpl;
        try (do 2 eexists; eexists [_]; split; [|right; reflexivity];
             unfold show, modify, ret, with_screen, after_calls, with_calls; simpl;
             rewrite <- app_assoc; reflexivity).
      do 2 eexists. exists []. split; [|right; reflexivity].
      unfold ret, with_screen, after_calls, with_calls. simpl.
      now rewrite app_nil_r, <- app_assoc.
    + do 2 eexists; eexists [_]. split; [|right; reflexivity].
      unfold show, modify, ret, with_screen, after_calls, with_calls. simpl.
      now rewrite <- app_assoc.
  - do 2 eexists; eexists [_]. split; [|left; reflexivity]. reflexivity.
Qed.

(** ** The interaction store, further *)

(** The ids of the table are pairwise distinct and none is beyond the
    last one given out. *)
Definition store_ok (w : world) : Prop :=
  NoDup (map id (interactions w)) /\
  Forall (fun r => (id r <= last_rowid w)%Z) (interactions w).

(** [b] is not newer than [a]. *)
Definition not_newer (a b : row) : Prop := (timestamp b <= timestamp a)%Z.

Lemma with_interactions_same (w : world) :
  with_interactions w (interactions w) (last_rowid w) = w.
Proof. now destruct w. Qed.

Lemma update_rows_ids (i r : Z) (t : list row) :
  map id (update_rows i r t) = map id t.
Proof.
  induction t as [|x t IH]; [reflexivity|]. simpl. rewrite IH.
  now destruct (Z.eqb (id x) i).
Qed.

Lemma update_rows_absent (i r : Z) (t : list row) :
  Forall (fun x => id x <> i) t -> update_rows i r t = t.
Proof.
  induction 1 as [|x t Hx _ IH]; [reflexivity|]. simpl. rewrite IH.
  destruct (Z.eqb_spec (id x) i); [contradiction | reflexivity].
Qed.

Lemma update_rows_app (i r : Z) (a b : list row) :
  update_rows i r (a ++ b) = update_rows i r a ++ update_rows i r b.
Proof. apply map_app. Qed.

Lemma ids_distinct_after_filter (keep : row -> bool) (t : list row) :
  NoDup (map id t) -> NoDup (map id (filter keep t)).
Proof.
  intros Hnd. induction t as [|r t IH]; [exact Hnd|].
  cbn [map] in Hnd. apply NoDup_cons_iff in Hnd. destruct Hnd as [Hr Ht].
  cbn [filter]. destruct (keep r); [|exact (IH Ht)].
  cbn [map]. apply NoDup_cons; [|exact (IH Ht)].
  intros Hin. apply Hr. apply in_map_iff in Hin. destruct Hin as (y & Hy & Hin).
  apply filter_In in Hin. apply in_map_iff. exists y. tauto.
Qed.

Lemma Forall_filter_keep {A} (P : A -> Prop) (p : A -> bool) (l : list A) :
  Forall P l -> Forall P (filter p l).
Proof.
  intros H. apply Forall_forall. intros x Hx. apply filter_In in Hx.
  rewrite Forall_forall in H. apply H. tauto.
Qed.

Lemma store_ok_fresh (w : world) :
  store_ok w -> Forall (fun x => id x <> (last_rowid w + 1)%Z) (interactions w).
Proof.
  intros [_ Hle]. eapply Forall_impl; [|exact Hle]. simpl. intros x Hx. lia.
Qed.

(** X8: the table keeps its ids in order.  When they are pairwise distinct
    and none beyond the last one given out, logging an interaction gives
    the next id, which no row has, and logging, rating and deleting a
    session all leave the ids pairwise distinct and within the last one:
    an id is never given twice, not even after a deletion. *)
Theorem store_ids_never_reused (svc : services) (w : world)
        (prompt context answer label : pystr) (cited : pyval)
        (session : pystr) (i r : Z) :
  store_ok w ->
  (exists w',
      log_interaction svc prompt context answer label cited session w
      = (Return (last_rowid w + 1)%Z, w') /\
      ~ In (last_rowid w + 1)%Z (map id (interactions w)) /\
      store_ok w') /\
  store_ok (snd (update_interaction_rating i r w)) /\
  (store_ok (snd (delete_session session w)) /\
   last_rowid (snd (delete_session session w)) = last_rowid w).
Proof.
  intros Hok. pose proof (store_ok_fresh Hok) as Hfresh.
  pose proof Hok as [Hnd Hle]. split; [|split; [|split]].
  - eexists. split; [reflexivity|]. split.
    + intros Hin. apply in_map_iff in Hin. destruct Hin as (x & Hx & Hin).
      rewrite Forall_forall in Hfresh. now apply (Hfresh x Hin).
    + split; simpl.
      * rewrite map_app. simpl. apply NoDup_app; [exact Hnd | repeat constructor; auto |].
        intros a Ha [<-|[]]. apply in_map_iff in Ha. destruct Ha as (x & Hx & Hin).
        rewrite Forall_forall in Hfresh. now apply (Hfresh x Hin).
      * apply Forall_app. split.
        -- eapply Forall_impl; [|exact Hle]. simpl. intros x Hx. lia.
        -- repeat constructor. simpl. lia.
  - unfold update_interaction_rating.
    destruct (sqlite_integer r && sqlite_integer i); [|exact Hok].
    split; simpl.
    + now rewrite update_rows_ids.
    + unfold update_rows. apply Forall_map. eapply Forall_impl; [|exact Hle].
      intros x Hx. simpl in *. now destruct (Z.eqb (id x) i).
  - split; simpl.
    + apply ids_distinct_after_filter. exact Hnd.
    + apply Forall_filter_keep. exact Hle.
  - reflexivity.
Qed.

(** X9: an interaction is logged, then rated by the id that logging
    returned.  With the ids of the table in order and the next id a
    SQLite integer, a rating that is a SQLite integer leaves the table as
    it was with one row more, the logged one, carrying the rating; no row
    that was there before is changed.  A rating that is none raises
    [OverflowError], and the logged row stays, not rated. *)
Theorem rate_what_was_logged (svc : services) (w : world)
        (prompt context answer label : pystr) (cited : pyval)
        (session : pystr) (r : Z) :
  store_ok w ->
  sqlite_integer (last_rowid w + 1) = true ->
  (sqlite_integer r = true ->
   exists w',
     (interaction_id <- log_interaction svc prompt context answer label cited session ;;
      update_interaction_rating interaction_id r) w = (Return tt, w') /\
     interactions w' =
       interactions w ++
         [mkRow (last_rowid w + 1) (Some session) (current_timestamp svc w) prompt
                (Some context) (Some answer) r (Some label)
                (Some (json_dumps svc cited))]) /\
  (sqlite_integer r = false ->
   exists w',
     (interaction_id <- log_interaction svc prompt context answer label cited session ;;
      update_interaction_rating interaction_id r) w = (Raise overflow_error, w') /\
     interactions w' =
       interactions w ++
         [mkRow (last_rowid w + 1) (Some session) (current_timestamp svc w) prompt
                (Some context) (Some answer) 0 (Some label)
                (Some (json_dumps svc cited))]).
Proof.
  intros Hok Hid. pose proof (store_ok_fresh Hok) as Hfresh.
  split; intros Hr; unfold bind, log_interaction, update_interaction_rating;
    rewrite Hr, Hid; simpl; eexists; (split; [reflexivity|]); simpl; [|reflexivity].
  rewrite update_rows_app, (update_rows_absent r Hfresh). simpl.
  now rewrite Z.eqb_refl.
Qed.

(** X10: for ids and ratings that are SQLite integers, rating an id that
    no row has changes nothing; of two ratings of one id the second
    stands; ratings of two ids can be given in either order. *)
Theorem rating_updates_compose (w : world) (i j r1 r2 : Z) :
  sqlite_integer i = true -> sqlite_integer j = true ->
  sqlite_integer r1 = true -> sqlite_integer r2 = true ->
  (Forall (fun x => id x <> i) (interactions w) ->
   update_interaction_rating i r1 w = (Return tt, w)) /\
  (update_interaction_rating i r1 ;; update_interaction_rating i r2) w
  = update_interaction_rating i r2 w /\
  (i <> j ->
   (update_interaction_rating i r1 ;; update_interaction_rating j r2) w
   = (update_interaction_rating j r2 ;; update_interaction_rating i r1) w).
Proof.
  intros Hi Hj Hr1 Hr2. unfold update_interaction_rating. rewrite Hi, Hj, Hr1, Hr2.
  cbn [andb]. split; [|split].
  - intros Habsent. unfold modify.
    now rewrite (update_rows_absent r1 Habsent), with_interactions_same.
  - unfold bind, modify, with_interactions. simpl.
    do 2 f_equal. unfold update_rows. rewrite map_map. apply map_ext.
    intros x. destruct (Z.eqb (id x) i) eqn:E; simpl; now rewrite E.
  - intros Hij. unfold bind, modify, with_interactions. simpl.
    do 2 f_equal. unfold update_rows. rewrite !map_map. apply map_ext.
    intros x. destruct (Z.eqb_spec (id x) i) as [Hxi|Hxi];
      destruct (Z.eqb_spec (id x) j) as [Hxj|Hxj]; simpl.
    + congruence.
    + destruct (Z.eqb_spec (id x) i); [|contradiction].
      destruct (Z.eqb_spec (id x) j); [contradiction | reflexivity].
    + destruct (Z.eqb_spec (id x) i); [contradiction|].
      destruct (Z.eqb_spec (id x) j); [reflexivity | contradiction].
    + destruct (Z.eqb_spec (id x) i); [contradiction|].
      destruct (Z.eqb_spec (id x) j); [contradiction | reflexivity].
Qed.

Lemma filter_filter_session (s s' : pystr) (t : list row) :
  s' <> s ->
  filter (in_session s') (filter (fun r => negb (in_session s r)) t)
  = filter (in_session s') t.
Proof.
  intros Hne. induction t as [|x t IH]; [reflexivity|]. simpl.
  destruct (in_session s x) eqn:Es; simpl.
  - rewrite IH. destruct (in_session s' x) eqn:Es'; [|reflexivity].
    unfold in_session in *. destruct (session_id x) as [sx|]; [|discriminate].
    apply pystr_eqb_eq in Es, Es'. congruence.
  - now rewrite IH.
Qed.

Lemma filter_deleted_session (s : pystr) (t : list row) :
  filter (in_session s) (filter (fun r => negb (in_session s r)) t) = [].
Proof.
  induction t as [|x t IH]; [reflexivity|]. simpl.
  destruct (in_session s x) eqn:Es; simpl; [exact IH|]. now rewrite Es.
Qed.

Lemma sorted_app {A} (R : A -> A -> Prop) (a b : list A) :
  StronglySorted R a -> StronglySorted R b ->
  (forall x y, In x a -> In y b -> R x y) ->
  StronglySorted R (a ++ b).
Proof.
  induction 1 as [|x a Ha IH Hx]; intros Hb Hab; simpl; [exact Hb|].
  constructor.
  - apply IH; [exact Hb|]. intros u v Hu Hv. apply Hab; [now right | exact Hv].
  - apply Forall_app. split; [exact Hx|].
    apply Forall_forall. intros y Hy. apply Hab; [now left | exact Hy].
Qed.

Lemma sorted_app_inv {A} (R : A -> A -> Prop) (a b : list A) :
  StronglySorted R (a ++ b) ->
  StronglySorted R a /\ StronglySorted R b /\
  (forall x y, In x a -> In y b -> R x y).
Proof.
  induction a as [|x a IH]; simpl; intros H.
  - repeat split; [constructor | exact H | intros x y []].
  - inversion H as [|? ? Hs Hx]; subst. destruct (IH Hs) as (Ha & Hb & Hab).
    apply Forall_app in Hx. destruct Hx as [Hxa Hxb].
    repeat split; [constructor; assumption | exact Hb |].
    intros u v [<-|Hu] Hv; [|now apply Hab].
    rewrite Forall_forall in Hxb. now apply Hxb.
Qed.

Lemma sorted_rev {A} (R : A -> A -> Prop) (l : list A) :
  StronglySorted R l -> StronglySorted (fun a b => R b a) (rev l).
Proof.
  induction 1 as [|x l Hl IH Hx]; simpl; [constructor|].
  apply sorted_app; [exact IH | repeat constructor |].
  intros u v Hu [<-|[]]. apply in_rev in Hu. rewrite Forall_forall in Hx. now apply Hx.
Qed.

Lemma sorted_map {A B} (R : B -> B -> Prop) (f : A -> B) (l : list A) :
  StronglySorted (fun a b => R (f a) (f b)) l -> StronglySorted R (map f l).
Proof.
  induction 1 as [|x l _ IH Hx]; simpl; constructor; [exact IH|].
  apply Forall_map. exact Hx.
Qed.

Lemma row_messages_length (svc : services) (rows : list row) :
  List.length (flat_map (row_messages svc) rows) = 2 * List.length rows.
Proof.
  induction rows as [|x rows IH]; [reflexivity|].
  cbn [flat_map]. rewrite length_app, IH. simpl. lia.
Qed.

Lemma same_session_id_eq (a b : option pystr) :
  same_session_id a b = true <-> a = b.
Proof.
  destruct a as [x|], b as [y|]; simpl; try (split; congruence).
  rewrite pystr_eqb_eq. split; congruence.
Qed.

(** [b] is as good an answer as [a]: rated higher, or rated the same and
    not older. *)
Definition not_better (a b : row) : Prop :=
  (rating a < rating b)%Z \/ (rating a = rating b /\ (timestamp a <= timestamp b)%Z).

(** The groups after the rows [seen]: one group a session id, each held
    by a row seen, of that session and not older than any seen of it. *)
Definition groups_of (seen groups : list row) : Prop :=
  NoDup (map session_id groups) /\
  (forall g, In g groups -> In g seen) /\
  (forall r, In r seen ->
     exists g, In g groups /\ session_id g = session_id r /\
               (timestamp r <= timestamp g)%Z).

(** The pattern made of the query is within the limit of [LIKE]. *)
Definition like_pattern_ok (q : pystr) : Prop :=
  (utf8_length (lit "%" ++ strip q ++ lit "%") <= like_pattern_limit)%N.

(** The query occurs in the text, the case of ASCII letters aside. *)
Definition occurs_in (q text : pystr) : Prop :=
  exists pre mid post, text = pre ++ mid ++ post /\ map sql_lower mid = map sql_lower q.

(** *** The queries, whichever way the engine orders rows of equal keys *)

Section Queries.

Variable svc : services.
Variable ties : Z -> Z -> bool.

Local Notation newer_first := (newer_first ties).
Local Notation insert_desc := (insert_desc ties).
Local Notation order_by_timestamp_desc := (order_by_timestamp_desc ties).
Local Notation select_session := (select_session ties).
Local Notation load_chat_history_from_db := (load_chat_history_from_db svc ties).
Local Notation load_query_history_from_db := (load_query_history_from_db ties).
Local Notation put_in_group := (put_in_group ties).
Local Notation group_by_session := (group_by_session ties).
Local Notation get_all_sessions := (get_all_sessions ties).
Local Notation goes_before := (goes_before ties).
Local Notation insert_rated := (insert_rated ties).
Local Notation order_by_rating_timestamp_desc := (order_by_rating_timestamp_desc ties).
Local Notation find_similar_interaction := (find_similar_interaction ties).

(** X11: after a session is deleted its listing is empty, whatever the
    limit; the listing of every other session is what it was; the rows
    that are gone are those of the session and no other. *)
Theorem delete_session_is_scoped (s : pystr) (limit : Z) (w : world) :
  exists w',
    delete_session s w = (Return tt, w') /\
    load_chat_history_from_db s limit w' = (Return [], w') /\
    (forall s', s' <> s ->
       fst (load_chat_history_from_db s' limit w')
       = fst (load_chat_history_from_db s' limit w)) /\
    (forall r, In r (interactions w') <->
               In r (interactions w) /\ session_id r <> Some s).
Proof.
  eexists. split; [reflexivity|]. split; [|split].
  - unfold load_chat_history_from_db, bind, get_world, ret, select_session. simpl.
    change (fun r : row => match session_id r with
                           | Some s0 => pystr_eqb s0 s
                           | None => false
                           end) with (in_session s).
    rewrite filter_deleted_session. unfold sql_limit. simpl.
    destruct (Z.ltb limit 0); [reflexivity|]. now rewrite firstn_nil.
  - intros s' Hne.
    unfold load_chat_history_from_db, bind, get_world, ret, select_session. simpl.
    change (fun r : row => match session_id r with
                           | Some s0 => pystr_eqb s0 s'
                           | None => false
                           end) with (in_session s').
    now rewrite filter_filter_session.
  - intros r. simpl. rewrite filter_In. unfold in_session.
    destruct (session_id r) as [sx|]; simpl.
    + destruct (pystr_eqb sx s) eqn:E; simpl.
      * apply pystr_eqb_eq in E. subst. split; [intros [_ H]; discriminate H|].
        intros [_ H]. now destruct H.
      * apply pystr_eqb_neq in E. split; [intros [H _]|intros [H _]]; split; auto.
        congruence.
    + split; [intros [H _]|intros [H _]]; split; auto. discriminate.
Qed.

(** *** The order of the rows *)

Lemma newer_first_true (a b : row) :
  newer_first a b = true -> (timestamp b <= timestamp a)%Z.
Proof.
  unfold newer_first. rewrite orb_true_iff, andb_true_iff, Z.ltb_lt, Z.eqb_eq. lia.
Qed.

Lemma newer_first_false (a b : row) :
  newer_first a b = false -> (timestamp a <= timestamp b)%Z.
Proof.
  unfold newer_first. rewrite orb_false_iff, Z.ltb_ge. intros [H _]. exact H.
Qed.

Lemma insert_desc_perm (r : row) (l : list row) :
  Permutation (r :: l) (insert_desc r l).
Proof.
  induction l as [|x l IH]; simpl; [apply Permutation_refl|].
  destruct (newer_first r x); [apply Permutation_refl|].
  eapply Permutation_trans; [apply perm_swap|]. now apply perm_skip.
Qed.

Lemma order_by_perm (t : list row) : Permutation t (order_by_timestamp_desc t).
Proof.
  induction t as [|x t IH]; [apply Permutation_refl|].
  unfold order_by_timestamp_desc in *. simpl.
  eapply Permutation_trans; [|apply insert_desc_perm]. now apply perm_skip.
Qed.

Lemma insert_desc_sorted (r : row) (l : list row) :
  StronglySorted not_newer l -> StronglySorted not_newer (insert_desc r l).
Proof.
  induction 1 as [|x l Hl IH Hx]; simpl; [repeat constructor|].
  destruct (newer_first r x) eqn:E.
  - apply newer_first_true in E. constructor; [constructor; assumption|].
    constructor; [exact E|].
    eapply Forall_impl; [|exact Hx]. unfold not_newer. intros y Hy. lia.
  - apply newer_first_false in E. constructor; [exact IH|].
    eapply Permutation_Forall; [apply insert_desc_perm|].
    constructor; [exact E | exact Hx].
Qed.

Lemma order_by_sorted (t : list row) :
  StronglySorted not_newer (order_by_timestamp_desc t).
Proof.
  induction t as [|x t IH]; [constructor|].
  unfold order_by_timestamp_desc in *. simpl. now apply insert_desc_sorted.
Qed.

(** X12: the listing of a session, for a limit that is not negative and
    whichever way the engine orders rows of equal timestamp, is made of
    rows of that session, two messages a row; there are as many rows as
    the session has, up to the limit; they come oldest first; and the
    rows left out are not newer than any row listed: the listing is of
    the last interactions of the session. *)
Theorem chat_history_is_latest (s : pystr) (limit : Z) (w : world) :
  (0 <= limit)%Z ->
  exists rows older,
    load_chat_history_from_db s limit w
    = (Return (flat_map (row_messages svc) rows), w) /\
    Permutation (filter (in_session s) (interactions w)) (rows ++ older) /\
    List.length rows
    = Nat.min (Z.to_nat limit) (List.length (filter (in_session s) (interactions w))) /\
    List.length (flat_map (row_messages svc) rows) = 2 * List.length rows /\
    StronglySorted (fun a b => (timestamp a <= timestamp b)%Z) rows /\
    (forall o x, In o older -> In x rows -> (timestamp o <= timestamp x)%Z).
Proof.
  intros Hlimit.
  set (session_rows := filter (in_session s) (interactions w)).
  set (sorted := order_by_timestamp_desc session_rows).
  set (n := Z.to_nat limit).
  exists (rev (firstn n sorted)), (skipn n sorted).
  assert (Hsel : select_session s limit (interactions w) = firstn n sorted).
  { unfold select_session, sql_limit.
    destruct (Z.ltb_spec limit 0); [lia | reflexivity]. }
  pose proof (order_by_sorted session_rows) as Hsorted. fold sorted in Hsorted.
  rewrite <- (firstn_skipn n sorted) in Hsorted.
  destruct (sorted_app_inv _ _ Hsorted) as (Hfirst & _ & Hcross).
  split; [|split; [|split; [|split; [|split]]]].
  - unfold load_chat_history_from_db, bind, get_world, ret. now rewrite Hsel.
  - eapply Permutation_trans; [apply order_by_perm|]. fold sorted.
    rewrite <- (firstn_skipn n sorted) at 1.
    apply Permutation_app_tail, Permutation_rev.
  - rewrite length_rev, length_firstn. unfold sorted.
    now rewrite <- (Permutation_length (order_by_perm session_rows)).
  - apply row_messages_length.
  - exact (sorted_rev Hfirst).
  - intros o x Ho Hx. apply in_rev in Hx. exact (Hcross x o Hx Ho).
Qed.

(** *** Similar rated interactions *)

Lemma goes_before_true (a b : row) : goes_before a b = true -> not_better b a.
Proof.
  unfold goes_before, not_better.
  rewrite orb_true_iff, andb_true_iff, Z.ltb_lt, Z.eqb_eq.
  intros [H|[H E]]; [now left|]. apply newer_first_true in E. right. lia.
Qed.

Lemma goes_before_false (a b : row) : goes_before a b = false -> not_better a b.
Proof.
  unfold goes_before, not_better.
  rewrite orb_false_iff, andb_false_iff, Z.ltb_ge, Z.eqb_neq.
  intros [H [E|E]]; [left; lia|].
  apply newer_first_false in E. lia.
Qed.

Lemma insert_rated_perm (r : row) (l : list row) :
  Permutation (r :: l) (insert_rated r l).
Proof.
  induction l as [|x l IH]; simpl; [apply Permutation_refl|].
  destruct (goes_before r x); [apply Permutation_refl|].
  eapply Permutation_trans; [apply perm_swap|]. now apply perm_skip.
Qed.

Lemma order_rated_perm (t : list row) :
  Permutation t (order_by_rating_timestamp_desc t).
Proof.
  induction t as [|x t IH]; [apply Permutation_refl|].
  unfold order_by_rating_timestamp_desc in *. simpl.
  eapply Permutation_trans; [|apply insert_rated_perm]. now apply perm_skip.
Qed.

(** The first row of the order is as good as any. *)
Lemma order_rated_head (t : list row) (b : row) (rest : list row) :
  order_by_rating_timestamp_desc t = b :: rest ->
  Forall (fun x => not_better x b) t.
Proof.
  revert b rest. induction t as [|r t IH]; intros b rest; [discriminate|].
  unfold order_by_rating_timestamp_desc in *. simpl.
  destruct (fold_right insert_rated [] t) as [|x l] eqn:E.
  - pose proof (order_rated_perm t) as P.
    unfold order_by_rating_timestamp_desc in P. rewrite E in P.
    apply Permutation_sym, Permutation_nil in P. subst t. simpl. intros [= <- <-].
    constructor; [|constructor]. unfold not_better. lia.
  - specialize (IH x l eq_refl). simpl.
    destruct (goes_before r x) eqn:Hrx.
    + intros [= <- <-]. constructor; [unfold not_better; lia|].
      eapply Forall_impl; [|exact IH]. intros y Hy.
      apply goes_before_true in Hrx. unfold not_better in *. lia.
    + intros [= <- <-]. constructor; [now apply goes_before_false | exact IH].
Qed.

Lemma check_like_pattern_ok (q : pystr) (w : world) :
  like_pattern_ok q ->
  check_like_pattern (lit "%" ++ strip q ++ lit "%") w = (Return tt, w).
Proof.
  intros Hok. unfold check_like_pattern, bind, get_world.
  destruct (interactions w); [reflexivity|].
  apply N.ltb_ge in Hok. now rewrite Hok.
Qed.

(** What [find_similar_interaction] returns, by the rows that match. *)
Lemma find_similar_cases (q : pystr) (w : world) :
  like_pattern_ok q ->
  let pattern := lit "%" ++ strip q ++ lit "%" in
  (find_similar_interaction q w = (Return PNone, w) /\
   forall r, In r (interactions w) -> rated_match pattern r = false) \/
  (exists best,
      In best (interactions w) /\
      rated_match pattern best = true /\
      find_similar_interaction q w =
      (Return (PDict [(lit "past_question", PStr (user_prompt best));
                      (lit "past_answer", sql_text (llm_response best))]), w) /\
      forall r, In r (interactions w) -> rated_match pattern r = true ->
                not_better r best).
Proof.
  intros Hok pattern. unfold find_similar_interaction.
  erewrite bind_return; [|reflexivity]. cbv zeta. fold pattern.
  rewrite (bind_return _ (check_like_pattern_ok w Hok)).
  pose proof (order_rated_perm (filter (rated_match pattern) (interactions w))) as P.
  destruct (order_by_rating_timestamp_desc
              (filter (rated_match pattern) (interactions w))) as [|b rest] eqn:E.
  - left. split; [reflexivity|]. intros r Hr.
    apply Permutation_sym, Permutation_nil in P.
    destruct (rated_match pattern r) eqn:Hm; [|reflexivity].
    assert (Hin : In r (filter (rated_match pattern) (interactions w)))
      by (apply filter_In; auto).
    rewrite P in Hin. destruct Hin.
  - right. exists b.
    assert (Hb : In b (filter (rated_match pattern) (interactions w))).
    { eapply Permutation_in; [apply Permutation_sym; exact P | now left]. }
    apply filter_In in Hb. destruct Hb as [Hin Hm].
    split; [exact Hin|]. split; [exact Hm|]. split; [reflexivity|].
    intros r Hr Hrm. pose proof (order_rated_head _ E) as Hhead.
    rewrite Forall_forall in Hhead. apply Hhead. apply filter_In. auto.
Qed.

(** X13: for a query whose pattern is within the limit of [LIKE], and
    whichever way the engine orders rows of equal rating and timestamp,
    [find_similar_interaction] returns [None] exactly when no row with a
    rating of 1 or more has a prompt like the query; otherwise it returns
    the question and the answer of such a row, one that no other such row
    beats: none has a greater rating, and none of the same rating is
    newer.  Rows not rated, or rated down, are never returned. *)
Theorem find_similar_returns_best_rated (q : pystr) (w : world) :
  like_pattern_ok q ->
  (find_similar_interaction q w = (Return PNone, w) /\
   forall r, In r (interactions w) ->
             sql_like (lit "%" ++ strip q ++ lit "%") (user_prompt r) = true ->
             (rating r < 1)%Z) \/
  (exists best,
      In best (interactions w) /\
      sql_like (lit "%" ++ strip q ++ lit "%") (user_prompt best) = true /\
      (1 <= rating best)%Z /\
      find_similar_interaction q w =
      (Return (PDict [(lit "past_question", PStr (user_prompt best));
                      (lit "past_answer", sql_text (llm_response best))]), w) /\
      forall r, In r (interactions w) ->
                sql_like (lit "%" ++ strip q ++ lit "%") (user_prompt r) = true ->
                (1 <= rating r)%Z ->
                (rating r < rating best)%Z \/
                (rating r = rating best /\ (timestamp r <= timestamp best)%Z)).
Proof.
  intros Hok.
  destruct (find_similar_cases w Hok) as [[E Hnone]|(best & Hin & Hm & E & Hbest)].
  - left. split; [exact E|]. intros r Hr Hlike. specialize (Hnone r Hr).
    unfold rated_match in Hnone. rewrite Hlike in Hnone. simpl in Hnone.
    apply Z.leb_gt in Hnone. exact Hnone.
  - right. exists best. unfold rated_match in Hm.
    apply andb_true_iff in Hm. destruct Hm as [Hlike Hrated].
    apply Z.leb_le in Hrated. repeat split; try assumption.
    intros r Hr Hl Hr1. apply Hbest; [exact Hr|].
    unfold rated_match. rewrite Hl. simpl. now apply Z.leb_le.
Qed.

(** *** [LIKE] and the query *)

Lemma like_match_percent (p s : pystr) :
  like_match (37%N :: p) s =
  like_match p s || match s with
                    | [] => false
                    | _ :: s' => like_match (37%N :: p) s'
                    end.
Proof. destruct s; reflexivity. Qed.

Lemma like_match_one (c : char) (p s : pystr) :
  c <> 37%N ->
  like_match (c :: p) s =
  match s with
  | [] => false
  | d :: s' => ((c =? 95)%N || (sql_lower c =? sql_lower d)%N) && like_match p s'
  end.
Proof.
  intros Hc. simpl. destruct (N.eqb_spec c 37); [contradiction | reflexivity].
Qed.

(** [%] at the head: the rest of the pattern matches what is left after
    some prefix of the text. *)
Lemma like_match_any (p s : pystr) :
  like_match (37%N :: p) s = true <->
  exists pre suf, s = pre ++ suf /\ like_match p suf = true.
Proof.
  induction s as [|d s IH]; rewrite like_match_percent, orb_true_iff.
  - split.
    + intros [H|H]; [|discriminate]. now exists [], [].
    + intros (pre & suf & E & H). symmetry in E. apply app_eq_nil in E.
      destruct E as [-> ->]. now left.
  - split.
    + intros [H|H]; [now exists [], (d :: s)|].
      apply IH in H. destruct H as (pre & suf & -> & H). now exists (d :: pre), suf.
    + intros (pre & suf & E & H). destruct pre as [|x pre]; simpl in E.
      * left. now subst.
      * right. injection E as -> ->. apply IH. now exists pre, suf.
Qed.

Lemma like_match_all (s : pystr) : like_match [37%N] s = true.
Proof. apply like_match_any. exists s, []. now rewrite app_nil_r. Qed.

(** A stretch of pattern without wildcard: it matches a stretch of text
    of the same code points, up to the case of ASCII letters. *)
Lemma like_match_literal (q p : pystr) :
  Forall (fun c => c <> 37%N /\ c <> 95%N) q ->
  forall s,
    like_match (q ++ p) s = true <->
    exists mid rest, s = mid ++ rest /\
                     map sql_lower mid = map sql_lower q /\
                     like_match p rest = true.
Proof.
  induction 1 as [|c q [H37 H95] _ IH]; intros s.
  - simpl. split; [intros H; now exists [], s|].
    intros (mid & rest & -> & Hm & H). destruct mid; [exact H | discriminate Hm].
  - simpl app. rewrite like_match_one by exact H37.
    destruct (N.eqb_spec c 95) as [|_]; [contradiction|]. simpl orb.
    destruct s as [|d s].
    + split; [discriminate|]. intros (mid & rest & E & Hm & _).
      destruct mid; [discriminate Hm | discriminate E].
    + rewrite andb_true_iff, N.eqb_eq, IH. split.
      * intros (Hc & mid & rest & -> & Hm & H). exists (d :: mid), rest.
        simpl. rewrite Hm, Hc. auto.
      * intros (mid & rest & E & Hm & H). destruct mid as [|x mid]; [discriminate Hm|].
        simpl in E, Hm. injection E as -> ->. injection Hm as Hc Hm.
        split; [congruence|]. now exists mid, rest.
Qed.

Lemma until_nul_same (s : pystr) : Forall (fun c => c <> 0%N) s -> until_nul s = s.
Proof.
  induction 1 as [|c s Hc _ IH]; [reflexivity|]. simpl.
  destruct (N.eqb_spec c 0); [contradiction | now rewrite IH].
Qed.

(** The pattern made of a query without wildcard and without NUL: a text
    is like it exactly when the query occurs in what [LIKE] reads of the
    text. *)
Lemma sql_like_occurs (q text : pystr) :
  Forall (fun c => c <> 37%N /\ c <> 95%N /\ c <> 0%N) q ->
  sql_like (lit "%" ++ q ++ lit "%") text = true <-> occurs_in q (until_nul text).
Proof.
  intros Hq.
  assert (Hwild : Forall (fun c => c <> 37%N /\ c <> 95%N) q)
    by (eapply Forall_impl; [|exact Hq]; simpl; tauto).
  assert (Hnul : Forall (fun c => c <> 0%N) (lit "%" ++ q ++ lit "%")).
  { change (lit "%" ++ q ++ lit "%") with (37%N :: q ++ [37%N]).
    constructor; [discriminate|]. apply Forall_app. split.
    - eapply Forall_impl; [|exact Hq]. simpl. tauto.
    - constructor; [discriminate | constructor]. }
  unfold sql_like, occurs_in. rewrite (until_nul_same Hnul).
  change (lit "%" ++ q ++ lit "%") with (37%N :: q ++ [37%N]).
  rewrite like_match_any. split.
  - intros (pre & suf & -> & H). apply (like_match_literal [37%N] Hwild) in H.
    destruct H as (mid & rest & -> & Hm & _). now exists pre, mid, rest.
  - intros (pre & mid & post & -> & Hm). exists pre, (mid ++ post). split; [reflexivity|].
    apply (like_match_literal [37%N] Hwild). exists mid, post.
    repeat split; [exact Hm | apply like_match_all].
Qed.

(** X14: the query goes into the pattern as it is, trimmed, between two
    [%].  When it holds no [%], no [_] and no NUL and the pattern is
    within the limit of [LIKE], [find_similar_interaction] returns [None]
    exactly when the query occurs, the case of ASCII letters aside, in the
    prompt of no row with a rating of 1 or more (in what comes before the
    first NUL of the prompt, if it has one). *)
Theorem like_is_containment (q : pystr) (w : world) :
  Forall (fun c => c <> 37%N /\ c <> 95%N /\ c <> 0%N) (strip q) ->
  like_pattern_ok q ->
  find_similar_interaction q w = (Return PNone, w) <->
  forall r, In r (interactions w) -> (1 <= rating r)%Z ->
            ~ occurs_in (strip q) (until_nul (user_prompt r)).
Proof.
  intros Hq Hok.
  destruct (find_similar_cases w Hok) as [[E Hnone]|(best & Hin & Hm & E & _)].
  - split; [|intros _; exact E]. intros _ r Hr Hrated Hocc.
    specialize (Hnone r Hr). unfold rated_match in Hnone.
    apply (sql_like_occurs (user_prompt r) Hq) in Hocc. rewrite Hocc in Hnone.
    apply Z.leb_le in Hrated. rewrite Hrated in Hnone. discriminate Hnone.
  - rewrite E. split; [discriminate|]. intros Hall. exfalso.
    unfold rated_match in Hm. apply andb_true_iff in Hm. destruct Hm as [Hlike Hrated].
    apply Z.leb_le in Hrated. apply (Hall best Hin Hrated).
    now apply (sql_like_occurs (user_prompt best) Hq).
Qed.

Lemma lstrip_spaces (sp a : pystr) :
  Forall (fun c => is_space c = true) sp -> lstrip (sp ++ a) = lstrip a.
Proof. induction 1 as [|c sp Hc _ IH]; [reflexivity|]. simpl. now rewrite Hc. Qed.

Lemma lstrip_shape (a : pystr) :
  exists sp, Forall (fun c => is_space c = true) sp /\ a = sp ++ lstrip a /\
             (lstrip a = [] \/ exists c r, lstrip a = c :: r /\ is_space c = false).
Proof.
  induction a as [|c a (sp & Hsp & Ha & Hl)]; [exists []; simpl; auto|].
  simpl. destruct (is_space c) eqn:Hc.
  - exists (c :: sp). split; [constructor; assumption|]. split; [|exact Hl].
    simpl. now rewrite <- Ha.
  - exists []. split; [constructor|]. split; [reflexivity|]. right. eauto.
Qed.

Lemma strip_surrounded (pre q post : pystr) :
  Forall (fun c => is_space c = true) pre ->
  Forall (fun c => is_space c = true) post ->
  strip (pre ++ q ++ post) = strip q.
Proof.
  intros Hpre Hpost. unfold strip. rewrite (lstrip_spaces _ Hpre). f_equal.
  assert (Hrev : Forall (fun c => is_space c = true) (rev post)).
  { apply Forall_forall. intros c Hc. apply in_rev in Hc.
    rewrite Forall_forall in Hpost. now apply Hpost. }
  destruct (lstrip_shape q) as (sp & Hsp & Hq & [Hnil|(c & r & Hcr & Hc)]).
  - rewrite Hnil in *. rewrite app_nil_r in Hq. subst q.
    rewrite (lstrip_spaces _ Hsp).
    replace (lstrip post) with (lstrip (post ++ [])) by now rewrite app_nil_r.
    destruct (lstrip_shape post) as (sp' & Hsp' & Hp & Hl).
    rewrite app_nil_r. simpl.
    destruct Hl as [->|(c & r & Hcr & Hc)]; [reflexivity|].
    rewrite Hcr. rewrite Hcr in Hp. clear Hcr.
    exfalso. rewrite Forall_forall in Hpost.
    assert (is_space c = true) by (apply Hpost; rewrite Hp; apply in_or_app; right; now left).
    congruence.
  - rewrite Hq at 1. rewrite <- app_assoc, (lstrip_spaces _ Hsp), Hcr. simpl.
    rewrite Hc. change (c :: r ++ post) with ((c :: r) ++ post).
    rewrite rev_app_distr. now rewrite (lstrip_spaces _ Hrev).
Qed.

(** X15: the query is trimmed before it is looked for: white space around
    it changes nothing to what [find_similar_interaction] returns. *)
Theorem find_similar_ignores_surrounding_space (pre q post : pystr) (w : world) :
  Forall (fun c => is_space c = true) pre ->
  Forall (fun c => is_space c = true) post ->
  find_similar_interaction (pre ++ q ++ post) w = find_similar_interaction q w.
Proof.
  intros Hpre Hpost. unfold find_similar_interaction.
  now rewrite (strip_surrounded q Hpre Hpost).
Qed.

(** X16: a query of white space only, the empty one among them, is like
    every prompt: when some row has a rating of 1 or more,
    [find_similar_interaction] returns one of greatest rating in the whole
    table, whatever its prompt; it returns [None] only when no row is
    rated 1 or more. *)
Theorem blank_query_matches_everything (q : pystr) (w : world) :
  Forall (fun c => is_space c = true) q ->
  (find_similar_interaction q w = (Return PNone, w) /\
   Forall (fun r => (rating r < 1)%Z) (interactions w)) \/
  (exists best,
      In best (interactions w) /\ (1 <= rating best)%Z /\
      find_similar_interaction q w =
      (Return (PDict [(lit "past_question", PStr (user_prompt best));
                      (lit "past_answer", sql_text (llm_response best))]), w) /\
      Forall (fun r => (rating r <= rating best)%Z) (interactions w)).
Proof.
  intros Hq.
  assert (Hstrip : strip q = []).
  { replace q with ([] ++ [] ++ q) by reflexivity.
    rewrite (strip_surrounded [] (Forall_nil _) Hq). reflexivity. }
  assert (Hok : like_pattern_ok q).
  { unfold like_pattern_ok. rewrite Hstrip. vm_compute. discriminate. }
  assert (Hall : forall r, rated_match (lit "%" ++ strip q ++ lit "%") r
                           = Z.leb 1 (rating r)).
  { intros r. unfold rated_match, sql_like. rewrite Hstrip.
    change (until_nul (lit "%" ++ [] ++ lit "%")) with [37%N; 37%N].
    replace (like_match [37%N; 37%N] (until_nul (user_prompt r))) with true;
      [reflexivity|].
    symmetry. apply like_match_any. exists [], (until_nul (user_prompt r)).
    split; [reflexivity | apply like_match_all]. }
  destruct (find_similar_cases w Hok) as [[E Hnone]|(best & Hin & Hm & E & Hbest)].
  - left. split; [exact E|]. apply Forall_forall. intros r Hr.
    specialize (Hnone r Hr). rewrite Hall in Hnone. now apply Z.leb_gt in Hnone.
  - right. exists best. rewrite Hall in Hm. apply Z.leb_le in Hm.
    repeat split; try assumption. apply Forall_forall. intros r Hr.
    destruct (Z.leb_spec 1 (rating r)) as [H1|H1]; [|lia].
    assert (Hgb : not_better r best).
    { apply Hbest; [exact Hr|]. rewrite Hall. now apply Z.leb_le. }
    unfold not_better in Hgb. lia.
Qed.

(** *** The sessions *)

Lemma put_in_group_ids (r : row) (groups : list row) :
  (In (session_id r) (map session_id groups) ->
   map session_id (put_in_group r groups) = map session_id groups) /\
  (~ In (session_id r) (map session_id groups) ->
   map session_id (put_in_group r groups) = map session_id groups ++ [session_id r]).
Proof.
  induction groups as [|g gs [IHin IHout]]; simpl.
  - split; [intros [] | reflexivity].
  - destruct (same_session_id (session_id g) (session_id r)) eqn:E.
    + apply same_session_id_eq in E. split.
      * intros _. destruct (newer_first r g); simpl; congruence.
      * intros H. destruct H. now left.
    + assert (Hne : session_id g <> session_id r).
      { intros H. apply same_session_id_eq in H. congruence. }
      simpl. split.
      * intros [H|H]; [contradiction|]. now rewrite IHin.
      * intros H. rewrite IHout; [reflexivity|]. intros Hin. apply H. now right.
Qed.

Lemma put_in_group_members (r : row) (groups : list row) :
  (forall g, In g (put_in_group r groups) -> g = r \/ In g groups) /\
  (forall g, In g (r :: groups) ->
     exists g', In g' (put_in_group r groups) /\ session_id g' = session_id g /\
                (timestamp g <= timestamp g')%Z).
Proof.
  induction groups as [|g gs [IHa IHb]]; simpl.
  - split; [intros g [<-|[]]; now left|].
    intros g [<-|[]]. exists r. repeat split; [now left | lia].
  - destruct (same_session_id (session_id g) (session_id r)) eqn:E.
    + apply same_session_id_eq in E.
      destruct (newer_first r g) eqn:Hn;
        [apply newer_first_true in Hn | apply newer_first_false in Hn]; split.
      * intros x [<-|H]; auto.
      * intros x [<-|[<-|H]].
        -- exists r. repeat split; [now left | lia].
        -- exists r. repeat split; [now left | congruence | lia].
        -- exists x. repeat split; [now right | lia].
      * intros x [<-|H]; auto.
      * intros x [<-|[<-|H]].
        -- exists g. repeat split; [now left | congruence | lia].
        -- exists g. repeat split; [now left | lia].
        -- exists x. repeat split; [now right | lia].
    + split.
      * intros x [<-|H]; [auto|]. destruct (IHa x H); auto.
      * intros x [<-|[<-|H]].
        -- destruct (IHb r (or_introl eq_refl)) as (g' & Hg' & Hs & Ht).
           exists g'. repeat split; [now right | exact Hs | exact Ht].
        -- exists g. repeat split; [now left | lia].
        -- destruct (IHb x (or_intror H)) as (g' & Hg' & Hs & Ht).
           exists g'. repeat split; [now right | exact Hs | exact Ht].
Qed.

Lemma put_in_group_ok (r : row) (seen groups : list row) :
  groups_of seen groups -> groups_of (seen ++ [r]) (put_in_group r groups).
Proof.
  intros (Hnd & Hsub & Hcover).
  destruct (put_in_group_ids r groups) as [Hin Hout].
  destruct (put_in_group_members r groups) as [Hmem Hup].
  split; [|split].
  - assert (Hdec : forall a b : option pystr, {a = b} + {a <> b})
      by (decide equality; apply (list_eq_dec N.eq_dec)).
    destruct (in_dec Hdec (session_id r) (map session_id groups)) as [H|H].
    + now rewrite Hin.
    + rewrite Hout by exact H. apply NoDup_app; [exact Hnd | repeat constructor; auto |].
      intros a Ha [<-|[]]. contradiction.
  - intros g Hg. apply in_or_app. destruct (Hmem g Hg) as [->|H]; [right; now left|].
    left. now apply Hsub.
  - intros x Hx. apply in_app_or in Hx. destruct Hx as [Hx|[<-|[]]].
    + destruct (Hcover x Hx) as (g & Hg & Hs & Ht).
      destruct (Hup g (or_intror Hg)) as (g' & Hg' & Hs' & Ht').
      exists g'. repeat split; [exact Hg' | congruence | lia].
    + exact (Hup r (or_introl eq_refl)).
Qed.

Lemma group_by_session_ok (t : list row) :
  forall seen groups,
    groups_of seen groups ->
    groups_of (seen ++ t) (fold_left (fun groups r => put_in_group r groups) t groups).
Proof.
  induction t as [|r t IH]; intros seen groups H; simpl.
  - now rewrite app_nil_r.
  - change (seen ++ r :: t) with (seen ++ [r] ++ t). rewrite app_assoc.
    apply IH. now apply put_in_group_ok.
Qed.

(** X17: [get_all_sessions], whichever way the engine orders sessions of
    equal last activity and whichever row of greatest timestamp it takes
    the prompt of a session from, lists every session of the table once
    and no other; beside each, the timestamp of its newest row, which no
    row of the session exceeds, and the prompt of a row that has that
    timestamp; the sessions come most recently active first. *)
Theorem sessions_listed_once (w : world) :
  exists listing,
    get_all_sessions w = (Return listing, w) /\
    NoDup (map sr_session_id listing) /\
    (forall r, In r (interactions w) ->
       exists e, In e listing /\ sr_session_id e = session_id r /\
                 (timestamp r <= sr_last_active e)%Z) /\
    (forall e, In e listing ->
       exists r, In r (interactions w) /\ session_id r = sr_session_id e /\
                 timestamp r = sr_last_active e /\ user_prompt r = sr_user_prompt e) /\
    StronglySorted (fun a b => (sr_last_active b <= sr_last_active a)%Z) listing.
Proof.
  eexists. split; [reflexivity|].
  assert (H0 : groups_of [] []).
  { split; [constructor|]. split; intros ? []. }
  pose proof (group_by_session_ok (interactions w) H0) as (Hnd & Hsub & Hcover).
  simpl in Hsub, Hcover. fold (group_by_session (interactions w)) in *.
  pose proof (order_by_perm (group_by_session (interactions w))) as P.
  split; [|split; [|split]].
  - rewrite map_map. simpl.
    eapply Permutation_NoDup; [apply Permutation_map; exact P | exact Hnd].
  - intros r Hr. destruct (Hcover r Hr) as (g & Hg & Hs & Ht).
    exists (mkSessionRow (session_id g) (timestamp g) (user_prompt g)).
    split; [|split; [exact Hs | exact Ht]].
    apply in_map_iff. exists g. split; [reflexivity|].
    eapply Permutation_in; [exact P | exact Hg].
  - intros e He. apply in_map_iff in He. destruct He as (g & <- & Hg).
    exists g. simpl. repeat split.
    apply Hsub. eapply Permutation_in; [apply Permutation_sym; exact P | exact Hg].
  - apply sorted_map. simpl. apply order_by_sorted.
Qed.

(** X18: the history of queries for the dashboard, for a limit that is not
    negative and whichever way the engine orders rows of equal timestamp,
    has one entry a row, as many as the table has rows up to the limit;
    the entries are the prompts of the newest rows, newest first, and
    each is typed "RAG Agent". *)
Theorem query_history_is_latest (limit : Z) (w : world) :
  (0 <= limit)%Z ->
  exists rows older,
    load_query_history_from_db limit w
    = (Return (map (fun r => [(lit "Query", PStr (user_prompt r));
                              (lit "Type", PStr (lit "RAG Agent"))]) rows), w) /\
    Permutation (interactions w) (rows ++ older) /\
    List.length rows = Nat.min (Z.to_nat limit) (List.length (interactions w)) /\
    StronglySorted not_newer rows /\
    (forall o x, In o older -> In x rows -> (timestamp o <= timestamp x)%Z).
Proof.
  intros Hlimit.
  set (sorted := order_by_timestamp_desc (interactions w)).
  set (n := Z.to_nat limit).
  exists (firstn n sorted), (skipn n sorted).
  pose proof (order_by_sorted (interactions w)) as Hsorted. fold sorted in Hsorted.
  rewrite <- (firstn_skipn n sorted) in Hsorted.
  destruct (sorted_app_inv _ _ Hsorted) as (Hfirst & _ & Hcross).
  split; [|split; [|split; [|split]]].
  - unfold load_query_history_from_db, bind, get_world, ret, sql_limit.
    destruct (Z.ltb_spec limit 0); [lia | reflexivity].
  - rewrite firstn_skipn. apply order_by_perm.
  - rewrite length_firstn. unfold sorted.
    now rewrite <- (Permutation_length (order_by_perm (interactions w))).
  - exact Hfirst.
  - intros o x Ho Hx. exact (Hcross x o Hx Ho).
Qed.

End Queries.

(** ** The orchestrator, further *)

Lemma bind_raise {A B} (m : M A) (k : A -> M B) (w w' : world) (e : exn) :
  m w = (Raise e, w') -> bind m k w = (Raise e, w').
Proof. intros H. unfold bind. now rewrite H. Qed.

Arguments bind_raise {A B} [m] k [w w' e] _.

Lemma contains_app (p pre post : pystr) : contains p (pre ++ p ++ post) = true.
Proof.
  induction pre as [|c pre IH]; simpl.
  - apply startswith_contains, startswith_app.
  - rewrite IH. apply orb_true_r.
Qed.

(** X19: the error marker is looked for anywhere in the context text of
    the web search, not only at its head: a text in which "Error" occurs
    at any place is shown as an error, and the results that came with it
    are neither cited nor indexed. *)
Theorem error_word_anywhere (pre post : pystr) (web_results : list WebResult)
        (context_text : pystr) (sources : list pyval) (w : world) :
  use_web_results (pre ++ lit "Error" ++ post) web_results context_text sources w =
  (Return (context_text, sources),
   with_screen w (screen w ++ [UiError (pre ++ lit "Error" ++ post)])).
Proof. unfold use_web_results. now rewrite contains_app. Qed.

(** The Document Store has what it had, in its order, and maybe more. *)
Definition store_grows (w w' : world) : Prop :=
  exists added, stored w' = stored w ++ added.

Lemma stored_same (w w' : world) : vector_store w' = vector_store w -> stored w' = stored w.
Proof. unfold stored. now intros ->. Qed.

Lemma store_grows_refl (w : world) : store_grows w w.
Proof. exists []. now rewrite app_nil_r. Qed.

Lemma store_grows_trans (a b c : world) :
  store_grows a b -> store_grows b c -> store_grows a c.
Proof.
  intros [x Hx] [y Hy]. exists (x ++ y). now rewrite Hy, Hx, app_assoc.
Qed.

Lemma store_grows_calls (w : world) (c : list call) : store_grows w (after_calls w c).
Proof. exists []. now rewrite app_nil_r. Qed.

Lemma store_grows_screen (w : world) (u : list ui_event) :
  store_grows w (with_screen w u).
Proof. exists []. now rewrite app_nil_r. Qed.

Lemma quiet_store_grows (w w' : world) : quiet w w' -> store_grows w w'.
Proof.
  intros (_ & _ & _ & _ & V & _). exists []. rewrite app_nil_r. now apply stored_same.
Qed.

Lemma use_web_results_store ctx results context_text sources (w : world) :
  exists r w',
    use_web_results ctx results context_text sources w = (Return r, w') /\
    stored w' =
    stored w ++ (if contains (lit "Error") ctx then [] else map web_document results).
Proof.
  unfold use_web_results. destruct (contains (lit "Error") ctx).
  - do 2 eexists. split; [reflexivity|]. now rewrite app_nil_r.
  - destruct results as [|r0 rs].
    + do 2 eexists. split; [reflexivity|]. now rewrite app_nil_r.
    + do 2 eexists. split; reflexivity.
Qed.

Ltac growing :=
  repeat first
    [ apply keeps_ret; [exact store_grows_refl]
    | apply keeps_show; [exact store_grows_screen]
    | apply keeps_get_world; [exact store_grows_refl]
    | apply keeps_external; [exact store_grows_calls]
    | apply keeps_unrecorded; [exact store_grows_refl]
    | apply keeps_dict_item; [exact store_grows_refl]
    | apply keeps_bind; [exact store_grows_trans | | intros ?] ].

Section MoreOrchestratorProperties.

Variable unicode_isalnum : char -> bool.
Variable unicode_isdecimal : char -> bool.
Variable svc : services.

Local Notation plan_answer := (plan_answer unicode_isalnum unicode_isdecimal svc).
Local Notation handle_prompt := (handle_prompt unicode_isalnum unicode_isdecimal svc).

Lemma dynamic_rag_store_grows (q : pystr) : keeps store_grows (dynamic_rag svc q).
Proof.
  unfold dynamic_rag.
  apply keeps_bind; [exact store_grows_trans | | intros graded].
  { eapply keeps_weaken; [exact quiet_store_grows | apply retrieve_and_grade_quiet]. }
  apply keeps_bind; [exact store_grows_trans | | intros found].
  - unfold vector_or_web. destruct (eq_str (snd graded) (lit "yes")); [growing|].
    apply keeps_bind; [exact store_grows_trans | | intros r; growing].
    unfold web_fallback.
    apply keeps_bind; [exact store_grows_trans | growing | intros _].
    apply keeps_bind; [exact store_grows_trans | | intros found].
    + eapply keeps_weaken; [exact quiet_store_grows | apply search_web_quiet].
    + intros w. destruct (use_web_results_store (fst found) (snd found) [] [] w)
        as (r & w' & E & S).
      rewrite E. simpl. eexists. exact S.
  - cbv zeta. apply keeps_bind; [exact store_grows_trans | | intros sp; growing].
    intros w. rewrite rag_system_prompt_same. apply store_grows_refl.
Qed.

Lemma plan_answer_store_grows (q : pystr) : keeps store_grows (plan_answer q).
Proof.
  unfold plan_answer.
  apply keeps_bind; [exact store_grows_trans | growing | intros w0].
  apply keeps_bind; [exact store_grows_trans | | intros decision].
  - eapply keeps_weaken; [exact quiet_store_grows|].
    apply returns_keeps, router_quiet.
  - apply keeps_bind; [exact store_grows_trans | growing | intros strategy].
    destruct (eq_str strategy (value DIRECT_LLM)); [growing|].
    apply dynamic_rag_store_grows.
Qed.

(** A plan of dynamic RAG that is not of web search has left the store
    alone. *)
Lemma dynamic_rag_store_same (q : pystr) (w w' : world)
      (plan : pystr * pystr * pystr * list pyval) :
  dynamic_rag svc q w = (Return plan, w') ->
  fst (fst (fst plan)) <> value WEB_SEARCH ->
  vector_store w' = vector_store w.
Proof.
  unfold dynamic_rag. unfold bind at 1.
  pose proof (retrieve_and_grade_quiet svc q w) as Q1.
  destruct (retrieve_and_grade svc q w) as [[graded|e|] w1]; [|discriminate|discriminate].
  destruct Q1 as (_ & _ & _ & _ & V1 & _). simpl in V1.
  unfold bind at 1, vector_or_web.
  destruct (eq_str (snd graded) (lit "yes")).
  - erewrite bind_return; [|reflexivity]. unfold ret at 1. cbv zeta. unfold bind at 1.
    pose proof (rag_system_prompt_same svc (fst (snd
      (value VECTOR_BASED,
        (nl ++ nl ++ lit "**Retrieved Documents:**" ++ nl
            ++ List.concat (map (document_context svc) (fst graded)),
         map doc_value (fst graded)))))
      (with_screen w1 (screen w1 ++ [UiToast (lit "Relevance Grade: " ++ [9989%N]
                                              ++ lit " Relevant")]))) as S.
    match goal with
    | |- context [rag_system_prompt svc ?c ?x] =>
        change (snd (rag_system_prompt svc c x) = x) in S;
        destruct (rag_system_prompt svc c x) as [[sp|e|] w3]
    end; [|discriminate|discriminate].
    simpl in S. subst w3. intros [= <- <-] _. simpl. exact V1.
  - unfold bind at 1.
    destruct (web_fallback svc q [] [] w1) as [[r|e|] w2]; [|discriminate|discriminate].
    unfold ret at 1. cbv zeta. unfold bind at 1.
    destruct (rag_system_prompt svc (fst (snd (value WEB_SEARCH, r))) w2)
      as [[sp|e|] w3]; [|discriminate|discriminate].
    intros [= <- <-] H. now destruct H.
Qed.

(** X20: the Document Store grows on the web path only.  However the plan
    of a turn ends, the store has lost no chunk; and when the plan is
    made and its strategy is not web search, the store is exactly what
    it was. *)
Theorem store_grows_on_web_only (q : pystr) (w : world) :
  (exists added, stored (snd (plan_answer q w)) = stored w ++ added) /\
  (forall plan w',
      plan_answer q w = (Return plan, w') ->
      fst (fst (fst plan)) <> value WEB_SEARCH ->
      vector_store w' = vector_store w).
Proof.
  split; [exact (plan_answer_store_grows q w)|].
  intros plan w'. unfold plan_answer. erewrite bind_return; [|reflexivity].
  destruct (router_returns unicode_isalnum unicode_isdecimal svc q (groq_api_key w)
              (dict_get_default (settings w) (lit "groq_model")
                                (PStr (lit "llama3-8b-8192"))) w)
    as (d & extra & s & E & _ & Hs).
  rewrite (bind_return _ E).
  erewrite bind_return; [|unfold dict_item; rewrite Hs; reflexivity].
  destruct (eq_str (PStr (value s)) (value DIRECT_LLM)).
  - unfold bind, unrecorded.
    destruct (load_prompt svc (after_calls w extra) (lit "direct_llm_system.txt"));
      [|discriminate].
    intros [= <- <-] _. reflexivity.
  - intros Hrag Hweb. exact (dynamic_rag_store_same _ _ Hrag Hweb).
Qed.

(** X21: what is sent to the model.  In a conversation whose messages all
    have a role and a content, the generation service is called once, with
    the system prompt first and then the conversation in its order, the
    system messages left out and each message cut down to its role and
    its content; citations, strategies and interaction ids are not sent. *)
Theorem model_sees_role_and_content (system_prompt : pystr) (w : world) :
  well_formed_history (chat_messages w) ->
  exists o w',
    generate svc system_prompt w = (o, w') /\
    calls w' =
    calls w ++
      [CallAskGroq
         ([(lit "role", PStr (lit "system")); (lit "content", PStr system_prompt)]
            :: map role_and_content (filter not_system (chat_messages w)))
         (generation_model w)
         (dict_get_default (settings w) (lit "temperature") (PFloat (lit "0.5")))].
Proof.
  intros Hwf. unfold generate. erewrite bind_return; [|reflexivity].
  rewrite (bind_return _ (history_messages_filter Hwf w)).
  unfold bind, external.
  match goal with
  | |- context [ask_groq svc w ?msgs ?model ?temp] =>
      destruct (ask_groq svc w msgs model temp) as [a|e]
  end; simpl; do 2 eexists; split; reflexivity.
Qed.

(** X22: a failure of the generation service is not swallowed.  When the
    memory has no answer, the plan of the turn has been made and the call
    of the model made with that plan fails, the turn ends with the
    exception of the service; no interaction is logged, the memory is not
    fed, and the conversation has the prompt of the turn and no answer. *)
Theorem generation_failure_propagates (q : pystr) (w : world) (e : exn)
        (plan : pystr * pystr * pystr * list pyval) (w2 : world) :
  truthy (PStr q) = true ->
  truthy (check_memory svc (snd (show_prompt q w)) q) = false ->
  well_formed_history (chat_messages w) ->
  plan_answer q (asked q w) = (Return plan, w2) ->
  ask_groq svc w2 (model_messages (snd (fst (fst plan))) w2) (generation_model w2)
           (temperature_of w2) = Failure e ->
  exists w',
    handle_prompt q w = (Raise e, w') /\
    interactions w' = interactions w /\
    last_rowid w' = last_rowid w /\
    memory w' = memory w /\
    chat_messages w' = chat_messages w ++ [user_message q].
Proof.
  intros Hq Hmiss Hwf Eplan Hask.
  destruct (@turn_reaches_generation unicode_isalnum unicode_isdecimal svc q w plan w2
              Hq Hmiss Hwf Eplan) as (-> & R2 & Hwf2).
  destruct (@generate_raises svc (snd (fst (fst plan))) w2 e Hwf2 Hask) as (w3 & E3 & R3).
  exists w3. rewrite (bind_raise _ E3).
  destruct (same_session_trans R2 R3) as (M & _ & _ & _ & Me & I & L).
  simpl in *. auto.
Qed.

(** X23: what a generated turn leaves behind.  With no answer in the
    memory and a conversation whose messages have a role and a content,
    once the plan of the turn has been made and the call of the model
    made with that plan has answered, the turn ends with the prompt and
    the answer added to the conversation, in that order; the pair of the
    prompt and the answer added to the memory; and the message of the
    answer carrying the id of the row logged for the turn. *)
Theorem generated_turn_bookkeeping (q : pystr) (w : world)
        (plan : pystr * pystr * pystr * list pyval) (w2 : world) (answer : pystr) :
  truthy (PStr q) = true ->
  truthy (check_memory svc (snd (show_prompt q w)) q) = false ->
  well_formed_history (chat_messages w) ->
  plan_answer q (asked q w) = (Return plan, w2) ->
  ask_groq svc w2 (model_messages (snd (fst (fst plan))) w2) (generation_model w2)
           (temperature_of w2) = Answer answer ->
  exists w' new msg,
    handle_prompt q w = (Stop, w') /\
    interactions w' = interactions w ++ [new] /\
    llm_response new = Some answer /\
    memory w' = memory w ++ [(q, answer)] /\
    chat_messages w' = chat_messages w ++ [user_message q; msg] /\
    dict_get msg (lit "content") = Some (PStr answer) /\
    feedback_target msg w' = (Return (Some (PInt (id new))), w').
Proof.
  intros Hq Hmiss Hwf Eplan Hask.
  destruct (@generated_turn_writes unicode_isalnum unicode_isdecimal svc q w plan w2
              answer Hq Hmiss Hwf Eplan Hask)
    as (w' & new & msg & E & I & _ & _ & _ & Hr & _ & _ & Me & M & Hrole & Hc & Hid).
  exists w', new, msg. repeat split; try assumption.
  unfold feedback_target, bind, dict_item. rewrite Hrole. simpl. now rewrite Hid.
Qed.

(** X24: rating the answer of a turn rates the row of that turn.  After a
    generated turn in a table whose ids are in order, a press on a button
    of the message of the answer, thumbs up or thumbs down, sets the
    rating of the row just logged, and leaves every row that was there
    before as it was. *)
Theorem feedback_rates_the_turn (q : pystr) (w : world) (r : Z)
        (plan : pystr * pystr * pystr * list pyval) (w2 : world) (answer : pystr) :
  store_ok w ->
  sqlite_integer (last_rowid w + 1) = true ->
  r = 1%Z \/ r = (-1)%Z ->
  truthy (PStr q) = true ->
  truthy (check_memory svc (snd (show_prompt q w)) q) = false ->
  well_formed_history (chat_messages w) ->
  plan_answer q (asked q w) = (Return plan, w2) ->
  ask_groq svc w2 (model_messages (snd (fst (fst plan))) w2) (generation_model w2)
           (temperature_of w2) = Answer answer ->
  exists w' new msg w'',
    handle_prompt q w = (Stop, w') /\
    last (chat_messages w') [] = msg /\
    interactions w' = interactions w ++ [new] /\
    press_feedback msg r w' = (Return tt, w'') /\
    interactions w'' = interactions w ++ [set_rating r new].
Proof.
  intros Hok Hnext Hr Hq Hmiss Hwf Eplan Hask.
  destruct (@generated_turn_writes unicode_isalnum unicode_isdecimal svc q w plan w2
              answer Hq Hmiss Hwf Eplan Hask)
    as (w' & new & msg & E & I & Hnew & _ & _ & _ & _ & _ & _ & M & Hrole & _ & Hid).
  assert (Hr64 : sqlite_integer r = true) by (destruct Hr as [-> | ->]; reflexivity).
  exists w', new, msg. eexists. split; [exact E|]. split.
  - rewrite M. change [user_message q; msg] with ([user_message q] ++ [msg]).
    rewrite app_assoc. apply last_last.
  - split; [exact I|].
    unfold press_feedback, feedback_target, bind, dict_item. rewrite Hrole. simpl.
    rewrite Hid. unfold update_interaction_rating. rewrite Hr64, Hnew, Hnext.
    split; [reflexivity|]. simpl. rewrite I, update_rows_app.
    rewrite (update_rows_absent r).
    + simpl. now rewrite Hnew, Z.eqb_refl.
    + exact (store_ok_fresh Hok).
Qed.

(** X25: a turn answered from the memory feeds nothing back.  The memory
    is as it was, neither the router nor any other service is called
    after the memory, and the message of the answer carries no
    interaction id: it shows no button and cannot be rated. *)
Theorem memory_turn_leaves_no_trace (q : pystr) (w : world) :
  truthy (PStr q) = true ->
  truthy (check_memory svc (snd (show_prompt q w)) q) = true ->
  exists w' msg,
    handle_prompt q w = (Stop, w') /\
    memory w' = memory w /\
    vector_store w' = vector_store w /\
    calls w' = calls w ++ [CallCheckMemory q] /\
    chat_messages w' = chat_messages w ++ [user_message q; msg] /\
    dict_get msg (lit "content") = Some (check_memory svc (snd (show_prompt q w)) q) /\
    feedback_target msg w' = (Return None, w').
Proof.
  intros Hq Hhit. unfold handle_prompt. rewrite Hq.
  assert (Hshow : show_prompt q w = (Return tt, snd (show_prompt q w))) by reflexivity.
  rewrite (bind_return _ Hshow).
  destruct (memory_shortcut_hit svc q (snd (show_prompt q w)) Hhit)
    as (w' & E & _ & _ & V & Me & C & M).
  rewrite (bind_stop _ E). exists w'. eexists. split; [reflexivity|].
  split; [exact Me|]. split; [exact V|]. split; [exact C|].
  split; [rewrite M; simpl; rewrite <- app_assoc; reflexivity|].
  split; reflexivity.
Qed.

End MoreOrchestratorProperties.

(** ** The page, further *)

(** The message is of the user. *)
Definition of_user (m : pydict) : bool :=
  eq_str (dict_get_default m (lit "role") PNone) (lit "user").

Lemma scan_for_user_finds (l : list pydict) :
  Forall (fun m => dict_get m (lit "role") <> None) l ->
  forall i w,
    (scan_for_user l i w = (Return (-1)%Z, w) /\ Forall (fun m => of_user m = false) l) \/
    (exists skipped m rest,
        l = skipped ++ m :: rest /\
        Forall (fun m => of_user m = false) skipped /\
        of_user m = true /\
        scan_for_user l i w = (Return (i - Z.of_nat (List.length skipped))%Z, w)).
Proof.
  induction 1 as [|m l Hr _ IH]; intros i w; [left; split; [reflexivity | constructor]|].
  destruct (dict_get m (lit "role")) as [role|] eqn:Er; [|now destruct Hr].
  assert (Hu : of_user m = eq_str role (lit "user"))
    by (unfold of_user, dict_get_default; now rewrite Er).
  assert (Hstep : scan_for_user (m :: l) i w =
                  if eq_str role (lit "user") then (Return i, w)
                  else scan_for_user l (i - 1)%Z w).
  { cbn [scan_for_user]. unfold bind, dict_item. rewrite Er. unfold ret.
    destruct (eq_str role (lit "user")); reflexivity. }
  rewrite Hstep. clear Hstep.
  destruct (eq_str role (lit "user")) eqn:E.
  - right. exists [], m, l. repeat split; [constructor | exact Hu |].
    simpl. now rewrite Z.sub_0_r.
  - destruct (IH (i - 1)%Z w) as [[Es Hall]|(skipped & m' & rest & -> & Hsk & Hm' & Es)].
    + left. split; [exact Es|]. constructor; assumption.
    + right. exists (m :: skipped), m', rest.
      repeat split; [constructor; assumption | exact Hm' |].
      rewrite Es. simpl List.length. do 2 f_equal. lia.
Qed.

(** X26: the index of the last message of the user.  In a conversation
    whose messages all have a role, the loop returns [-1] when no message
    is of the user; otherwise it returns the place of a message of the
    user after which no message is of the user. *)
Theorem last_user_msg_index_is_last (messages : list pydict) (w : world) :
  Forall (fun m => dict_get m (lit "role") <> None) messages ->
  (last_user_msg_index messages w = (Return (-1)%Z, w) /\
   Forall (fun m => of_user m = false) messages) \/
  (exists before m after,
      messages = before ++ m :: after /\
      of_user m = true /\
      Forall (fun m => of_user m = false) after /\
      last_user_msg_index messages w = (Return (Z.of_nat (List.length before)), w)).
Proof.
  intros Hroles. unfold last_user_msg_index.
  assert (Hrev : Forall (fun m => dict_get m (lit "role") <> None) (rev messages)).
  { apply Forall_forall. intros m Hm. apply in_rev in Hm.
    rewrite Forall_forall in Hroles. now apply Hroles. }
  destruct (scan_for_user_finds Hrev (Z.of_nat (List.length messages) - 1)%Z w)
    as [[Es Hall]|(skipped & m & rest & Hl & Hsk & Hm & Es)].
  - left. split; [exact Es|]. apply Forall_forall. intros m Hm.
    rewrite Forall_forall in Hall. apply Hall. now apply in_rev in Hm.
  - right. exists (rev rest), m, (rev skipped).
    assert (Hmsgs : messages = rev rest ++ m :: rev skipped).
    { rewrite <- (rev_involutive messages), Hl, rev_app_distr. simpl.
      now rewrite <- app_assoc. }
    split; [exact Hmsgs|]. split; [exact Hm|]. split.
    + apply Forall_forall. intros x Hx. apply in_rev in Hx.
      rewrite Forall_forall in Hsk. now apply Hsk.
    + rewrite Es. do 2 f_equal. rewrite Hmsgs at 1.
      rewrite length_app. simpl. rewrite !length_rev. lia.
Qed.

(** *** Uploads *)

Lemma name_in_set_add (n m : pystr) (set : list pystr) :
  name_in m (set_add n set) = pystr_eqb m n || name_in m set.
Proof.
  unfold set_add. destruct (name_in n set) eqn:E.
  - destruct (pystr_eqb m n) eqn:Em; [|reflexivity].
    apply pystr_eqb_eq in Em. subst. now rewrite E.
  - unfold name_in. rewrite existsb_app. simpl. rewrite orb_false_r. apply orb_comm.
Qed.

(** The chunks of a file, none when it cannot be processed. *)
Definition chunks_of (f : UploadedFile) : list Document :=
  match processed_as f with
  | Answer docs => docs
  | Failure _ => []
  end.

Lemma process_files_all (files : list UploadedFile) :
  Forall (fun f => exists docs, processed_as f = Answer docs) files ->
  forall set acc,
  exists set',
    process_files files set acc = (set', Answer (acc ++ flat_map chunks_of files)) /\
    (forall m, name_in m set' =
               name_in m set || existsb (fun f => pystr_eqb m (file_name f)) files).
Proof.
  induction 1 as [|f files [docs Hf] _ IH]; intros set acc.
  - exists set. simpl. rewrite app_nil_r. split; [reflexivity|].
    intros m. now rewrite orb_false_r.
  - simpl. rewrite Hf.
    destruct (IH (set_add (file_name f) set) (acc ++ docs)) as (set' & E & Hin).
    exists set'. unfold chunks_of at 1. rewrite Hf, app_assoc. split; [exact E|].
    intros m. rewrite Hin, name_in_set_add.
    destruct (pystr_eqb m (file_name f)), (name_in m set); reflexivity.
Qed.

Lemma process_files_stops (pre : list UploadedFile) (bad : UploadedFile)
      (post : list UploadedFile) (e : exn) :
  Forall (fun f => exists docs, processed_as f = Answer docs) pre ->
  processed_as bad = Failure e ->
  forall set acc,
  exists set',
    process_files (pre ++ bad :: post) set acc = (set', Failure e) /\
    (forall m, name_in m set' =
               name_in m set || existsb (fun f => pystr_eqb m (file_name f)) pre).
Proof.
  intros Hpre Hbad. induction Hpre as [|f files [docs Hf] _ IH]; intros set acc.
  - exists set. simpl. rewrite Hbad. split; [reflexivity|].
    intros m. now rewrite orb_false_r.
  - simpl. rewrite Hf.
    destruct (IH (set_add (file_name f) set) (acc ++ docs)) as (set' & E & Hin).
    exists set'. split; [exact E|].
    intros m. rewrite Hin, name_in_set_add.
    destruct (pystr_eqb m (file_name f)), (name_in m set); reflexivity.
Qed.

Lemma filter_new_none (uploaded : list UploadedFile) (set : list pystr) :
  (forall f, In f uploaded -> name_in (file_name f) set = true) ->
  filter (fun f => negb (name_in (file_name f) set)) uploaded = [].
Proof.
  induction uploaded as [|f l IH]; intros H; [reflexivity|]. simpl.
  rewrite (H f (or_introl eq_refl)). simpl. apply IH. intros g Hg. apply H. now right.
Qed.

(** X27: an upload that goes well.  When every file not yet processed can
    be processed, their chunks are added to the Document Store, file by
    file in the order of the upload, and the names of all the files of the
    upload are then in the set of processed files; the same upload, on the
    next run of the page, adds nothing. *)
Theorem uploads_indexed_once (uploaded : list UploadedFile) (processed : list pystr)
        (w : world) :
  Forall (fun f => exists docs, processed_as f = Answer docs) uploaded ->
  exists processed' report w',
    handle_uploads uploaded processed w = (Return (processed', report), w') /\
    stored w' =
      stored w ++ flat_map chunks_of
                    (filter (fun f => negb (name_in (file_name f) processed)) uploaded) /\
    (forall f, In f uploaded -> name_in (file_name f) processed' = true) /\
    handle_uploads uploaded processed' w' = (Return (processed', UploadNothing), w').
Proof.
  intros Hall. unfold handle_uploads at 1.
  set (new_files := filter (fun f => negb (name_in (file_name f) processed)) uploaded).
  assert (Hnew : Forall (fun f => exists docs, processed_as f = Answer docs) new_files)
    by (apply Forall_filter_keep; exact Hall).
  assert (Hnames : forall set',
             (forall m, name_in m set' =
                        name_in m processed
                        || existsb (fun f => pystr_eqb m (file_name f)) new_files) ->
             forall f, In f uploaded -> name_in (file_name f) set' = true).
  { intros set' Hin f Hf. rewrite Hin.
    destruct (name_in (file_name f) processed) eqn:E; [reflexivity|]. simpl.
    apply existsb_exists. exists f. split; [|apply pystr_eqb_refl].
    apply filter_In. split; [exact Hf | now rewrite E]. }
  destruct new_files as [|f0 rest] eqn:Enew.
  - exists processed, UploadNothing, w. split; [reflexivity|].
    split; [simpl; now rewrite app_nil_r|].
    assert (Hdone : forall f, In f uploaded -> name_in (file_name f) processed = true).
    { apply Hnames. intros m. simpl. now rewrite orb_false_r. }
    split; [exact Hdone|]. unfold handle_uploads. now rewrite (filter_new_none _ _ Hdone).
  - rewrite <- Enew in *.
    destruct (process_files_all Hnew processed []) as (set' & E & Hin).
    rewrite E. simpl fst. simpl snd. simpl app.
    pose proof (Hnames set' Hin) as Hdone.
    assert (Hrerun : forall w0, handle_uploads uploaded set' w0
                                = (Return (set', UploadNothing), w0)).
    { intros w0. unfold handle_uploads. now rewrite (filter_new_none _ _ Hdone). }
    destruct (flat_map chunks_of new_files) as [|d ds] eqn:Edocs.
    + exists set', UploadNoText, w. split; [reflexivity|].
      split; [now rewrite app_nil_r|]. split; [exact Hdone | apply Hrerun].
    + do 3 eexists. split; [reflexivity|]. split; [reflexivity|].
      split; [exact Hdone | apply Hrerun].
Qed.

(** X28: an upload that fails half way.  When a file of the upload cannot
    be processed, the error is reported and nothing is added to the
    Document Store, not even the chunks of the files processed before it;
    yet the names of those files are in the set of processed files, so
    the next run of the page takes none of them up again. *)
Theorem failed_upload_loses_earlier_files (uploaded : list UploadedFile)
        (processed : list pystr) (w : world)
        (pre : list UploadedFile) (bad : UploadedFile) (post : list UploadedFile)
        (e : exn) :
  filter (fun f => negb (name_in (file_name f) processed)) uploaded = pre ++ bad :: post ->
  Forall (fun f => exists docs, processed_as f = Answer docs) pre ->
  processed_as bad = Failure e ->
  exists processed',
    handle_uploads uploaded processed w = (Return (processed', UploadError e), w) /\
    Forall (fun f => name_in (file_name f) processed' = true) pre /\
    Forall (fun f => ~ In f pre)
           (filter (fun f => negb (name_in (file_name f) processed')) uploaded).
Proof.
  intros Hnew Hpre Hbad. unfold handle_uploads. rewrite Hnew.
  destruct (@process_files_stops pre bad post e Hpre Hbad processed []) as (set' & E & Hin).
  exists set'.
  assert (Hmarked : Forall (fun f => name_in (file_name f) set' = true) pre).
  { apply Forall_forall. intros f Hf. rewrite Hin.
    replace (existsb (fun g => pystr_eqb (file_name f) (file_name g)) pre) with true;
      [apply orb_true_r|].
    symmetry. apply existsb_exists. exists f. split; [exact Hf | apply pystr_eqb_refl]. }
  split; [|split; [exact Hmarked|]].
  - destruct pre; simpl app; cbv iota; rewrite E; reflexivity.
  - apply Forall_forall. intros f Hf Hfpre. apply filter_In in Hf.
    rewrite Forall_forall in Hmarked. rewrite (Hmarked f Hfpre) in Hf.
    destruct Hf as [_ Hf]. discriminate Hf.
Qed.

(** ** The further properties run *)

(** Services whose generation fails, and a table with two sessions. *)
Definition down_services : services :=
  {| router_setup := fun _ _ _ => Answer tt;
     router_invoke := fun _ _ => Failure timeout_error;
     grader_setup := fun _ _ _ => Answer tt;
     grader_invoke := fun _ _ _ => Failure timeout_error;
     check_memory := fun _ _ => PNone;
     similarity_search := fun _ _ _ => Answer [];
     run_tavily_search := fun _ _ _ _ => Answer ([], []);
     ask_groq := fun _ _ _ _ => Failure timeout_error;
     load_prompt := fun _ name => Answer name;
     format_context := fun template context_text => Answer (template ++ context_text);
     str_of_value := fun _ => lit "?";
     json_dumps := fun _ => lit "[]";
     json_loads := fun _ => PList [];
     current_timestamp := fun _ => 0%Z |}.

Definition rag_rows : list row :=
  [mkRow 1 (Some (lit "s1")) 100 (lit "What is RAG?") (Some []) (Some (lit "Retrieval."))
         1 (Some (lit "Groq")) (Some (lit "[]"));
   mkRow 2 (Some (lit "s2")) 200 (lit "Explain RAG pipelines") (Some [])
         (Some (lit "Retrieve, then generate.")) 1 (Some (lit "Groq")) (Some (lit "[]"));
   mkRow 3 (Some (lit "s1")) 300 (lit "capital of France") (Some []) (Some (lit "Paris."))
         (-1) (Some (lit "Groq")) (Some (lit "[]"));
   mkRow 4 (Some (lit "s2")) 150 (lit "what is rag again") (Some []) (Some (lit "See above."))
         0 (Some (lit "Groq")) (Some (lit "[]"))].

Definition rag_world : world := with_interactions demo_world rag_rows 4.

Definition notes_file : UploadedFile :=
  mkUploadedFile (lit "notes.txt") (Answer [demo_document]).

Definition broken_file : UploadedFile :=
  mkUploadedFile (lit "broken.pdf")
                 (Failure (mkExn (lit "ValueError") (lit "not a PDF"))).

(** X29: a pending query is handed over once.  A value that is there and
    true is returned and [None] is left in its place, so a second look
    returns nothing; a value that is not true is left where it is. *)
Theorem pending_query_consumed_once (pending_query : option pyval) :
  fst (check_pending_query (snd (check_pending_query pending_query))) = PNone /\
  (forall q, pending_query = Some q -> truthy q = true ->
             check_pending_query pending_query = (q, Some PNone)) /\
  (forall q, pending_query = Some q -> truthy q = false ->
             check_pending_query pending_query = (PNone, Some q)).
Proof.
  split; [|split].
  - destruct pending_query as [q|]; simpl; [|reflexivity].
    destruct (truthy q) eqn:E; simpl; [reflexivity | now rewrite E].
  - intros q -> Hq. simpl. now rewrite Hq.
  - intros q -> Hq. simpl. now rewrite Hq.
Qed.

(** Rows that the keys of the queries do not tell apart: three of one
    timestamp and one rating, in two sessions, and a newer one. *)
Definition tied_rows : list row :=
  [mkRow 1 (Some (lit "a")) 100 (lit "A") None (Some (lit "first")) 1 None None;
   mkRow 2 (Some (lit "b")) 100 (lit "B") None (Some (lit "second")) 1 None None;
   mkRow 3 (Some (lit "a")) 100 (lit "C") None (Some (lit "third")) 1 None None;
   mkRow 4 (Some (lit "c")) 200 (lit "D") None (Some (lit "fourth")) 0 None None].

Definition tied_world : world := with_interactions demo_world tied_rows 4.

(** An engine that leaves rows of equal keys in the order of the table
    lists them so, and one that puts each row after the rows of equal
    keys already placed lists the sessions the other way round. *)
Example ties_in_table_order :
  fst (load_query_history_from_db table_order 2 tied_world)
  = Return [[(lit "Query", PStr (lit "D")); (lit "Type", PStr (lit "RAG Agent"))];
            [(lit "Query", PStr (lit "A")); (lit "Type", PStr (lit "RAG Agent"))]] /\
  fst (find_similar_interaction table_order [] tied_world)
  = Return (PDict [(lit "past_question", PStr (lit "A"));
                   (lit "past_answer", PStr (lit "first"))]) /\
  fst (get_all_sessions (fun _ _ => false) tied_world)
  = Return [mkSessionRow (Some (lit "c")) 200 (lit "D");
            mkSessionRow (Some (lit "b")) 100 (lit "B");
            mkSessionRow (Some (lit "a")) 100 (lit "A")].
Proof. repeat split. Qed.

(** [LIKE] stops at the first NUL of the text and of the pattern. *)
Example like_stops_at_nul :
  sql_like (lit "%cd%") (lit "ab" ++ [0%N] ++ lit "cd") = false /\
  sql_like (lit "%ab" ++ [0%N] ++ lit "zz%") (lit "ab" ++ [0%N] ++ lit "cd") = true.
Proof. split; reflexivity. Qed.

(** A pattern beyond the limit of [LIKE] is an error on a table that has
    a row, and none on an empty table. *)
Lemma like_pattern_too_long (ties : Z -> Z -> bool) (q : pystr) (w : world) :
  (like_pattern_limit < utf8_length (lit "%" ++ strip q ++ lit "%"))%N ->
  (interactions w <> [] ->
   find_similar_interaction ties q w = (Raise pattern_too_complex, w)) /\
  (interactions w = [] -> find_similar_interaction ties q w = (Return PNone, w)).
Proof.
  intros Hlong. apply N.ltb_lt in Hlong.
  unfold find_similar_interaction, check_like_pattern, bind, get_world.
  split; intros Hrows.
  - destruct (interactions w); [now destruct Hrows|]. now rewrite Hlong.
  - now rewrite Hrows.
Qed.

Example find_similar_trims_and_folds :
  find_similar_interaction table_order (lit "  rag ") rag_world =
  (Return (PDict [(lit "past_question", PStr (lit "Explain RAG pipelines"));
                  (lit "past_answer", PStr (lit "Retrieve, then generate."))]),
   rag_world).
Proof. reflexivity. Qed.

Example find_similar_skips_rated_down :
  find_similar_interaction table_order (lit "france") rag_world
  = (Return PNone, rag_world).
Proof. reflexivity. Qed.

Example find_similar_reads_wildcards :
  find_similar_interaction table_order (lit "w_at") rag_world =
  (Return (PDict [(lit "past_question", PStr (lit "What is RAG?"));
                  (lit "past_answer", PStr (lit "Retrieval."))]),
   rag_world).
Proof. reflexivity. Qed.

Example sessions_of_rag_world :
  get_all_sessions table_order rag_world =
  (Return [mkSessionRow (Some (lit "s1")) 300 (lit "capital of France");
           mkSessionRow (Some (lit "s2")) 200 (lit "Explain RAG pipelines")],
   rag_world).
Proof. reflexivity. Qed.

Lemma demo_world_ok : store_ok demo_world.
Proof.
  split; simpl.
  - constructor; [intros [] | constructor].
  - constructor; [simpl; lia | constructor].
Defined.

Lemma router_without_credentials_witness :
  get_retriever_decision no_unicode no_unicode failing_services capital_query
                         (PStr []) router_model demo_world =
  (Return [(lit "strategy", PStr (lit "Vector-Based"));
           (lit "reasoning", PStr (lit "No API key provided."));
           (lit "refined_query", PStr capital_query)],
   demo_world).
Proof.
  exact (@router_without_credentials no_unicode no_unicode failing_services
           capital_query (PStr []) router_model demo_world eq_refl eq_refl).
Defined.

(** Services whose classifier fails once, then answers. *)
Definition flaky_services : services :=
  {| router_setup := fun _ _ _ => Answer tt;
     router_invoke := fun w _ =>
       match router_invokes (calls w) with
       | 0 => Failure timeout_error
       | _ => Answer (PDict [(lit "strategy", PStr (lit "Hybrid"));
                             (lit "reasoning", PStr (lit "Both are needed."));
                             (lit "refined_query", PStr (lit "capital France"))])
       end;
     grader_setup := fun _ _ _ => Answer tt;
     grader_invoke := fun _ _ _ => Failure timeout_error;
     check_memory := fun _ _ => PNone;
     similarity_search := fun _ _ _ => Answer [];
     run_tavily_search := fun _ _ _ _ => Answer ([], []);
     ask_groq := fun _ _ _ _ => Answer (lit "Paris.");
     load_prompt := fun _ name => Answer name;
     format_context := fun template context_text => Answer (template ++ context_text);
     str_of_value := fun _ => lit "?";
     json_dumps := fun _ => lit "[]";
     json_loads := fun _ => PList [];
     current_timestamp := fun _ => 0%Z |}.

Lemma router_stops_at_first_answer_witness :
  get_retriever_decision no_unicode no_unicode flaky_services capital_query demo_key
                         router_model demo_world =
  (Return [(lit "strategy", PStr (lit "Hybrid"));
           (lit "reasoning", PStr (lit "Both are needed."));
           (lit "refined_query", PStr (lit "capital France"))],
   after_calls demo_world
     [CallRouterSetup; CallRouterInvoke capital_query; CallRouterInvoke capital_query]).
Proof.
  refine (@router_stops_at_first_answer no_unicode no_unicode flaky_services
            capital_query demo_key router_model demo_world 1
            [(lit "strategy", PStr (lit "Hybrid"));
             (lit "reasoning", PStr (lit "Both are needed."));
             (lit "refined_query", PStr (lit "capital France"))]
            eq_refl eq_refl eq_refl _ _ eq_refl).
  - unfold max_retries. lia.
  - intros i Hi. assert (i = 0) as -> by lia. exists timeout_error. reflexivity.
Defined.

Lemma store_ids_never_reused_witness :
  exists w',
    log_interaction demo_services capital_query [] (lit "Paris.") (lit "Groq") (PList [])
                    (lit "s1") demo_world = (Return 8%Z, w') /\
    ~ In 8%Z (map id (interactions demo_world)) /\
    store_ok w'.
Proof.
  exact (proj1 (@store_ids_never_reused demo_services demo_world capital_query []
                  (lit "Paris.") (lit "Groq") (PList []) (lit "s1") 7 1 demo_world_ok)).
Defined.

Lemma rate_what_was_logged_witness :
  (exists w',
      (interaction_id <- log_interaction demo_services capital_query [] (lit "Paris.")
                                         (lit "Groq") (PList []) (lit "s1") ;;
       update_interaction_rating interaction_id 1) demo_world = (Return tt, w') /\
      interactions w' =
        interactions demo_world ++
          [mkRow 8 (Some (lit "s1")) 0 capital_query (Some []) (Some (lit "Paris.")) 1
                 (Some (lit "Groq")) (Some (lit "[]"))]) /\
  (exists w',
      (interaction_id <- log_interaction demo_services capital_query [] (lit "Paris.")
                                         (lit "Groq") (PList []) (lit "s1") ;;
       update_interaction_rating interaction_id (2 ^ 63)) demo_world
      = (Raise overflow_error, w') /\
      interactions w' =
        interactions demo_world ++
          [mkRow 8 (Some (lit "s1")) 0 capital_query (Some []) (Some (lit "Paris.")) 0
                 (Some (lit "Groq")) (Some (lit "[]"))]).
Proof.
  split.
  - exact (proj1 (@rate_what_was_logged demo_services demo_world capital_query []
                    (lit "Paris.") (lit "Groq") (PList []) (lit "s1") 1
                    demo_world_ok eq_refl) eq_refl).
  - exact (proj2 (@rate_what_was_logged demo_services demo_world capital_query []
                    (lit "Paris.") (lit "Groq") (PList []) (lit "s1") (2 ^ 63)
                    demo_world_ok eq_refl) eq_refl).
Defined.

Lemma chat_history_is_latest_witness :
  exists rows older,
    load_chat_history_from_db demo_services table_order (lit "s2") 1 rag_world
    = (Return (flat_map (row_messages demo_services) rows), rag_world) /\
    Permutation (filter (in_session (lit "s2")) (interactions rag_world)) (rows ++ older) /\
    List.length rows = 1 /\
    List.length (flat_map (row_messages demo_services) rows) = 2 * List.length rows /\
    StronglySorted (fun a b => (timestamp a <= timestamp b)%Z) rows /\
    (forall o x, In o older -> In x rows -> (timestamp o <= timestamp x)%Z).
Proof.
  apply (@chat_history_is_latest demo_services table_order (lit "s2") 1 rag_world). lia.
Defined.

Lemma rag_pattern_ok : like_pattern_ok (lit " rag ").
Proof. vm_compute. discriminate. Defined.

Lemma find_similar_returns_best_rated_witness :
  exists best,
    In best (interactions rag_world) /\
    (1 <= rating best)%Z /\
    fst (find_similar_interaction table_order (lit " rag ") rag_world) =
    Return (PDict [(lit "past_question", PStr (user_prompt best));
                   (lit "past_answer", sql_text (llm_response best))]).
Proof.
  destruct (@find_similar_returns_best_rated table_order (lit " rag ") rag_world
              rag_pattern_ok) as [[E _]|(best & Hin & _ & Hr & E & _)].
  - discriminate E.
  - exists best. rewrite E. auto.
Defined.

Lemma like_is_containment_witness :
  find_similar_interaction table_order (lit " rag ") rag_world
  = (Return PNone, rag_world) <->
  forall r, In r (interactions rag_world) -> (1 <= rating r)%Z ->
            ~ occurs_in (strip (lit " rag ")) (until_nul (user_prompt r)).
Proof.
  apply (@like_is_containment table_order (lit " rag ") rag_world); [|exact rag_pattern_ok].
  vm_compute.
  repeat (apply Forall_cons; [repeat split; intros H; discriminate H|]). apply Forall_nil.
Defined.

Lemma find_similar_ignores_surrounding_space_witness :
  find_similar_interaction table_order (lit "  " ++ lit "rag" ++ lit " ") rag_world
  = find_similar_interaction table_order (lit "rag") rag_world.
Proof.
  apply (@find_similar_ignores_surrounding_space table_order (lit "  ") (lit "rag")
           (lit " ") rag_world); repeat constructor.
Defined.

Lemma blank_query_matches_everything_witness :
  (find_similar_interaction table_order (lit "   ") rag_world
   = (Return PNone, rag_world) /\
   Forall (fun r => (rating r < 1)%Z) (interactions rag_world)) \/
  (exists best,
      In best (interactions rag_world) /\ (1 <= rating best)%Z /\
      find_similar_interaction table_order (lit "   ") rag_world =
      (Return (PDict [(lit "past_question", PStr (user_prompt best));
                      (lit "past_answer", sql_text (llm_response best))]), rag_world) /\
      Forall (fun r => (rating r <= rating best)%Z) (interactions rag_world)).
Proof.
  apply (@blank_query_matches_everything table_order (lit "   ") rag_world).
  repeat constructor.
Defined.

Lemma query_history_is_latest_witness :
  exists rows older,
    load_query_history_from_db table_order 3 rag_world
    = (Return (map (fun r => [(lit "Query", PStr (user_prompt r));
                              (lit "Type", PStr (lit "RAG Agent"))]) rows), rag_world) /\
    Permutation (interactions rag_world) (rows ++ older) /\
    List.length rows = 3 /\
    StronglySorted not_newer rows /\
    (forall o x, In o older -> In x rows -> (timestamp o <= timestamp x)%Z).
Proof.
  apply (@query_history_is_latest table_order 3 rag_world). lia.
Defined.

(** A conversation under way: a system message, a question of the user
    and its answer with the fields the page keeps for itself. *)
Definition talk_messages : list pydict :=
  [[(lit "role", PStr (lit "system")); (lit "content", PStr (lit "Session restored."))];
   user_message (lit "What is RAG?");
   [(lit "role", PStr (lit "assistant")); (lit "content", PStr (lit "Retrieval."));
    (lit "source", PStr (lit "Groq")); (lit "interaction_id", PInt 7)]].

Definition talk_world : world := with_chat_messages demo_world talk_messages.

Lemma talk_world_well_formed : well_formed_history (chat_messages talk_world).
Proof.
  repeat (apply Forall_cons; [split; discriminate|]). apply Forall_nil.
Defined.

Lemma model_sees_role_and_content_witness :
  exists o w',
    generate demo_services (lit "Answer briefly.") talk_world = (o, w') /\
    calls w' =
    [CallAskGroq
       [[(lit "role", PStr (lit "system")); (lit "content", PStr (lit "Answer briefly."))];
        user_message (lit "What is RAG?");
        [(lit "role", PStr (lit "assistant")); (lit "content", PStr (lit "Retrieval."))]]
       (generation_model talk_world)
       (PFloat (lit "0.5"))].
Proof.
  exact (@model_sees_role_and_content demo_services (lit "Answer briefly.") talk_world
           talk_world_well_formed).
Defined.

Lemma generation_failure_propagates_witness :
  exists w',
    handle_prompt no_unicode no_unicode down_services capital_query talk_world =
    (Raise timeout_error, w') /\
    interactions w' = interactions talk_world /\
    last_rowid w' = last_rowid talk_world /\
    memory w' = memory talk_world /\
    chat_messages w' = chat_messages talk_world ++ [user_message capital_query].
Proof.
  exact (@generation_failure_propagates no_unicode no_unicode down_services
           capital_query talk_world timeout_error
           (lit "Direct LLM", lit "direct_llm_system.txt", [], []) _
           eq_refl eq_refl talk_world_well_formed eq_refl eq_refl).
Defined.

Lemma generated_turn_bookkeeping_witness :
  exists w' new msg,
    handle_prompt no_unicode no_unicode answering_once_services capital_query demo_world =
    (Stop, w') /\
    interactions w' = interactions demo_world ++ [new] /\
    llm_response new = Some (lit "Paris.") /\
    memory w' = memory demo_world ++ [(capital_query, lit "Paris.")] /\
    chat_messages w' = chat_messages demo_world ++ [user_message capital_query; msg] /\
    dict_get msg (lit "content") = Some (PStr (lit "Paris.")) /\
    feedback_target msg w' = (Return (Some (PInt (id new))), w').
Proof.
  exact (@generated_turn_bookkeeping no_unicode no_unicode answering_once_services
           capital_query demo_world
           (lit "Direct LLM", lit "Answer briefly.", [], []) _ (lit "Paris.")
           eq_refl eq_refl (Forall_nil _) eq_refl eq_refl).
Defined.

Lemma feedback_rates_the_turn_witness :
  exists w' new msg w'',
    handle_prompt no_unicode no_unicode answering_once_services capital_query demo_world =
    (Stop, w') /\
    last (chat_messages w') [] = msg /\
    interactions w' = interactions demo_world ++ [new] /\
    press_feedback msg (-1) w' = (Return tt, w'') /\
    interactions w'' = interactions demo_world ++ [set_rating (-1) new].
Proof.
  exact (@feedback_rates_the_turn no_unicode no_unicode answering_once_services
           capital_query demo_world (-1)
           (lit "Direct LLM", lit "Answer briefly.", [], []) _ (lit "Paris.")
           demo_world_ok eq_refl (or_intror eq_refl) eq_refl eq_refl (Forall_nil _)
           eq_refl eq_refl).
Defined.

Lemma memory_turn_leaves_no_trace_witness :
  exists w' msg,
    handle_prompt no_unicode no_unicode remembering_services capital_query talk_world =
    (Stop, w') /\
    memory w' = memory talk_world /\
    vector_store w' = vector_store talk_world /\
    calls w' = [CallCheckMemory capital_query] /\
    chat_messages w' = chat_messages talk_world ++ [user_message capital_query; msg] /\
    dict_get msg (lit "content") = Some (PStr (lit "Paris.")) /\
    feedback_target msg w' = (Return None, w').
Proof.
  exact (@memory_turn_leaves_no_trace no_unicode no_unicode remembering_services
           capital_query talk_world eq_refl eq_refl).
Defined.

Lemma last_user_msg_index_is_last_witness :
  (last_user_msg_index talk_messages demo_world = (Return (-1)%Z, demo_world) /\
   Forall (fun m => of_user m = false) talk_messages) \/
  (exists before m after,
      talk_messages = before ++ m :: after /\
      of_user m = true /\
      Forall (fun m => of_user m = false) after /\
      last_user_msg_index talk_messages demo_world =
      (Return (Z.of_nat (List.length before)), demo_world)).
Proof.
  apply (@last_user_msg_index_is_last talk_messages demo_world).
  repeat (apply Forall_cons; [discriminate|]). apply Forall_nil.
Defined.

Lemma uploads_indexed_once_witness :
  exists processed' report w',
    handle_uploads [notes_file] [] demo_world = (Return (processed', report), w') /\
    stored w' = stored demo_world ++ [demo_document] /\
    (forall f, In f [notes_file] -> name_in (file_name f) processed' = true) /\
    handle_uploads [notes_file] processed' w' = (Return (processed', UploadNothing), w').
Proof.
  apply (@uploads_indexed_once [notes_file] [] demo_world).
  apply Forall_cons; [|apply Forall_nil]. exists [demo_document]. reflexivity.
Defined.

Lemma failed_upload_loses_earlier_files_witness :
  exists processed',
    handle_uploads [notes_file; broken_file] [] demo_world =
    (Return (processed', UploadError (mkExn (lit "ValueError") (lit "not a PDF"))),
     demo_world) /\
    Forall (fun f => name_in (file_name f) processed' = true) [notes_file] /\
    Forall (fun f => ~ In f [notes_file])
           (filter (fun f => negb (name_in (file_name f) processed'))
                   [notes_file; broken_file]).
Proof.
  apply (@failed_upload_loses_earlier_files [notes_file; broken_file] [] demo_world
           [notes_file] broken_file [] (mkExn (lit "ValueError") (lit "not a PDF"))).
  - reflexivity.
  - apply Forall_cons; [|apply Forall_nil]. exists [demo_document]. reflexivity.
  - reflexivity.
Defined.

Lemma validate_strategy_only_strategy_witness :
  validate_strategy [(lit "strategy", PStr (lit "Hybrid")); (lit "reasoning", PStr [])]
  = [(lit "strategy", PStr (lit "Hybrid")); (lit "reasoning", PStr [])] /\
  dict_get (validate_strategy [(lit "strategy", PStr (lit "Graph")); (lit "reasoning", PStr [])])
           (lit "reasoning") = Some (PStr []).
Proof.
  split.
  - apply (proj1 (@validate_strategy_only_strategy
                    [(lit "strategy", PStr (lit "Hybrid")); (lit "reasoning", PStr [])])).
    reflexivity.
  - apply (proj1 (proj2 (@validate_strategy_only_strategy
                    [(lit "strategy", PStr (lit "Graph")); (lit "reasoning", PStr [])]))).
    discriminate.
Defined.

Lemma rating_updates_compose_witness :
  update_interaction_rating 9 1 rag_world = (Return tt, rag_world) /\
  (update_interaction_rating 1 (-1) ;; update_interaction_rating 3 1) rag_world
  = (update_interaction_rating 3 1 ;; update_interaction_rating 1 (-1)) rag_world.
Proof.
  split.
  - apply (proj1 (@rating_updates_compose rag_world 9 1 1 1
                    eq_refl eq_refl eq_refl eq_refl)).
    repeat (apply Forall_cons; [discriminate|]). apply Forall_nil.
  - apply (proj2 (proj2 (@rating_updates_compose rag_world 1 3 (-1) 1
                           eq_refl eq_refl eq_refl eq_refl))).
    discriminate.
Defined.

Lemma pending_query_consumed_once_witness :
  check_pending_query (Some (PStr capital_query)) = (PStr capital_query, Some PNone) /\
  check_pending_query (Some (PStr [])) = (PNone, Some (PStr [])).
Proof.
  split.
  - exact (proj1 (proj2 (@pending_query_consumed_once (Some (PStr capital_query))))
                 (PStr capital_query) eq_refl eq_refl).
  - exact (proj2 (proj2 (@pending_query_consumed_once (Some (PStr []))))
                 (PStr []) eq_refl eq_refl).
Defined.

Lemma store_grows_on_web_only_witness :
  (exists added,
      stored (snd (plan_answer no_unicode no_unicode demo_services capital_query demo_world))
      = stored demo_world ++ added) /\
  vector_store (snd (plan_answer no_unicode no_unicode failing_services capital_query
                                 demo_world))
  = vector_store demo_world.
Proof.
  split.
  - exact (proj1 (@store_grows_on_web_only no_unicode no_unicode demo_services
                    capital_query demo_world)).
  - apply (proj2 (@store_grows_on_web_only no_unicode no_unicode failing_services
                    capital_query demo_world)
                 (lit "Direct LLM", lit "direct_llm_system.txt", [], [])).
    + reflexivity.
    + discriminate.
Defined.
